(** * A shallow embedding of the firmware extractor (extractor.py)

    The development follows the Python source top-down: the Python
    string operations the extractor relies on, the directory-tree
    primitive [io_find_rootfs], what a binwalk scan returns, the state of
    the shared [Extractor] object, the [ExtractionItem] state machine
    with its six analysis stages, and the driver, with its serial loop
    and with its worker pool.

    Everything the program learns from outside (checksums, libmagic,
    the scanner, file sizes, directory listings, temp names) is read
    from a [World]; everything it changes (the visited set, the two
    global flags, the output files, and a log of its calls) is threaded
    through a state and exception monad.  [extract] recurses through
    child items and takes fuel.

    Definitions come first, then the lemmas, then one theorem per
    claim. *)

From Stdlib Require Import ZArith Ascii String List Bool Lia.
From Stdlib Require Import Sorted.
From stdpp Require Import base gmap sets strings.
Import ListNotations.

Local Open Scope string_scope.
Local Open Scope Z_scope.

(* ===================================================================== *)
(** ** Python string operations used by the extractor                    *)
(* ===================================================================== *)

(** A [string] stands for a Python [str] whose code points are all below
    256, one character per code point: the one-letter name [é] is
    [Py.chr 233], not the two bytes of its UTF-8 form.  On these strings
    [len] is [String.length] and the order of [str] is [String.leb].
    Strings with higher code points, and the lone surrogates by which
    Python represents file names that are not UTF-8, are not in the
    type. *)

Module Py.

(** [chr(n)] for [n < 256]. *)
Definition chr (n : nat) : string := String (ascii_of_nat n) EmptyString.

(** [needle in hay] on [str]. *)
Fixpoint contains (needle hay : string) : bool :=
  String.prefix needle hay ||
  match hay with
  | EmptyString => false
  | String _ rest => contains needle rest
  end.

(** [s.endswith(suffix)]. *)
Fixpoint endswith (s suffix : string) : bool :=
  String.eqb s suffix ||
  match s with
  | EmptyString => false
  | String _ rest => endswith rest suffix
  end.

(** [s.split(sep)] for a one-character separator: never an empty list. *)
Fixpoint split (sep : ascii) (s : string) : list string :=
  match s with
  | EmptyString => [EmptyString]
  | String c rest =>
      if Ascii.eqb c sep then EmptyString :: split sep rest
      else match split sep rest with
           | [] => [String c EmptyString]
           | w :: ws => String c w :: ws
           end
  end.

(** [x in xs] for a list of strings. *)
Definition in_list (x : string) (xs : list string) : bool :=
  existsb (String.eqb x) xs.

(** The characters [int] reads as decimal digits: below 256, the ASCII
    digits. *)
Definition isdecimal (c : ascii) : bool :=
  let n := nat_of_ascii c in (48 <=? n)%nat && (n <=? 57)%nat.

(** [c.isdigit()]: below 256, the ASCII digits and the superscripts two,
    three and one (U+00B2, U+00B3, U+00B9), which are digits but not
    decimal digits. *)
Definition isdigit (c : ascii) : bool :=
  let n := nat_of_ascii c in
  isdecimal c || (n =? 178)%nat || (n =? 179)%nat || (n =? 185)%nat.

(** [''.join(i for i in s if i.isdigit())]. *)
Fixpoint digits_of (s : string) : string :=
  match s with
  | EmptyString => EmptyString
  | String c rest =>
      if isdigit c then String c (digits_of rest) else digits_of rest
  end.

Definition digit_val (c : ascii) : Z := Z.of_nat (nat_of_ascii c) - 48.

Fixpoint int10_acc (acc : Z) (s : string) : Z :=
  match s with
  | EmptyString => acc
  | String c rest => int10_acc (10 * acc + digit_val c) rest
  end.

(** [sys.int_info.default_max_str_digits]: the longest digit string
    [int] converts in a base that is not a power of two.  The extractor
    never changes the limit. *)
Definition INT_MAX_STR_DIGITS : nat := 4300.

(** [int(s, 10)] where [s] holds [isdigit] characters only (the only way
    the extractor calls it).  [None] is Python's [ValueError]: on [''],
    on a superscript digit, and on more than 4300 digits (leading zeros
    counted). *)
Definition int10 (s : string) : option Z :=
  match s with
  | EmptyString => None
  | _ => if forallb isdecimal (list_ascii_of_string s) &&
            (String.length s <=? INT_MAX_STR_DIGITS)%nat
         then Some (int10_acc 0 s) else None
  end.

(** The characters [int] skips before and after the number: tab to
    carriage return and the space, and below 256 the two characters
    (U+0085, U+00A0) that [int] first turns into spaces.  The separators
    U+001C to U+001F, white space for [str.isspace], are not skipped. *)
Definition isspace (c : ascii) : bool :=
  let n := nat_of_ascii c in
  ((9 <=? n)%nat && (n <=? 13)%nat) || (n =? 32)%nat ||
  (n =? 133)%nat || (n =? 160)%nat.

Fixpoint lstrip (s : string) : string :=
  match s with
  | String c rest => if isspace c then lstrip rest else s
  | EmptyString => EmptyString
  end.

Fixpoint rstrip (s : string) : string :=
  match s with
  | EmptyString => EmptyString
  | String c rest =>
      match rstrip rest with
      | EmptyString => if isspace c then EmptyString else String c EmptyString
      | r => String c r
      end
  end.

Definition strip (s : string) : string := rstrip (lstrip s).

Definition hex_val (c : ascii) : option Z :=
  let n := nat_of_ascii c in
  if (48 <=? n)%nat && (n <=? 57)%nat then Some (Z.of_nat n - 48)
  else if (97 <=? n)%nat && (n <=? 102)%nat then Some (Z.of_nat n - 87)
  else if (65 <=? n)%nat && (n <=? 70)%nat then Some (Z.of_nat n - 55)
  else None.

(** Hex digits with single underscores allowed between digits (and right
    after the base prefix).  [us_ok]: an underscore may come next;
    [end_ok]: the string may end here. *)
Fixpoint hex_digits (us_ok end_ok : bool) (acc : Z) (s : string) : option Z :=
  match s with
  | EmptyString => if end_ok then Some acc else None
  | String c rest =>
      if Ascii.eqb c "_"%char then
        if us_ok then hex_digits false false acc rest else None
      else match hex_val c with
           | Some d => hex_digits true true (16 * acc + d) rest
           | None => None
           end
  end.

(** After the optional sign: an optional [0x]/[0X] prefix, then the
    digits. *)
Definition hex_body (s : string) : option Z :=
  match s with
  | String "0" (String x rest) =>
      if Ascii.eqb x "x"%char || Ascii.eqb x "X"%char
      then hex_digits true false 0 rest
      else hex_digits false false 0 s
  | _ => hex_digits false false 0 s
  end.

(** [int(s, 16)]; [None] is [ValueError]. *)
Definition int16 (s : string) : option Z :=
  match strip s with
  | String "-" rest => option_map Z.opp (hex_body rest)
  | String "+" rest => hex_body rest
  | t => hex_body t
  end.

(** [os.path.join(a, b)] for two components. *)
Definition path_join (a b : string) : string :=
  if String.prefix "/" b then b
  else if String.eqb a EmptyString || endswith a "/" then a +:+ b
  else a +:+ "/" +:+ b.

(** [os.path.basename(p)]: what follows the last slash. *)
Definition basename (p : string) : string :=
  List.last (split "/"%char p) EmptyString.

End Py.

(* ===================================================================== *)
(** ** Directory trees and [Extractor.io_find_rootfs]                    *)
(* ===================================================================== *)

(** What [os.listdir] and [os.path.isdir] can tell about a path: it is a
    directory with named entries (in listing order), or it is not.  Both
    follow symbolic links, so a link to a directory is a directory
    here; which paths are links is asked separately. *)
Inductive fsnode : Type :=
| FsFile : fsnode
| FsDir : list (string * fsnode) -> fsnode.

Definition isdir (t : fsnode) : bool :=
  match t with FsDir _ => true | FsFile => false end.

Definition entries (t : fsnode) : list (string * fsnode) :=
  match t with FsDir l => l | FsFile => [] end.

Module Extractor.

Definition UNIX_DIRS : list string :=
  ["bin"; "etc"; "dev"; "home"; "lib"; "mnt"; "opt"; "root";
   "run"; "sbin"; "tmp"; "usr"; "var"].

Definition UNIX_THRESHOLD : nat := 4.

(** The [while] loop at the head of [io_find_rootfs]: descend as long as
    [os.listdir(path)] has one entry and that entry is a directory. *)
Fixpoint collapse (path : string) (t : fsnode) : string * fsnode :=
  match t with
  | FsDir [(name, (FsDir _) as child)] => collapse (Py.path_join path name) child
  | _ => (path, t)
  end.

(** The counting loop: [count += 1] for each entry that is in
    [UNIX_DIRS] and is a directory. *)
Definition count_unix (l : list (string * fsnode)) : nat :=
  fold_left
    (fun count e =>
       if Py.in_list (fst e) UNIX_DIRS && isdir (snd e) then S count else count)
    l 0%nat.

(** The loop under [if recurse:]: the first subdirectory on which the
    recursive call reports a hit decides. *)
Fixpoint first_hit (rec : string -> fsnode -> option (bool * string))
    (path : string) (l : list (string * fsnode)) : option (option (bool * string)) :=
  match l with
  | [] => Some None
  | (name, sub) :: rest =>
      if isdir sub then
        match rec (Py.path_join path name) sub with
        | None => None
        | Some (true, p) => Some (Some (true, p))
        | Some (false, _) => first_hit rec path rest
        end
      else first_hit rec path rest
  end.

(** The body of [io_find_rootfs], with the recursive call as a parameter.
    [None] stands for the [OSError] of [os.listdir] on a path that is not
    a directory. *)
Definition find_rootfs_body (rec : string -> fsnode -> option (bool * string))
    (start : string) (t : fsnode) (recurse : bool) : option (bool * string) :=
  match t with
  | FsFile => None
  | FsDir _ =>
      let '(path, d) := collapse start t in
      if (UNIX_THRESHOLD <=? count_unix (entries d))%nat then Some (true, path)
      else if recurse then
        match first_hit rec path (entries d) with
        | None => None
        | Some (Some res) => Some res
        | Some None => Some (false, start)
        end
      else Some (false, start)
  end.

(** The recursive call always passes [recurse=False], so the recursion is
    one level deep: the inner call never calls again. *)
Definition io_find_rootfs_norecurse (start : string) (t : fsnode)
  : option (bool * string) :=
  find_rootfs_body (fun _ _ => None) start t false.

Definition io_find_rootfs (start : string) (t : fsnode) (recurse : bool)
  : option (bool * string) :=
  find_rootfs_body io_find_rootfs_norecurse start t recurse.

End Extractor.

(** [os.walk(top)] top-down: one [(root, files)] pair per directory,
    [files] being the names of the entries that are not directories.
    (The [dirs] component is never read by the extractor.)  A
    subdirectory is entered unless [os.path.islink] is true of its
    path: [followlinks] is left at [False]. *)
Definition file_names (l : list (string * fsnode)) : list string :=
  map fst (List.filter (fun e => negb (isdir (snd e))) l).

Fixpoint walk (islink : string -> bool) (root : string) (t : fsnode)
  : list (string * list string) :=
  match t with
  | FsFile => []
  | FsDir l =>
      (root, file_names l) ::
      (fix subdirs (l : list (string * fsnode)) : list (string * list string) :=
         match l with
         | [] => []
         | (name, sub) :: rest =>
             ((if islink (Py.path_join root name) then []
               else walk islink (Py.path_join root name) sub) ++ subdirs rest)%list
         end) l
  end.

(** [list.sort]: a stable insertion sort for a given order. *)
Fixpoint insert_sorted (le : string -> string -> bool) (x : string)
    (l : list string) : list string :=
  match l with
  | [] => [x]
  | y :: l' => if le y x then y :: insert_sorted le x l' else x :: l
  end.

Definition sort_by (le : string -> string -> bool) (l : list string) : list string :=
  fold_left (fun acc x => insert_sorted le x acc) l [].

(** [files.sort(); files.sort(key=len)]: the order of [str], then a
    stable sort by the number of code points, which is the number of
    characters of a model string. *)
Definition sort_files (files : list string) : list string :=
  sort_by (fun a b => (String.length a <=? String.length b)%nat)
          (sort_by String.leb files).

(** [files.remove(x)]: drops the first occurrence. *)
Fixpoint list_remove (x : string) (l : list string) : list string :=
  match l with
  | [] => []
  | y :: l' => if String.eqb x y then l' else y :: list_remove x l'
  end.

(* ===================================================================== *)
(** ** binwalkInterface.py: what a scan returns                           *)
(* ===================================================================== *)

Module Binwalk.

Record ExtractedFile : Type := mkExtractedFile {
  ef_size : Z;
  success : bool;
  extractor : string;
  outputDir : string
}.

(** [confidence], a float the extractor never reads, is left out. *)
Record DetectedFile : Type := mkDetectedFile {
  offset : Z;
  id : string;
  size : Z;
  description : string;
  extractionDetails : option ExtractedFile
}.

End Binwalk.

Definition headerSignatures : list string :=
  ["binhdr"; "chk"; "dlob"; "jboot_arm"; "jboot_sch2"; "jboot_stag"; "luks";
   "packimg"; "rtk"; "seama"; "tplink"].
Definition kernelSignatures : list string :=
  ["linux_arm64_boot_image"; "linux_boot_image"; "linux_kernel"; "wind_kernel"].
Definition rootfsSignatures : list string :=
  ["cramfs"; "ext"; "fat"; "jffs2"; "romfs"; "yaffs"; "apfs"; "squashfs"; "btrfs"].
Definition ubiSignatures : list string := ["ubi"; "ubifs"].
Definition compressedSignatures : list string :=
  ["zstd"; "zlib"; "xz"; "gzip"; "bzip2"; "lzop"; "lzma"; "lzfse"; "lz4"; "compressd"].
Definition archiveSignatures : list string :=
  ["zip"; "rar"; "tarball"; "cab"; "cpio"; "7zip"].

(* ===================================================================== *)
(** ** The environment, the shared state and the effect monad             *)
(* ===================================================================== *)

(** Python exceptions the extractor can meet; all derive from
    [Exception]. *)
Inductive exn : Type :=
| RuntimeError | ValueError | IndexError | OSError | MagicException
| OverflowError | UnicodeDecodeError | DockerException.

(** What the extractor observes of the outside world and cannot compute
    itself.  [None] means the call raises. *)
Record World : Type := mkWorld {
  (** [Extractor.io_md5]: [os.stat] and [open] raise [OSError]. *)
  w_md5 : string -> option string;
  (** [Extractor.magic(path, mime)]. *)
  w_magic : string -> bool -> option string;
  (** [os.path.getsize]. *)
  w_getsize : string -> Z;
  (** The first four bytes of a file, [open(path).read(4)]. *)
  w_header : string -> option string;
  (** [runBinwalk(path, extract, includeSignatures, outputDirectory)]:
      the list it returns, or the exception it raises ([RuntimeError]
      when the scanner fails, or what it lets through). *)
  w_scan : string -> bool -> list string -> string
           -> exn + list Binwalk.DetectedFile;
  (** The directory tree found at a path. *)
  w_tree : string -> fsnode;
  (** [os.path.islink]. *)
  w_islink : string -> bool;
  (** The names [tempfile.mkdtemp()] and [tempfile.mkstemp(dir)] hand
      out, numbered in the order of the calls. *)
  w_mkdtemp : nat -> string;
  w_mkstemp : nat -> option string -> string
}.

(** Effects on the outside world, newest first in the log. *)
Inductive event : Type :=
| EvScan (path : string) (extract : bool) (include : list string)
| EvItem (path : string) (depth : nat) (tag : string)
| EvCascade (path checksum : string)
| EvDd (src : string) (offset size : Z) (dst : string)
| EvCopy (src dst : string)
| EvArchive (base root_dir : string)
| EvDecrypt (src dst : string)
| EvTraceback (e : exn).

(** The [Extractor] object the items of one process share (no metadata
    sink: [server=None]), together with what the program reads of the
    machine: the regular files [os.path.isfile] is asked about (the
    input, and the two output paths of each item; these lie outside the
    directories [tempfile] makes, in which the carved ranges and the
    scanner's output are written and which [__del__] removes), the
    number of temp names handed out, and the log of the calls. *)
Record ExtractorState : Type := mkExtractor {
  output_dir : option string;
  do_kernel : bool;
  do_rootfs : bool;
  visited : gset string;
  fs_files : gset string;
  tmp_count : nat;
  log : list event
}.

Definition set_do_kernel (b : bool) (e : ExtractorState) : ExtractorState :=
  mkExtractor (output_dir e) b (do_rootfs e) (visited e) (fs_files e)
              (tmp_count e) (log e).
Definition set_do_rootfs (b : bool) (e : ExtractorState) : ExtractorState :=
  mkExtractor (output_dir e) (do_kernel e) b (visited e) (fs_files e)
              (tmp_count e) (log e).
Definition add_visited (c : string) (e : ExtractorState) : ExtractorState :=
  mkExtractor (output_dir e) (do_kernel e) (do_rootfs e) ({[c]} ∪ visited e)
              (fs_files e) (tmp_count e) (log e).
Definition add_file (p : string) (e : ExtractorState) : ExtractorState :=
  mkExtractor (output_dir e) (do_kernel e) (do_rootfs e) (visited e)
              ({[p]} ∪ fs_files e) (tmp_count e) (log e).
Definition bump_tmp (e : ExtractorState) : ExtractorState :=
  mkExtractor (output_dir e) (do_kernel e) (do_rootfs e) (visited e)
              (fs_files e) (S (tmp_count e)) (log e).
Definition add_event (ev : event) (e : ExtractorState) : ExtractorState :=
  mkExtractor (output_dir e) (do_kernel e) (do_rootfs e) (visited e)
              (fs_files e) (tmp_count e) (ev :: log e).

(** [os.path.isfile]. *)
Definition isfile (e : ExtractorState) (p : string) : bool :=
  bool_decide (p ∈ fs_files e).

(** The [ExtractionItem] object. *)
Record Item : Type := mkItem {
  item : string;
  depth : nat;
  checksum : string;
  tag : string;
  output : option string;
  temp : option string;
  terminate : bool;
  status : bool * bool
}.

Definition set_temp (t : option string) (i : Item) : Item :=
  mkItem (item i) (depth i) (checksum i) (tag i) (output i) t
         (terminate i) (status i).
Definition set_terminate (b : bool) (i : Item) : Item :=
  mkItem (item i) (depth i) (checksum i) (tag i) (output i) (temp i)
         b (status i).
Definition set_status (s : bool * bool) (i : Item) : Item :=
  mkItem (item i) (depth i) (checksum i) (tag i) (output i) (temp i)
         (terminate i) s.

(** The dictionary [extract()] returns. *)
Record Result : Type := mkResult {
  r_status : bool;
  r_tag : string;
  r_kernelDone : bool;
  r_rootfsDone : bool;
  r_kernelPath : option string;
  r_rootfsPath : option string
}.

(** A state and exception monad; [OutOfFuel] marks a recursion cut off
    by the fuel of [extract]. *)
Inductive Res (S A : Type) : Type :=
| Ok (a : A) (s : S)
| Raise (e : exn) (s : S)
| OutOfFuel.
Arguments Ok {S A} a s.
Arguments Raise {S A} e s.
Arguments OutOfFuel {S A}.

Definition M (S A : Type) : Type := S -> Res S A.

Definition ret {S A} (a : A) : M S A := fun s => Ok a s.

Definition bind {S A B} (m : M S A) (k : A -> M S B) : M S B :=
  fun s => match m s with
           | Ok a s' => k a s'
           | Raise e s' => Raise e s'
           | OutOfFuel => OutOfFuel
           end.

Definition raise {S A} (e : exn) : M S A := fun s => Raise e s.

Definition gets {S A} (f : S -> A) : M S A := fun s => Ok (f s) s.

Definition modify {S} (f : S -> S) : M S unit := fun s => Ok tt (f s).

(** [try: m  except Exception: h]. *)
Definition catch {S A} (m : M S A) (h : exn -> M S A) : M S A :=
  fun s => match m s with
           | Ok a s' => Ok a s'
           | Raise e s' => h e s'
           | OutOfFuel => OutOfFuel
           end.

Declare Scope py_scope.
Delimit Scope py_scope with py.
Notation "x <- m ;; k" := (bind m (fun x => k))
  (at level 100, m at next level, right associativity) : py_scope.
Notation "m ;; k" := (bind m (fun _ => k))
  (at level 100, right associativity) : py_scope.

(** The state a method of an item runs in: the item itself and the
    extractor it points to. *)
Record St : Type := mkSt { self : Item; ext : ExtractorState }.

Definition on_self (f : Item -> Item) (s : St) : St := mkSt (f (self s)) (ext s).
Definition on_ext (f : ExtractorState -> ExtractorState) (s : St) : St :=
  mkSt (self s) (f (ext s)).

Definition emit (ev : event) : M St unit := modify (on_ext (add_event ev)).

(** Python truthiness of an optional string: [None] and [''] are false. *)
Definition truthy (o : option string) : bool :=
  match o with
  | Some (String _ _) => true
  | _ => false
  end.

(** Results of pure helper loops that may raise. *)
Definition lift {S A} (r : exn + A) : M S A :=
  match r with
  | inl e => raise e
  | inr a => ret a
  end.

(** What an analysis stage hands back to the cascade: a [bool], or (for
    the uImage path of the firmware stage) the child's result [dict]. *)
Inductive pyval : Type :=
| VBool (b : bool)
| VDict (r : Result).

(** [if v:] — a non-empty [dict] is true. *)
Definition truth (v : pyval) : bool :=
  match v with
  | VBool b => b
  | VDict _ => true
  end.

(** A loop body either executes [return a] or falls through with the
    loop-carried value. *)
Inductive flow (A B : Type) : Type :=
| Return (a : A)
| Continue (b : B).
Arguments Return {A B} a.
Arguments Continue {A B} b.

(* ===================================================================== *)
(** ** class ExtractionItem                                               *)
(* ===================================================================== *)

Module ExtractionItem.

Local Open Scope py_scope.

Definition RECURSION_BREADTH : nat := 5.
Definition RECURSION_DEPTH : nat := 3.

Definition get_kernel_status (i : Item) : bool := fst (status i).
Definition get_rootfs_status (i : Item) : bool := snd (status i).

Definition get_status (i : Item) : bool :=
  if terminate i || (fst (status i) && snd (status i)) then true else false.

Definition get_kernel_path (i : Item) : option string :=
  match output i with
  | Some o => if truthy (Some o) then Some (o +:+ ".kernel") else None
  | None => None
  end.

Definition get_rootfs_path (i : Item) : option string :=
  match output i with
  | Some o => if truthy (Some o) then Some (o +:+ ".tar.gz") else None
  | None => None
  end.

(** The two flags [update_status] computes.  ([os.path.isfile] is only
    reached with a path, [self.output] being true in that branch.) *)
Definition isfile_opt (e : ExtractorState) (p : option string) : bool :=
  match p with
  | Some p => isfile e p
  | None => false
  end.

Definition status_flags (e : ExtractorState) (i : Item) : bool * bool :=
  let kernel_done :=
    if do_kernel e && truthy (output i)
    then isfile_opt e (get_kernel_path i) else negb (do_kernel e) in
  let rootfs_done :=
    if do_rootfs e && truthy (output i)
    then isfile_opt e (get_rootfs_path i) else negb (do_rootfs e) in
  (kernel_done, rootfs_done).

(** [update_status]; without a database the two [update_database] calls
    do nothing. *)
Definition update_status : M St bool :=
  s <- gets (fun s => s) ;;
  modify (on_self (set_status (status_flags (ext s) (self s)))) ;;
  gets (fun s => get_status (self s)).

(** [generate_tag] without a database. *)
Definition generate_tag (path sum : string) : string :=
  Py.basename path +:+ "_" +:+ sum.

Definition mk_result (st : bool) (i : Item) : Result :=
  mkResult st (tag i) (get_kernel_status i) (get_rootfs_status i)
           (get_kernel_path i) (get_rootfs_path i).

Section WithWorld.

Variable w : World.

(** [__init__]: [None] when [Extractor.io_md5] raises. *)
Definition init (e : ExtractorState) (path : string) (d : nat)
    (tg : option string) : option Item :=
  match w_md5 w path with
  | None => None
  | Some sum =>
      let tg' := match tg with
                 | Some t => if truthy (Some t) then t else generate_tag path sum
                 | None => generate_tag path sum
                 end in
      let out := match output_dir e with
                 | Some o => if truthy (Some o) then Some (Py.path_join o tg') else None
                 | None => None
                 end in
      let i0 := mkItem path d sum tg' out None false (false, false) in
      Some (set_status (status_flags e i0) i0)
  end.

(** [ExtractionItem(self.extractor, path, depth, tag)] from inside a
    method. *)
Definition new_item (path : string) (d : nat) (tg : option string) : M St Item :=
  e <- gets ext ;;
  match init e path d tg with
  | None => raise OSError
  | Some i => emit (EvItem path d (tag i)) ;; ret i
  end.

(** [child.extract()]: the callee runs with its own [self]; the caller's
    [self] is untouched, the extractor is shared. *)
Definition call_extract (rec : M St Result) (child : Item) : M St Result :=
  fun s => match rec (mkSt child (ext s)) with
           | Ok r s' => Ok r (mkSt (self s) (ext s'))
           | Raise e s' => Raise e (mkSt (self s) (ext s'))
           | OutOfFuel => OutOfFuel
           end.

Definition runBinwalk (path : string) (extract : bool) (include : list string)
    (outputDirectory : string) : M St (list Binwalk.DetectedFile) :=
  emit (EvScan path extract include) ;;
  match w_scan w path extract include outputDirectory with
  | inl e => raise e
  | inr l => ret l
  end.

(** [Extractor.io_dd]: nothing for a size of zero; otherwise
    [seek(offset, 0)] raises [ValueError] for an offset that does not fit
    a file offset (of 64 bits) and [OSError] for a negative one, and
    [read(size)] raises [OverflowError] for a size that does not fit an
    index and [ValueError] for one below -1.  A size of -1 reads up to the end of
    the file.  The log records the ranges that were copied. *)
Definition OFFSET_BOUND : Z := 2 ^ 63.

Definition io_dd (indir : string) (offset size : Z) (outdir : string) : M St unit :=
  if size =? 0 then ret tt
  else if (offset <? - OFFSET_BOUND) || (OFFSET_BOUND <=? offset) then raise ValueError
  else if offset <? 0 then raise OSError
  else if (size <? - OFFSET_BOUND) || (OFFSET_BOUND <=? size) then raise OverflowError
  else if size <? -1 then raise ValueError
  else emit (EvDd indir offset size outdir).

Definition mkdtemp : M St string :=
  n <- gets (fun s => tmp_count (ext s)) ;;
  modify (on_ext bump_tmp) ;;
  ret (w_mkdtemp w n).

(** [tempfile.mkstemp(dir=self.temp)]. *)
Definition mkstemp : M St string :=
  n <- gets (fun s => tmp_count (ext s)) ;;
  d <- gets (fun s => temp (self s)) ;;
  modify (on_ext bump_tmp) ;;
  ret (w_mkstemp w n d).

(** [str(self.temp)]. *)
Definition str_temp (i : Item) : string :=
  match temp i with
  | Some t => t
  | None => "None"
  end.

Definition magic (path : string) (mime : bool) : M St string :=
  match w_magic w path mime with
  | None => raise MagicException
  | Some t => ret t
  end.

(** [any(s in filetype for s in subs)]. *)
Definition any_in (subs : list string) (filetype : string) : bool :=
  existsb (fun s => Py.contains s filetype) subs.

Definition _check_blacklist : M St bool :=
  i <- gets self ;;
  filetype <- magic (item i) true ;;
  if any_in ["application/x-executable"; "application/x-dosexec";
             "application/x-object"; "application/pdf"; "application/msword";
             "image/"; "text/"; "video/"] filetype
  then ret true
  else
    filetype <- magic (item i) false ;;
    if any_in ["executable"; "universal binary"; "relocatable"; "bytecode";
               "applet"] filetype
    then ret true
    else if Py.endswith (item i) ".dmg" then ret true
    else ret false.

Definition find_rootfs (dir : string) : M St (bool * string) :=
  match Extractor.io_find_rootfs dir (w_tree w dir) true with
  | None => raise OSError
  | Some r => ret r
  end.

(** [shutil.copy(src, dst)]. *)
Definition shutil_copy (src dst : string) : M St unit :=
  emit (EvCopy src dst) ;; modify (on_ext (add_file dst)).

(** [shutil.make_archive(base, "gztar", root_dir)] writes
    [base + ".tar.gz"]. *)
Definition make_archive (base root_dir : string) : M St unit :=
  emit (EvArchive base root_dir) ;; modify (on_ext (add_file (base +:+ ".tar.gz"))).

(** The tail shared by [_check_rootfs] and [_check_recursive] once a
    UNIX tree is found. *)
Definition emit_rootfs (root_dir : string) : M St unit :=
  i <- gets self ;;
  match output i with
  | Some o => if truthy (Some o) then make_archive o root_dir
              else modify (on_ext (set_do_rootfs false))
  | None => modify (on_ext (set_do_rootfs false))
  end.

Definition _check_encryption : M St bool :=
  i <- gets self ;;
  match w_header w (item i) with
  | None => raise OSError
  | Some header =>
      if String.eqb header "SHRS" then
        emit (EvDecrypt (item i) (Py.path_join (str_temp i) "dlink_decrypt")) ;;
        ret true
      else ret false
  end.


(** *** Firmware headers *)

(** The loop setting [kernel_size] from the fragments that contain
    ["image size:"]: all digit characters of such a fragment, read in
    base 10; the last such fragment wins.  [int('')] raises. *)
Fixpoint image_size (stmts : list string) (kernel_size : Z) : exn + Z :=
  match stmts with
  | [] => inr kernel_size
  | stmt :: rest =>
      if Py.contains "image size:" stmt then
        match Py.int10 (Py.digits_of stmt) with
        | None => inl ValueError
        | Some n => image_size rest n
        end
      else image_size rest kernel_size
  end.

(** [int(stmt.split(':')[1], 16)]. *)
Definition hex_field (stmt : string) : exn + Z :=
  match nth_error (Py.split ":"%char stmt) 1 with
  | None => inl IndexError
  | Some v => match Py.int16 v with
              | None => inl ValueError
              | Some n => inr n
              end
  end.

(** The four values parsed from a TP-Link or TRX description, in the
    order kernel offset, kernel size, rootfs offset, rootfs size. *)
Fixpoint tplink_fields (stmts : list string) (acc : Z * Z * Z * Z)
  : exn + (Z * Z * Z * Z) :=
  match stmts with
  | [] => inr acc
  | stmt :: rest =>
      let '(kernel_offset, kernel_size, rootfs_offset, rootfs_size) := acc in
      if Py.contains "kernel offset:" stmt then
        match hex_field stmt with
        | inl e => inl e
        | inr v => tplink_fields rest (v, kernel_size, rootfs_offset, rootfs_size)
        end
      else if Py.contains "kernel length:" stmt then
        match hex_field stmt with
        | inl e => inl e
        | inr v => tplink_fields rest (kernel_offset, v, rootfs_offset, rootfs_size)
        end
      else if Py.contains "rootfs offset:" stmt then
        match hex_field stmt with
        | inl e => inl e
        | inr v => tplink_fields rest (kernel_offset, kernel_size, v, rootfs_size)
        end
      else if Py.contains "rootfs length:" stmt then
        match hex_field stmt with
        | inl e => inl e
        | inr v => tplink_fields rest (kernel_offset, kernel_size, rootfs_offset, v)
        end
      else tplink_fields rest acc
  end.

(** "compute sizes if only offsets provided". *)
Definition tplink_sizes (file_size : Z) (f : Z * Z * Z * Z) : Z * Z * Z * Z :=
  let '(kernel_offset, kernel_size, rootfs_offset, rootfs_size) := f in
  if negb (kernel_offset =? rootfs_size) && (kernel_size =? 0) && (rootfs_size =? 0)
  then (kernel_offset, rootfs_offset - kernel_offset,
        rootfs_offset, file_size - rootfs_offset)
  else f.

(** "ensure that computed values are sensible". *)
Definition tplink_sane (file_size : Z) (f : Z * Z * Z * Z) : bool :=
  let '(kernel_offset, kernel_size, rootfs_offset, rootfs_size) := f in
  ((0 <? kernel_size) && (kernel_offset + kernel_size <=? file_size)) &&
  (negb (rootfs_size =? 0) && (rootfs_offset + rootfs_size <=? file_size)).

(** Carve a range into a fresh temp file and extract it as a child at
    the same depth with the same tag. *)
Definition carve_child (rec : M St Result) (offset size : Z) : M St Result :=
  i <- gets self ;;
  tmp_path <- mkstemp ;;
  io_dd (item i) offset size tmp_path ;;
  child <- new_item tmp_path (depth i) (Some (tag i)) ;;
  call_extract rec child.

(** The [for entry in runBinwalk(...)] loop of [_check_firmware]. *)
Fixpoint firmware_entries (rec : M St Result)
    (entries : list Binwalk.DetectedFile) : M St pyval :=
  match entries with
  | [] => ret (VBool false)
  | entry :: rest =>
      let desc := Binwalk.description entry in
      i <- gets self ;;
      if Py.contains "uImage header" desc then
        if negb (get_kernel_status i) && Py.contains "OS Kernel Image" desc then
          let kernel_offset := Binwalk.offset entry + 64 in
          kernel_size <- lift (image_size (Py.split ","%char desc) 0) ;;
          if negb (kernel_size =? 0) &&
             (kernel_offset + kernel_size <=? w_getsize w (item i))
          then
            r <- carve_child rec kernel_offset kernel_size ;;
            ret (VDict r)
          else firmware_entries rec rest
        else firmware_entries rec rest
      else if negb (get_kernel_status i) && negb (get_rootfs_status i) &&
              Py.contains "rootfs offset: " desc &&
              Py.contains "kernel offset: " desc
      then
        f <- lift (tplink_fields (Py.split ","%char desc) (0, 0, 0, 0)) ;;
        let f' := tplink_sizes (w_getsize w (item i)) f in
        let '(kernel_offset, kernel_size, rootfs_offset, rootfs_size) := f' in
        if tplink_sane (w_getsize w (item i)) f' then
          carve_child rec kernel_offset kernel_size ;;
          carve_child rec rootfs_offset rootfs_size ;;
          b <- update_status ;;
          ret (VBool b)
        else firmware_entries rec rest
      else firmware_entries rec rest
  end.

Definition _check_firmware (rec : M St Result) : M St pyval :=
  i <- gets self ;;
  entries <- runBinwalk (item i) false headerSignatures EmptyString ;;
  firmware_entries rec entries.

(** *** Kernel *)

Definition _check_kernel : M St bool :=
  i <- gets self ;;
  if negb (get_kernel_status i) then
    entries <- runBinwalk (item i) false kernelSignatures EmptyString ;;
    match entries with
    | [] => ret false
    | entry :: _ =>
        let desc := Binwalk.description entry in
        if Py.contains "kernel version" desc || Py.contains "Linux version" desc
        then
          if Py.contains "Linux" desc then
            match get_kernel_path i with
            | Some kernel_path => shutil_copy (item i) kernel_path
            | None => modify (on_ext (set_do_kernel false))
            end ;;
            ret true
          else ret false
        else ret false
    end
  else ret false.

(** *** Root filesystem *)

Fixpoint rootfs_entries (entries : list Binwalk.DetectedFile) : M St bool :=
  match entries with
  | [] => ret false
  | entry :: rest =>
      match Binwalk.extractionDetails entry with
      | Some d =>
          if Binwalk.success d then
            unix <- find_rootfs (Binwalk.outputDir d) ;;
            if negb (fst unix) then ret false
            else emit_rootfs (snd unix) ;; ret true
          else rootfs_entries rest
      | None => rootfs_entries rest
      end
  end.

Definition _check_rootfs : M St bool :=
  i <- gets self ;;
  if negb (get_rootfs_status i) then
    entries <- runBinwalk (item i) true (ubiSignatures ++ rootfsSignatures)%list
                          (str_temp i) ;;
    rootfs_entries entries
  else ret false.

(** *** Archives and compressed data *)

(** The loop that looks for [original file name: "..."]: the text
    between the first two double quotes of the last such fragment. *)
Fixpoint original_name (stmts : list string) (orig : option string)
  : exn + option string :=
  match stmts with
  | [] => inr orig
  | stmt :: rest =>
      if Py.contains "original file name:" stmt then
        match nth_error (Py.split "034"%char stmt) 1 with
        | None => inl IndexError
        | Some o => original_name rest (Some o)
        end
      else original_name rest orig
  end.

(** The order in which the files of one directory are visited. *)
Definition order_files (desc : string) (files : list string) : exn + list string :=
  let files := sort_files files in
  if truthy (Some desc) && Py.contains "original file name:" desc then
    match original_name (Py.split ","%char desc) None with
    | inl e => inl e
    | inr orig =>
        match orig with
        | Some o =>
            if truthy orig && Py.in_list o files
            then inr (o :: list_remove o files) else inr files
        | None => inr files
        end
    end
  else inr files.

(** [for filename in files:] with the running [count]. *)
Fixpoint files_loop (rec : M St Result) (root : string) (files : list string)
    (count : nat) : M St (flow bool nat) :=
  match files with
  | [] => ret (Continue count)
  | filename :: rest =>
      if (RECURSION_BREADTH <? count)%nat then
        modify (on_self (set_terminate true)) ;;
        ret (Return true)
      else
        i <- gets self ;;
        new <- new_item (Py.path_join root filename) (depth i + 1) (Some (tag i)) ;;
        r <- call_extract rec new ;;
        complete <- (if r_status r then update_status else ret false) ;;
        if complete then ret (Return true)
        else files_loop rec root rest (S count)
  end.

(** [for root, _, files in os.walk(outputDir):]. *)
Fixpoint walk_loop (rec : M St Result) (desc : string)
    (dirs : list (string * list string)) (count : nat) : M St (flow bool nat) :=
  match dirs with
  | [] => ret (Continue count)
  | (root, files) :: rest =>
      files' <- lift (order_files desc files) ;;
      r <- files_loop rec root files' count ;;
      match r with
      | Return b => ret (Return b)
      | Continue count' => walk_loop rec desc rest count'
      end
  end.

(** [for entry in runBinwalk(...)] of [_check_recursive]. *)
Fixpoint recursive_entries (rec : M St Result)
    (entries : list Binwalk.DetectedFile) : M St bool :=
  match entries with
  | [] => ret false
  | entry :: rest =>
      let desc := Binwalk.description entry in
      match Binwalk.extractionDetails entry with
      | Some d =>
          if Binwalk.success d then
            unix <- find_rootfs (Binwalk.outputDir d) ;;
            if fst unix then emit_rootfs (snd unix) ;; ret true
            else
              r <- walk_loop rec desc
                     (walk (w_islink w) (Binwalk.outputDir d)
                           (w_tree w (Binwalk.outputDir d)))
                     0%nat ;;
              match r with
              | Return b => ret b
              | Continue _ => recursive_entries rec rest
              end
          else recursive_entries rec rest
      | None => recursive_entries rec rest
      end
  end.

Definition _check_recursive (rec : M St Result) (fmt : list string) : M St bool :=
  i <- gets self ;;
  entries <- runBinwalk (item i) true fmt (str_temp i) ;;
  recursive_entries rec entries.

Definition _check_archive (rec : M St Result) : M St bool :=
  _check_recursive rec archiveSignatures.

Definition _check_compressed (rec : M St Result) : M St bool :=
  _check_recursive rec compressedSignatures.

(** *** extract *)

Definition as_pyval (m : M St bool) : M St pyval :=
  b <- m ;; ret (VBool b).

(** The six analyses, in the order of the source. *)
Definition analyses (rec : M St Result) : list (M St pyval) :=
  [ as_pyval (_check_archive rec); as_pyval _check_encryption;
    _check_firmware rec; as_pyval _check_kernel; as_pyval _check_rootfs;
    as_pyval (_check_compressed rec) ].

(** [for analysis in [...]]: [Some] is the [return] from inside the
    loop, [None] is falling out of it. *)
Fixpoint run_analyses (l : list (M St pyval)) : M St (option Result) :=
  match l with
  | [] => ret None
  | analysis :: rest =>
      v <- analysis ;;
      if truth v then
        complete <- update_status ;;
        if complete then
          i <- gets self ;; ret (Some (mk_result true i))
        else run_analyses rest
      else run_analyses rest
  end.

(** The body of the [try] block: its first statement prints the tag,
    which the log records as [EvCascade]. *)
Definition try_body (rec : M St Result) : M St (option Result) :=
  i <- gets self ;;
  emit (EvCascade (item i) (checksum i)) ;;
  run_analyses (analyses rec).

(** [try: ... except Exception: traceback.print_exc()]. *)
Definition cascade (rec : M St Result) : M St (option Result) :=
  catch (try_body rec) (fun e => emit (EvTraceback e) ;; ret None).

(** What follows the visited check: the blacklist, the working
    directory, the cascade and the final [return]. *)
Definition after_visited (rec : M St Result) : M St Result :=
  blacklisted <- _check_blacklist ;;
  if blacklisted then
    i <- gets self ;; ret (mk_result (get_status i) i)
  else
    t <- mkdtemp ;;
    modify (on_self (set_temp (Some t))) ;;
    r <- cascade rec ;;
    match r with
    | Some res => ret res
    | None => i <- gets self ;; ret (mk_result false i)
    end.

(** "check if checksum is in visited set". *)
Definition visited_guard (rec : M St Result) : M St Result :=
  i <- gets self ;;
  e <- gets ext ;;
  if bool_decide (checksum i ∈ visited e) then ret (mk_result (get_status i) i)
  else
    modify (on_ext (add_visited (checksum i))) ;;
    after_visited rec.

(** One call of [extract()], the recursive calls being [rec]. *)
Definition extract_body (rec : M St Result) : M St Result :=
  i <- gets self ;;
  if get_status i then ret (mk_result true i)
  else if (RECURSION_DEPTH <? depth i)%nat then ret (mk_result (get_status i) i)
  else visited_guard rec.

Fixpoint extract (fuel : nat) : M St Result :=
  match fuel with
  | O => fun _ => OutOfFuel
  | S fuel' => extract_body (extract fuel')
  end.

End WithWorld.

End ExtractionItem.

(* ===================================================================== *)
(** ** The driver, [Extractor.extract]                                    *)
(* ===================================================================== *)

(** First the serial loop ([numproc=False]), then the worker pool.
    Creating the output directory is left out. *)

Module Driver.

Section WithWorld.

Variable w : World.
Variable fuel : nat.

(** [_extract_item]: [ExtractionItem(self, path, 0).extract()]. *)
Definition _extract_item (path : string) : M ExtractorState Result :=
  fun e =>
    match ExtractionItem.init w e path 0 None with
    | None => Raise OSError e
    | Some i =>
        match ExtractionItem.extract w fuel (mkSt i (add_event (EvItem path 0 (tag i)) e)) with
        | Ok r s => Ok r (ext s)
        | Raise x s => Raise x (ext s)
        | OutOfFuel => OutOfFuel
        end
    end.

(** [for item in self._list: results.append(self._extract_item(item))]. *)
Fixpoint extract_list (l : list string) (results : list Result)
  : M ExtractorState (list Result) :=
  match l with
  | [] => ret results
  | path :: rest =>
      bind (_extract_item path) (fun res => extract_list rest (results ++ [res])%list)
  end.

(** The paths collected into [self._list]. *)
Definition input_list (e : ExtractorState) (input : string) : list string :=
  if isdir (w_tree w input) then
    flat_map (fun '(path, files) => map (Py.path_join path) files)
             (walk (w_islink w) input (w_tree w input))
  else if isfile e input then [input]
  else [].

Definition extract (input : string) : M ExtractorState (list Result) :=
  fun e => extract_list (input_list e input) [] e.

(** *** [self._pool.map(self._extract_item, self._list)] *)

(** The default chunk size of [Pool.map]: the quotient of the length by
    four times the number of workers, rounded up. *)
Definition chunksize (len processes : nat) : nat :=
  let d := (processes * 4)%nat in
  if (len mod d =? 0)%nat then (len / d)%nat else S (len / d).

(** The batches [Pool.map] cuts the list into; [n] bounds their
    number. *)
Fixpoint batches (n size : nat) (l : list string) : list (list string) :=
  match n with
  | O => []
  | S n' =>
      match l with
      | [] => []
      | _ => firstn size l :: batches n' size (skipn size l)
      end
  end.

(** What a worker unpickles with a task: the attributes of the parent's
    extractor as [__getstate__] hands them over, [visited] included, as
    they were when [map] was called.  The disk, the temp names and the
    log are those of the machine. *)
Definition task_copy (parent machine : ExtractorState) : ExtractorState :=
  mkExtractor (output_dir parent) (do_kernel parent) (do_rootfs parent)
              (visited parent) (fs_files machine) (tmp_count machine)
              (log machine).

(** The tasks, taken one after another: one of the schedules of the
    pool (with several workers the effects of different tasks
    interleave).  A task runs its batch serially on its own copy of the
    extractor; what the copy holds at the end is dropped with it.  An
    exception in a task is raised by [map] in the parent. *)
Fixpoint run_tasks (parent : ExtractorState) (tasks : list (list string))
    (results : list Result) : M ExtractorState (list Result) :=
  match tasks with
  | [] => ret results
  | batch :: rest =>
      fun machine =>
        match extract_list batch [] (task_copy parent machine) with
        | Ok rs e1 => run_tasks parent rest (results ++ rs)%list (task_copy parent e1)
        | Raise x e1 => Raise x (task_copy parent e1)
        | OutOfFuel => OutOfFuel
        end
  end.

(** [Extractor.extract] with [numproc=True] and [processes] workers. *)
Definition extract_pool (processes : nat) (input : string)
  : M ExtractorState (list Result) :=
  fun e =>
    let l := input_list e input in
    run_tasks e (batches (List.length l) (chunksize (List.length l) processes) l)
              [] e.

End WithWorld.

End Driver.

(* ===================================================================== *)
(** ** binwalkInterface.py: running the scanner and reading its log       *)
(* ===================================================================== *)

(** The functions behind [runBinwalk].  The log is taken as [json.load]
    returns it for a document whose values have the JSON types binwalk
    writes, any key being possibly absent; documents with values of
    other types (where Python raises [TypeError] or [AttributeError])
    are not in this type. *)

Module BinwalkInterface.

(** [s[n:]]. *)
Fixpoint drop_chars (n : nat) (s : string) : string :=
  match n, s with
  | O, _ => s
  | S n', String _ rest => drop_chars n' rest
  | S _, EmptyString => EmptyString
  end.

(** [s.replace(old, new, 1)]: the first occurrence only. *)
Fixpoint replace_first (old new s : string) : string :=
  if String.prefix old s then new +:+ drop_chars (String.length old) s
  else match s with
       | EmptyString => EmptyString
       | String c rest => String c (replace_first old new rest)
       end.

(** [p[:p.rfind('/') + 1]]. *)
Fixpoint upto_last_slash (p : string) : string :=
  match p with
  | EmptyString => EmptyString
  | String c rest =>
      if Py.contains "/" rest || Ascii.eqb c "/"%char
      then String c (upto_last_slash rest) else EmptyString
  end.

(** [s.rstrip('/')]. *)
Fixpoint rstrip_slash (s : string) : string :=
  match s with
  | EmptyString => EmptyString
  | String c rest =>
      match rstrip_slash rest with
      | EmptyString => if Ascii.eqb c "/"%char then EmptyString
                       else String c EmptyString
      | r => String c r
      end
  end.

(** [os.path.dirname] (posixpath). *)
Definition dirname (p : string) : string :=
  let head := upto_last_slash p in
  if negb (String.eqb head EmptyString) &&
     negb (forallb (Ascii.eqb "/"%char) (list_ascii_of_string head))
  then rstrip_slash head else head.

(** One value of the ["extractions"] object, and one element of the
    ["file_map"] array; [None] is an absent key.  The value of
    ["confidence"] is never used, only its presence matters. *)
Record RawExtraction : Type := mkRawExtraction {
  x_size : option Z;
  x_success : option bool;
  x_extractor : option string;
  x_output_directory : option string
}.

Record RawFile : Type := mkRawFile {
  f_offset : option Z;
  f_id : option string;
  f_size : option Z;
  f_confidence : bool;
  f_description : option string
}.

(** The value of ["Analysis"]. *)
Record Analysis : Type := mkAnalysis {
  file_map : option (list RawFile);
  extractions : option (gmap string RawExtraction)
}.

(** What is found at the path of the log: no regular file, a file that
    the user may not read (the container writes it), a file whose bytes
    are not text in the encoding [open] reads with, a text that is not
    JSON, or an array of objects with or without an ["Analysis"] key. *)
Inductive LogFile : Type :=
| NoFile
| Unreadable
| NotText
| NotJson
| Json (logData : list (option Analysis)).

(** The body of the loop over ["file_map"]: [None] is the [KeyError]
    that the loop logs before it goes on with the next element. *)
Definition parse_file (extractedFiles : gmap string RawExtraction)
    (hostOut guestOut : string) (file : RawFile)
  : option Binwalk.DetectedFile :=
  offset ← f_offset file;
  id ← f_id file;
  size ← f_size file;
  _ ← (if f_confidence file then Some tt else None);
  description ← f_description file;
  match extractedFiles !! id with
  | Some extractedFile =>
      output_directory ← x_output_directory extractedFile;
      let realOutputDir := replace_first guestOut hostOut output_directory in
      x_sz ← x_size extractedFile;
      x_ok ← x_success extractedFile;
      x_ex ← x_extractor extractedFile;
      Some (Binwalk.mkDetectedFile offset id size description
              (Some (Binwalk.mkExtractedFile x_sz x_ok x_ex realOutputDir)))
  | None =>
      Some (Binwalk.mkDetectedFile offset id size description None)
  end.

(** Only [json.JSONDecodeError], [KeyError] and [IndexError] are turned
    into [RuntimeError]; the [OSError] of [open] and the
    [UnicodeDecodeError] of [json.load] on a file that is not text leave
    the function as they are. *)
Definition parseBinwalkLog (logFile : LogFile) (hostOut guestOut : string)
  : exn + list Binwalk.DetectedFile :=
  match logFile with
  | NoFile => inl RuntimeError
  | Unreadable => inl OSError
  | NotText => inl UnicodeDecodeError
  | NotJson => inl RuntimeError
  | Json [] => inl RuntimeError
  | Json (None :: _) => inl RuntimeError
  | Json (Some logData :: _) =>
      let extractedFiles := default ∅ (extractions logData) in
      inr (omap (parse_file extractedFiles hostOut guestOut)
                (default [] (file_map logData)))
  end.

(** The [volumes] dictionary: host directory to [(bind, mode)]. *)
Definition Volumes : Type := gmap string (string * string).

(** What [runBinwalk] does to the outside, in order. *)
Inductive action : Type :=
| Mkdtemp (dir : string)
| DockerRun (args : list string) (volumes : Volumes)
| CopyLog (src dst : string)
| Rmtree (dir : string).

(** [runBinwalk] returns a list, or raises: the [RuntimeError] it makes
    of a failure of the container, what [parseBinwalkLog] raises, or the
    exception of [docker.from_env()]. *)
Inductive outcome : Type :=
| Returned (detected : list Binwalk.DetectedFile)
| Raised (e : exn).

(** What the functions ask of the machine they run on. *)
Record Host : Type := mkHost {
  h_isfile : string -> bool;
  h_isdir : string -> bool;
  (** [os.access(path, os.W_OK | os.R_OK)]. *)
  h_access : string -> bool;
  h_abspath : string -> string;
  (** The directory [tempfile.mkdtemp()] makes. *)
  h_mkdtemp : string;
  (** Whether [docker.from_env()] returns. *)
  h_from_env : bool;
  (** Whether [client.containers.run] returns, and what is then found at
      a path. *)
  h_run : list string -> Volumes -> bool;
  h_log : list string -> Volumes -> string -> LogFile
}.

Section WithHost.

Variable h : Host.

Definition checkFile (filePath : string) : bool :=
  if negb (h_isfile h filePath) then false
  else if negb (h_access h (dirname (h_abspath h filePath))) then false
  else true.

Definition checkOutputDirectory (outputDirectory : string) : bool :=
  if negb (h_isdir h outputDirectory) then false
  else if negb (h_access h outputDirectory) then false
  else true.

Definition generateDockerArgs (filePath : string)
    (verbose extract recursive searchAll : bool)
    (excludeSignatures includeSignatures : list string)
    (outputDirectory : string)
  : list string * Volumes * string * (string * string) :=
  let fullPath := h_abspath h filePath in
  let inputDir := dirname fullPath in
  let fileName := Py.basename fullPath in
  let args := [Py.path_join "/input" fileName] in
  let args := (args ++ if verbose then ["-v"] else [])%list in
  let args := (args ++ if extract then ["-e"] else [])%list in
  let args := (args ++ if recursive then ["-r"] else [])%list in
  let args := (args ++ if searchAll then ["-a"] else [])%list in
  let args := (args ++ match excludeSignatures with
                       | [] => []
                       | _ => "--exclude" :: excludeSignatures
                       end)%list in
  let args := (args ++ match includeSignatures with
                       | [] => []
                       | _ => "--include" :: includeSignatures
                       end)%list in
  let args := (args ++ ["-l"; "/analysis/log.json"])%list in
  let logDir := h_mkdtemp h in
  let volumes : Volumes := <[logDir := ("/analysis", "rw")]> ∅ in
  let volumes := <[inputDir := ("/input", "rw")]> volumes in
  if negb (String.eqb outputDirectory EmptyString) then
    let outputDir := h_abspath h outputDirectory in
    (args ++ ["-C"; "/output"], <[outputDir := ("/output", "rw")]> volumes,
     logDir, (outputDir, "/output"))%list
  else
    (args ++ ["-C"; "/input/extractions"], volumes, logDir,
     (Py.path_join inputDir "extractions", "/input/extractions"))%list.

Definition runBinwalk (filePath : string)
    (verbose extract recursive searchAll : bool) (logFile : string)
    (excludeSignatures includeSignatures : list string)
    (outputDirectory : string) : outcome * list action :=
  if negb (checkFile filePath) then (Returned [], [])
  else if negb (String.eqb outputDirectory EmptyString) &&
          negb (checkOutputDirectory outputDirectory)
  then (Returned [], [])
  else
    let '(args, volumes, logDir, (hostOut, guestOut)) :=
      generateDockerArgs filePath verbose extract recursive searchAll
        excludeSignatures includeSignatures outputDirectory in
    if negb (h_from_env h) then (Raised DockerException, [Mkdtemp logDir])
    else if negb (h_run h args volumes)
    then (Raised RuntimeError, [Mkdtemp logDir; DockerRun args volumes])
    else
      let logFilePath := Py.path_join logDir "log.json" in
      match parseBinwalkLog (h_log h args volumes logFilePath) hostOut guestOut with
      | inl e => (Raised e, [Mkdtemp logDir; DockerRun args volumes])
      | inr logData =>
          (Returned logData,
           [Mkdtemp logDir; DockerRun args volumes] ++
           (if truthy (Some logFile) then [CopyLog logFilePath logFile] else []) ++
           [Rmtree logDir])%list
      end.

End WithHost.

End BinwalkInterface.

(* ===================================================================== *)
(** ** Notions used to state the properties                               *)
(* ===================================================================== *)

(** A directory whose listing is one entry that is itself a directory. *)
Definition single_dir (t : fsnode) : Prop :=
  exists name l, t = FsDir [(name, FsDir l)].

(** The single-child chain from [(path, t)] ends at [(path', t')]. *)
Inductive collapses : string -> fsnode -> string -> fsnode -> Prop :=
| collapses_stop path t :
    ~ single_dir t -> collapses path t path t
| collapses_step path name l path' t' :
    collapses (Py.path_join path name) (FsDir l) path' t' ->
    collapses path (FsDir [(name, FsDir l)]) path' t'.

(** The immediate subdirectories with a canonical UNIX name. *)
Definition unix_subdirs (t : fsnode) : list (string * fsnode) :=
  List.filter
    (fun e => Py.in_list (fst e) Extractor.UNIX_DIRS && isdir (snd e))
    (entries t).

(** Whether the search without recursion succeeds in a subdirectory. *)
Definition hit_in (path : string) (e : string * fsnode) : bool :=
  isdir (snd e) &&
  match Extractor.io_find_rootfs (Py.path_join path (fst e)) (snd e) false with
  | Some (true, _) => true
  | _ => false
  end.

(** Names a directory listing can hold: not empty, not starting with a
    slash. *)
Definition valid_name (n : string) : bool :=
  match n with
  | EmptyString => false
  | String c _ => negb (Ascii.eqb c "/"%char)
  end.

Inductive wf_names : fsnode -> Prop :=
| wf_file : wf_names FsFile
| wf_dir l :
    Forall (fun e => valid_name (fst e) = true /\ wf_names (snd e)) l ->
    wf_names (FsDir l).

(** The checksums of the items that entered their cascade. *)
Definition cascade_sums (l : list event) : list string :=
  flat_map (fun ev => match ev with EvCascade _ c => [c] | _ => [] end) l.

(** No checksum entered a cascade twice, and each one that did is in the
    visited set. *)
Definition dedup_inv (e : ExtractorState) : Prop :=
  List.NoDup (cascade_sums (log e)) /\
  forall c, List.In c (cascade_sums (log e)) -> c ∈ visited e.

(** How the extractor state may change while items run: the log and the
    visited set only grow, and [dedup_inv] is kept. *)
Record evolves (e e' : ExtractorState) : Prop := mkEvolves {
  ev_log : exists new, log e' = (new ++ log e)%list;
  ev_visited : visited e ⊆ visited e';
  ev_inv : dedup_inv e -> dedup_inv e'
}.

(** The state a computation ends in, when it ends. *)
Definition final_state {S A} (r : Res S A) : option S :=
  match r with
  | Ok _ s => Some s
  | Raise _ s => Some s
  | OutOfFuel => None
  end.

Definition is_scan (ev : event) : bool :=
  match ev with EvScan _ _ _ => true | _ => false end.

Definition is_child_of (d : nat) (ev : event) : bool :=
  match ev with EvItem _ d' _ => Nat.eqb d' (S d) | _ => false end.

(** A program logic for the methods of an item.  [triple_in Phi V m Q]:
    started in a state whose visited set contains [V], [m] ends (normally
    with a value satisfying [Q], or by raising) in an evolved state;
    running out of fuel is allowed only if [Phi] holds, so [Phi := False]
    makes the triple a statement of termination. *)
Definition post_in (Phi : Prop) {A} (Q : A -> Prop) (s : St) (r : Res St A)
  : Prop :=
  match r with
  | Ok a s' => Q a /\ evolves (ext s) (ext s')
  | Raise _ s' => evolves (ext s) (ext s')
  | OutOfFuel => Phi
  end.

Definition triple_in (Phi : Prop) (V : gset string) {A} (m : M St A)
    (Q : A -> Prop) : Prop :=
  forall s, V ⊆ visited (ext s) -> post_in Phi Q s (m s).

(** What a triple needs of the recursive call: it behaves on every
    item whose checksum the world can produce. *)
Definition rec_ok_in (Phi : Prop) (V : gset string) (InU : string -> Prop)
    (rec : M St Result) : Prop :=
  forall s, V ⊆ visited (ext s) -> InU (checksum (self s)) ->
            post_in Phi (fun _ => True) s (rec s).

Definition any {A} : A -> Prop := fun _ => True.

(** What [__init__] reads of the extractor. *)
Definition same_config (e1 e2 : ExtractorState) : Prop :=
  output_dir e1 = output_dir e2 /\ do_kernel e1 = do_kernel e2 /\
  do_rootfs e1 = do_rootfs e2 /\ fs_files e1 = fs_files e2.

(** A child extraction that never completes the item and does nothing
    else; it isolates the loop over the files of a directory. *)
Definition never_complete : M St Result :=
  fun s => Ok (ExtractionItem.mk_result false (self s)) s.

(** The number of child items created below depth [d] that a log
    records. *)
Definition children_of (d : nat) (l : list event) : nat :=
  List.length (List.filter (is_child_of d) l).

(* ===================================================================== *)
(** ** What one call of [extract()] may do to the state                   *)
(* ===================================================================== *)

(** The attributes of an item that [__init__] sets and no method assigns
    again. *)
Definition same_id (i j : Item) : Prop :=
  item i = item j /\ depth i = depth j /\ checksum i = checksum j /\
  tag i = tag j /\ output i = output j.

(** The events that may be logged at any point: all but the creation of
    an item, the carving of a range, and the two writes to the output
    directory. *)
Definition quiet_event (ev : event) : bool :=
  match ev with
  | EvItem _ _ _ | EvDd _ _ _ _ | EvCopy _ _ | EvArchive _ _ => false
  | _ => true
  end.

(** The steps a method of an item takes, each with the condition under
    which the source takes it: a range is carved from the item's own
    file, starts at an offset that is not negative, has a size that is
    positive or -1, and passed the caller's check against the size of the
    file; [shutil.copy] copies the item's own file to its kernel path
    and [shutil.make_archive] writes under its output prefix; a global
    flag is cleared only when the item has no output path; and a child
    is constructed (with the parent's tag, at the parent's depth or one
    below) only by an item within the depth bound; the child then runs
    with the shared extractor. *)
Inductive run (w : World) : St -> St -> Prop :=
| run_refl s : run w s s
| run_trans s1 s2 s3 : run w s1 s2 -> run w s2 s3 -> run w s1 s3
| run_log s ev :
    quiet_event ev = true -> run w s (on_ext (add_event ev) s)
| run_dd s offset size dst :
    size <> 0 -> 0 <= offset -> -1 <= size ->
    offset + size <= w_getsize w (item (self s)) ->
    run w s (on_ext (add_event (EvDd (item (self s)) offset size dst)) s)
| run_visit s : run w s (on_ext (add_visited (checksum (self s))) s)
| run_tmp s : run w s (on_ext bump_tmp s)
| run_copy s p :
    ExtractionItem.get_kernel_path (self s) = Some p ->
    run w s (on_ext (add_file p)
               (on_ext (add_event (EvCopy (item (self s)) p)) s))
| run_archive s o root_dir :
    output (self s) = Some o -> truthy (Some o) = true ->
    run w s (on_ext (add_file (o +:+ ".tar.gz"))
               (on_ext (add_event (EvArchive o root_dir)) s))
| run_no_kernel s :
    ExtractionItem.get_kernel_path (self s) = None ->
    run w s (on_ext (set_do_kernel false) s)
| run_no_rootfs s :
    truthy (output (self s)) = false ->
    run w s (on_ext (set_do_rootfs false) s)
| run_temp s t : run w s (on_self (set_temp t) s)
| run_terminate s : run w s (on_self (set_terminate true) s)
| run_status s :
    run w s (on_self (set_status (ExtractionItem.status_flags (ext s) (self s))) s)
| run_child s path d child s' :
    (depth (self s) <= ExtractionItem.RECURSION_DEPTH)%nat ->
    d = depth (self s) \/ d = (depth (self s) + 1)%nat ->
    ExtractionItem.init w (ext s) path d (Some (tag (self s))) = Some child ->
    run w (mkSt child (add_event (EvItem path d (tag child)) (ext s))) s' ->
    run w s (mkSt (self s) (ext s')).

(** [runs_in w i0 m Q]: run by the item [i0], the method [m] ends
    (normally with a value satisfying [Q], or by raising) in a state
    reached by such steps. *)
Definition runs_in (w : World) (i0 : Item) {A} (m : M St A) (Q : A -> Prop)
  : Prop :=
  forall s, same_id i0 (self s) ->
    match m s with
    | Ok a s' => Q a /\ run w s s'
    | Raise _ s' => run w s s'
    | OutOfFuel => True
    end.

Definition rec_runs (w : World) (rec : M St Result) : Prop :=
  forall s, match rec s with
            | Ok _ s' => run w s s'
            | Raise _ s' => run w s s'
            | OutOfFuel => True
            end.

(** [self.output] as [__init__] computes it from the output directory
    and the tag. *)
Definition output_of (e : ExtractorState) (tg : string) : option string :=
  match output_dir e with
  | Some o => if truthy (Some o) then Some (Py.path_join o tg) else None
  | None => None
  end.

(** An item as [__init__] leaves it: a tag that is not empty, and the
    output prefix that belongs to it. *)
Definition wf_item (e : ExtractorState) (i : Item) : Prop :=
  truthy (Some (tag i)) = true /\ output i = output_of e (tag i).

(** The two files an item may write. *)
Definition outputs_of (i : Item) : gset string :=
  match output i with
  | Some o => if truthy (Some o)
              then {[o +:+ ".kernel"]} ∪ {[o +:+ ".tar.gz"]} else ∅
  | None => ∅
  end.

(** How the extractor's files and flags may change: files are only
    added, a flag that is off stays off. *)
Definition ext_le (e e' : ExtractorState) : Prop :=
  fs_files e ⊆ fs_files e' /\
  (do_kernel e' = true -> do_kernel e = true) /\
  (do_rootfs e' = true -> do_rootfs e = true).

(** Pointwise implication on the two status flags. *)
Definition status_le (a b : bool * bool) : Prop :=
  (fst a = true -> fst b = true) /\ (snd a = true -> snd b = true).

(** The status an item holds is justified by the files and flags of the
    extractor. *)
Definition status_sound (s : St) : Prop :=
  status_le (status (self s)) (ExtractionItem.status_flags (ext s) (self s)).

(** What the log may record of the items created under an item with tag
    [tg] at depth [d]. *)
Definition child_event_ok (tg : string) (d : nat) (ev : event) : Prop :=
  match ev with
  | EvItem _ d' t =>
      t = tg /\ (d <= d')%nat /\ (d' <= ExtractionItem.RECURSION_DEPTH + 1)%nat
  | _ => True
  end.

(** The paths of the items a log records as created. *)
Definition created (l : list event) : list string :=
  flat_map (fun ev => match ev with EvItem p _ _ => [p] | _ => [] end) l.

(** What the log may record of a carved range: it is read from the file
    of an item of the run (one of [items]), from an offset that is not
    negative; it has a positive size and ends within that file, or it
    has size -1 (up to the end of the file) and passed the same check. *)
Definition dd_event_ok (w : World) (items : list string) (ev : event) : Prop :=
  match ev with
  | EvDd src offset size _ =>
      List.In src items /\ 0 <= offset /\ (0 < size \/ size = -1) /\
      offset + size <= w_getsize w src
  | _ => True
  end.

(** What the log may record of the writes to the output directory made
    under an item with output prefix [out]: [shutil.copy] to
    [out + ".kernel"], of the whole file of an item of the run, and
    [shutil.make_archive] with base name [out]. *)
Definition write_event_ok (out : option string) (items : list string)
    (ev : event) : Prop :=
  match ev with
  | EvCopy src dst =>
      List.In src items /\
      exists o, out = Some o /\ truthy (Some o) = true /\ dst = o +:+ ".kernel"
  | EvArchive base _ => out = Some base /\ truthy (Some base) = true
  | _ => True
  end.

(** The two calls that write to the output directory. *)
Definition is_write (ev : event) : bool :=
  match ev with EvCopy _ _ | EvArchive _ _ => true | _ => false end.

(** A write that targets the output of the tag [tg] under the output
    directory [o]. *)
Definition names_output (o tg : string) (ev : event) : Prop :=
  match ev with
  | EvCopy _ dst => dst = Py.path_join o tg +:+ ".kernel"
  | EvArchive base _ => base = Py.path_join o tg
  | _ => False
  end.

(** What the log of a driver run over [inputs] may record of a write:
    it targets the output of the tag [<basename>_<md5>] of one of the
    inputs. *)
Definition driver_write_ok (w : World) (out : option string)
    (inputs : list string) (ev : event) : Prop :=
  is_write ev = true ->
  exists q sum o,
    List.In q inputs /\ w_md5 w q = Some sum /\ out = Some o /\
    truthy (Some o) = true /\
    names_output o (ExtractionItem.generate_tag q sum) ev.

(* ===================================================================== *)
(** ** The order in which unpacked files are visited                      *)
(* ===================================================================== *)

(** Shorter names first; names of the same length in ascending
    alphabetical order. *)
Definition name_le (a b : string) : bool :=
  (String.length a <? String.length b)%nat ||
  ((String.length a =? String.length b)%nat && String.leb a b).

Definition len_le (a b : string) : bool :=
  (String.length a <=? String.length b)%nat.

(** The order a stable sort by [le] yields on a list that was in the
    order [R]: [le] decides, and [R] is kept among elements that [le]
    does not tell apart. *)
Definition stable_le (le : string -> string -> bool)
    (R : string -> string -> Prop) (a b : string) : Prop :=
  le a b = true /\ (le b a = true -> R a b).


(** The number of files in the directories of a walk. *)
Definition total_files (dirs : list (string * list string)) : nat :=
  List.length (concat (map snd dirs)).

(** An element of ["file_map"] that has the five keys the parser reads
    and, when its id is a key of ["extractions"], an extraction record
    with its four keys. *)
Definition complete_entry (extractedFiles : gmap string BinwalkInterface.RawExtraction)
    (file : BinwalkInterface.RawFile) : bool :=
  match BinwalkInterface.f_offset file, BinwalkInterface.f_id file,
        BinwalkInterface.f_size file, BinwalkInterface.f_description file with
  | Some _, Some id, Some _, Some _ =>
      BinwalkInterface.f_confidence file &&
      match extractedFiles !! id with
      | Some x =>
          match BinwalkInterface.x_size x, BinwalkInterface.x_success x,
                BinwalkInterface.x_extractor x,
                BinwalkInterface.x_output_directory x with
          | Some _, Some _, Some _, Some _ => true
          | _, _, _, _ => false
          end
      | None => true
      end
  | _, _, _, _ => false
  end.

(** The object the parser builds for a complete element. *)
Definition parsed_from (extractedFiles : gmap string BinwalkInterface.RawExtraction)
    (hostOut guestOut : string) (file : BinwalkInterface.RawFile)
    (d : Binwalk.DetectedFile) : Prop :=
  BinwalkInterface.f_offset file = Some (Binwalk.offset d) /\
  BinwalkInterface.f_id file = Some (Binwalk.id d) /\
  BinwalkInterface.f_size file = Some (Binwalk.size d) /\
  BinwalkInterface.f_description file = Some (Binwalk.description d) /\
  match extractedFiles !! Binwalk.id d with
  | None => Binwalk.extractionDetails d = None
  | Some x =>
      exists details guest_dir,
        Binwalk.extractionDetails d = Some details /\
        BinwalkInterface.x_size x = Some (Binwalk.ef_size details) /\
        BinwalkInterface.x_success x = Some (Binwalk.success details) /\
        BinwalkInterface.x_extractor x = Some (Binwalk.extractor details) /\
        BinwalkInterface.x_output_directory x = Some guest_dir /\
        Binwalk.outputDir details
        = BinwalkInterface.replace_first guestOut hostOut guest_dir
  end.

Definition is_rmtree (a : BinwalkInterface.action) : bool :=
  match a with BinwalkInterface.Rmtree _ => true | _ => false end.

Definition is_docker_run (a : BinwalkInterface.action) : bool :=
  match a with BinwalkInterface.DockerRun _ _ => true | _ => false end.

(** A flag of a returned record read against the extractor [e]: when it
    is set, the global flag is off or the file is there. *)
Definition backed_by (e : ExtractorState) (flag done : bool)
    (path : option string) : Prop :=
  done = true -> flag = false \/ exists p, path = Some p /\ p ∈ fs_files e.

(** The record the driver holds for the input [q]. *)
Definition result_of_input (w : World) (e : ExtractorState) (q : string)
    (r : Result) : Prop :=
  exists sum, w_md5 w q = Some sum /\
    r_tag r = ExtractionItem.generate_tag q sum /\
    backed_by e (do_kernel e) (r_kernelDone r) (r_kernelPath r) /\
    backed_by e (do_rootfs e) (r_rootfsDone r) (r_rootfsPath r).

(** The paths built from a walk: [os.path.join(path, item)] for each
    [item] of each [(path, files)]. *)
Definition joined (dirs : list (string * list string)) : list string :=
  flat_map (fun '(path, files) => map (Py.path_join path) files) dirs.

(** The walks of the entries of a directory, in listing order. *)
Definition walk_below (islink : string -> bool) (root : string)
    (l : list (string * fsnode)) : list (string * list string) :=
  flat_map (fun e => if islink (Py.path_join root (fst e)) then []
                     else walk islink (Py.path_join root (fst e)) (snd e)) l.

(** [file_at islink root t p]: [p] is the joined path of an entry that
    is not a directory, below the directory [t] found at [root] and
    reached from it through subdirectories that are not symbolic
    links. *)
Inductive file_at (islink : string -> bool) : string -> fsnode -> string -> Prop :=
| file_here root l name :
    List.In (name, FsFile) l ->
    file_at islink root (FsDir l) (Py.path_join root name)
| file_below root l name sub p :
    List.In (name, sub) l -> islink (Py.path_join root name) = false ->
    file_at islink (Py.path_join root name) sub p ->
    file_at islink root (FsDir l) p.

(** The number of such entries, an entry counted once for each place it
    has in a listing. *)
Fixpoint count_files (islink : string -> bool) (root : string) (t : fsnode)
  : nat :=
  match t with
  | FsFile => 1%nat
  | FsDir l =>
      (fix below (l : list (string * fsnode)) : nat :=
         match l with
         | [] => 0%nat
         | (name, sub) :: rest =>
             ((if isdir sub && islink (Py.path_join root name) then 0
               else count_files islink (Py.path_join root name) sub)
              + below rest)%nat
         end) l
  end.

(** [dir_at root t p d]: below the tree [t] found at [root], the joined
    path [p] leads to [d] ([root] itself included). *)
Inductive dir_at : string -> fsnode -> string -> fsnode -> Prop :=
| dir_here root t : dir_at root t root t
| dir_below root l name sub p d :
    List.In (name, sub) l -> dir_at (Py.path_join root name) sub p d ->
    dir_at root (FsDir l) p d.

(* ===================================================================== *)
(** ** Concrete worlds                                                    *)
(* ===================================================================== *)

Module Examples.

(** Temporary names: [/tmp/tmp0], [/tmp/tmp1], ... *)
Definition tmp_name (n : nat) : string :=
  "/tmp/tmp" +:+ String (ascii_of_nat (48 + n)) EmptyString.

(** A world with one firmware file, [/in/fw.bin], of opaque binary
    content; every other file is plain text.  Scans find nothing. *)
Definition firmware : string := "/in/fw.bin".

Definition plain : World := {|
  w_md5 := fun p => Some ("md5:" +:+ p);
  w_magic := fun p mime =>
    if String.eqb p firmware
    then Some (if mime then "application/octet-stream" else "data")
    else Some (if mime then "text/plain" else "ASCII text");
  w_getsize := fun _ => 512;
  w_header := fun _ => Some "data";
  w_scan := fun _ _ _ _ => inr [];
  w_tree := fun _ => FsFile;
  w_islink := fun _ => false;
  w_mkdtemp := tmp_name;
  w_mkstemp := fun n _ => tmp_name n
|}.

(** The same world with a given answer to the scans of the firmware
    file for one signature family. *)
Definition with_scan (include : list string)
    (found : list Binwalk.DetectedFile) (w : World) : World := {|
  w_md5 := w_md5 w;
  w_magic := w_magic w;
  w_getsize := w_getsize w;
  w_header := w_header w;
  w_scan := fun p ex inc out =>
    if String.eqb p firmware && forallb (fun s => Py.in_list s include) inc
    then inr found else w_scan w p ex inc out;
  w_tree := w_tree w;
  w_islink := w_islink w;
  w_mkdtemp := w_mkdtemp w;
  w_mkstemp := w_mkstemp w
|}.

Definition with_tree (dir : string) (t : fsnode) (w : World) : World := {|
  w_md5 := w_md5 w;
  w_magic := w_magic w;
  w_getsize := w_getsize w;
  w_header := w_header w;
  w_scan := w_scan w;
  w_tree := fun p => if String.eqb p dir then t else w_tree w p;
  w_islink := w_islink w;
  w_mkdtemp := w_mkdtemp w;
  w_mkstemp := w_mkstemp w
|}.

(** A zip archive that unpacks into the directory tree [t]. *)
Definition unpacked : string := "/tmp/tmp0/fw.bin.extracted".

Definition zip_entry : Binwalk.DetectedFile :=
  Binwalk.mkDetectedFile 0 "zip-0" 512 "ZIP archive"
    (Some (Binwalk.mkExtractedFile 512 true "unzip" unpacked)).

Definition archive_of (t : fsnode) : World :=
  with_tree unpacked t (with_scan archiveSignatures [zip_entry] plain).

Definition flat_dir (names : list string) : fsnode :=
  FsDir (map (fun n => (n, FsFile)) names).

(** A fresh extractor writing to [/out]. *)
Definition fresh : ExtractorState :=
  mkExtractor (Some "/out") true true ∅ {[firmware]} 0 [].

(** An extractor started again on an output directory that already
    holds the kernel and the root file system of the firmware file. *)
Definition rerun : ExtractorState :=
  mkExtractor (Some "/out") true true ∅
    ({[firmware]} ∪ {["/out/fw.bin_md5:/in/fw.bin.kernel"]}
                  ∪ {["/out/fw.bin_md5:/in/fw.bin.tar.gz"]}) 0 [].

(** The top-level item of the firmware file. *)
Definition top (w : World) (e : ExtractorState) : Item :=
  match ExtractionItem.init w e firmware 0 None with
  | Some i => i
  | None => mkItem firmware 0 EmptyString EmptyString None None false (false, false)
  end.


Definition run (w : World) (fuel : nat) : Res St Result :=
  ExtractionItem.extract w fuel (mkSt (top w fresh) fresh).

(** The number of children created at depth 1 during a run. *)
Definition children (r : Res St Result) : option nat :=
  match final_state r with
  | Some s => Some (List.length (List.filter (is_child_of 0) (log (ext s))))
  | None => None
  end.

Definition terminated (r : Res St Result) : option bool :=
  match final_state r with
  | Some s => Some (terminate (self s))
  | None => None
  end.

Definition returned (r : Res St Result) : option Result :=
  match r with
  | Ok res _ => Some res
  | _ => None
  end.

(** A directory that looks like the root of a UNIX file system. *)
Definition rootfs_tree : fsnode :=
  FsDir [("bin", FsDir []); ("etc", FsDir []); ("lib", FsDir []);
         ("usr", FsDir []); ("README", FsFile)].

(** An item that has hit the breadth cap, with nothing extracted. *)
Definition capped_item : Item :=
  mkItem firmware 0 "md5:/in/fw.bin" "fw.bin_md5:/in/fw.bin"
         (Some "/out/fw.bin_md5:/in/fw.bin") (Some "/tmp/tmp0") true
         (false, false).

Definition six : list string := ["a"; "b"; "c"; "d"; "e"; "f"].
Definition seven : list string := ["a"; "b"; "c"; "d"; "e"; "f"; "g"].

(** A TP-Link header whose kernel starts at offset zero. *)
Definition tplink_entry : Binwalk.DetectedFile :=
  Binwalk.mkDetectedFile 0 "tplink-0" 512
    "TP-Link firmware header, kernel offset: 0x0, rootfs offset: 0x100" None.

(** A uImage header announcing a 100-byte kernel. *)
Definition uimage_entry : Binwalk.DetectedFile :=
  Binwalk.mkDetectedFile 16 "uimage-0" 164
    "uImage header, header size: 64 bytes, image size: 100 bytes, image type: OS Kernel Image"
    None.

Definition uimage_world : World :=
  with_scan headerSignatures [uimage_entry] plain.

(** A Linux kernel, followed by an artifact that is never looked at. *)
Definition linux_entry : Binwalk.DetectedFile :=
  Binwalk.mkDetectedFile 0 "kernel-0" 512 "Linux kernel version 2.6.31" None.

Definition vxworks_entry : Binwalk.DetectedFile :=
  Binwalk.mkDetectedFile 0 "kernel-1" 512 "VxWorks kernel version 5.5" None.




(** A world in which the scanner fails: [runBinwalk] raises. *)
Definition scanner_fails : World := {|
  w_md5 := fun p => Some (if String.eqb p firmware then "md5:fw" else "md5:other");
  w_magic := w_magic plain;
  w_getsize := w_getsize plain;
  w_header := w_header plain;
  w_scan := fun _ _ _ _ => inl RuntimeError;
  w_tree := w_tree plain;
  w_islink := w_islink plain;
  w_mkdtemp := w_mkdtemp plain;
  w_mkstemp := w_mkstemp plain
|}.

End Examples.

(** Further worlds, used to instantiate the properties of whole runs. *)
Module Scenarios.

(** The firmware file is a Linux kernel. *)
Definition kernel_world : World :=
  Examples.with_scan kernelSignatures [Examples.linux_entry] Examples.plain.

(** The firmware file is a squashfs image that unpacks into a UNIX
    tree. *)
Definition squashfs_entry : Binwalk.DetectedFile :=
  Binwalk.mkDetectedFile 0 "squashfs-0" 512 "SquashFS file system"
    (Some (Binwalk.mkExtractedFile 512 true "unsquashfs" "/tmp/tmp0/fs")).

Definition rootfs_world : World :=
  Examples.with_tree "/tmp/tmp0/fs" Examples.rootfs_tree
    (Examples.with_scan (ubiSignatures ++ rootfsSignatures)%list
       [squashfs_entry] Examples.plain).

(** A TP-Link header that gives both offsets and both lengths. *)
Definition tplink_full_entry : Binwalk.DetectedFile :=
  Binwalk.mkDetectedFile 0 "tplink-0" 512
    "TP-Link firmware header, kernel offset: 0x40, kernel length: 0x80, rootfs offset: 0x100, rootfs length: 0x100"
    None.

Definition tplink_world : World :=
  Examples.with_scan headerSignatures [tplink_full_entry] Examples.plain.

(** An extractor without an output directory. *)
(** The description of a gzip member that names its original file. *)
Definition gzip_desc : string :=
  "gzip compressed data, original file name: " +:+
  String "034"%char ("b" +:+ String "034"%char ", operating system: Unix").

Definition no_output : ExtractorState :=
  mkExtractor None true true ∅ {[Examples.firmware]} 0 [].

Definition start (w : World) (e : ExtractorState) : St :=
  mkSt (Examples.top w e) e.

End Scenarios.

(** A host on which the scanner runs and leaves a log with three
    entries: one that was unpacked, one without a description, and one
    that was only detected. *)
Module HostScenario.

Import BinwalkInterface.

Definition log : LogFile :=
  Json [Some (mkAnalysis
    (Some [mkRawFile (Some 0) (Some "squashfs-0") (Some 512) true
                     (Some "SquashFS file system");
           mkRawFile (Some 16) (Some "broken-1") (Some 8) true None;
           mkRawFile (Some 600) (Some "gzip-2") (Some 40) true
                     (Some "gzip compressed data")])
    (Some {["squashfs-0" :=
             mkRawExtraction (Some 512) (Some true) (Some "unsquashfs")
               (Some "/output/fw.bin.extracted/0")]}))].

Definition host : Host := {|
  h_isfile := fun p => String.eqb p "/in/fw.bin";
  h_isdir := fun p => String.eqb p "/tmp/tmp0";
  h_access := fun _ => true;
  h_abspath := fun p => p;
  h_mkdtemp := "/tmp/log0";
  h_from_env := true;
  h_run := fun _ _ => true;
  h_log := fun _ _ p => if String.eqb p "/tmp/log0/log.json" then log else NoFile
|}.

(** The same host without a docker image. *)
Definition no_image : Host := {|
  h_isfile := h_isfile host;
  h_isdir := h_isdir host;
  h_access := h_access host;
  h_abspath := h_abspath host;
  h_mkdtemp := h_mkdtemp host;
  h_from_env := true;
  h_run := fun _ _ => false;
  h_log := h_log host
|}.

End HostScenario.

(** A directory of inputs: one file at the top, one in a subdirectory,
    and a symbolic link to that subdirectory. *)
Module InputScenario.

Definition tree : fsnode :=
  FsDir [("a.bin", FsFile); ("empty", FsDir []);
         ("sub", FsDir [("b.bin", FsFile)]);
         ("link", FsDir [("b.bin", FsFile)])].

Definition world : World := {|
  w_md5 := w_md5 Examples.plain;
  w_magic := w_magic Examples.plain;
  w_getsize := w_getsize Examples.plain;
  w_header := w_header Examples.plain;
  w_scan := w_scan Examples.plain;
  w_tree := fun p => if String.eqb p "/in" then tree else FsFile;
  w_islink := fun p => String.eqb p "/in/link";
  w_mkdtemp := w_mkdtemp Examples.plain;
  w_mkstemp := w_mkstemp Examples.plain
|}.

End InputScenario.

(** Two inputs with the same content, hence the same checksum. *)
Module PoolScenario.

Definition tree : fsnode := FsDir [("a.bin", FsFile); ("b.bin", FsFile)].

Definition world : World := {|
  w_md5 := fun _ => Some "d41d8";
  w_magic := fun _ mime =>
    Some (if mime then "application/octet-stream" else "data");
  w_getsize := fun _ => 512;
  w_header := fun _ => Some "data";
  w_scan := fun _ _ _ _ => inr [];
  w_tree := fun p => if String.eqb p "/in" then tree else FsFile;
  w_islink := fun _ => false;
  w_mkdtemp := Examples.tmp_name;
  w_mkstemp := fun n _ => Examples.tmp_name n
|}.

Definition start : ExtractorState :=
  mkExtractor (Some "/out") true true ∅ ∅ 0 [].

End PoolScenario.

(** An extractor started with [-nk]: no kernel is asked for. *)
Definition no_kernel : ExtractorState :=
  mkExtractor (Some "/out") false true ∅ {[Examples.firmware]} 0 [].

(* ===================================================================== *)
(** * Properties                                                          *)
(* ===================================================================== *)

(** ** The evolution of the extractor state *)

Lemma cascade_sums_app l1 l2 :
  cascade_sums (l1 ++ l2) = (cascade_sums l1 ++ cascade_sums l2)%list.
Proof. unfold cascade_sums. apply flat_map_app. Qed.

Lemma evolves_refl e : evolves e e.
Proof. split; [now exists [] | reflexivity | trivial]. Qed.

Lemma evolves_trans e1 e2 e3 : evolves e1 e2 -> evolves e2 e3 -> evolves e1 e3.
Proof.
  intros [[n1 L1] V1 I1] [[n2 L2] V2 I2]. split.
  - exists (n2 ++ n1)%list. now rewrite L2, L1, app_assoc.
  - etransitivity; eassumption.
  - auto.
Qed.

(** Steps that add no cascade event and drop nothing from the visited
    set. *)
Lemma evolves_quiet e e' new :
  log e' = (new ++ log e)%list -> cascade_sums new = [] ->
  visited e ⊆ visited e' -> evolves e e'.
Proof.
  intros HL HC HV. split; [now exists new | assumption |].
  intros [HN HI]. unfold dedup_inv.
  rewrite HL, cascade_sums_app, HC. cbn [app]. split; [assumption|].
  intros c Hc. apply HV. now apply HI.
Qed.

Lemma evolves_event ev e :
  cascade_sums [ev] = [] -> evolves e (add_event ev e).
Proof. intros H. now apply (evolves_quiet e (add_event ev e) [ev]). Qed.

Lemma evolves_add_file p e : evolves e (add_file p e).
Proof. now apply (evolves_quiet e (add_file p e) []). Qed.

Lemma evolves_set_do_kernel b e : evolves e (set_do_kernel b e).
Proof. now apply (evolves_quiet e (set_do_kernel b e) []). Qed.

Lemma evolves_set_do_rootfs b e : evolves e (set_do_rootfs b e).
Proof. now apply (evolves_quiet e (set_do_rootfs b e) []). Qed.

Lemma evolves_bump_tmp e : evolves e (bump_tmp e).
Proof. now apply (evolves_quiet e (bump_tmp e) []). Qed.

Lemma evolves_add_visited c e : evolves e (add_visited c e).
Proof.
  apply (evolves_quiet e (add_visited c e) []); try reflexivity.
  cbn. set_solver.
Qed.

(** The one step that adds a cascade event: sound for a checksum that is
    visited and has not entered a cascade yet. *)
Lemma evolves_cascade path c e :
  c ∈ visited e -> ~ List.In c (cascade_sums (log e)) ->
  evolves e (add_event (EvCascade path c) e).
Proof.
  intros Hv Hn. split; [now exists [EvCascade path c] | reflexivity |].
  intros [HN HI]. split; cbn.
  - now constructor.
  - intros c' [<-|Hc]; auto.
Qed.

(** ** A program logic for the methods of an item

    [triple m Q]: started in a state whose visited set contains [V], [m]
    ends (normally with a value satisfying [Q], or by raising) in an
    evolved state; running out of fuel is allowed only if [Phi] holds, so
    [Phi := False] makes the triple a statement of termination. *)

Section Triples.

Variable w : World.
Variable Phi : Prop.
Variable V : gset string.
Variable InU : string -> Prop.
Hypothesis md5_in : forall p c, w_md5 w p = Some c -> InU c.

Local Notation post := (post_in Phi).
Local Notation triple := (triple_in Phi V).
Local Notation rec_ok := (rec_ok_in Phi V InU).

Lemma triple_ret {A} (a : A) (Q : A -> Prop) : Q a -> triple (ret a) Q.
Proof. intros HQ s _. split; [assumption | apply evolves_refl]. Qed.

Lemma triple_raise {A} (x : exn) (Q : A -> Prop) : triple (raise x) Q.
Proof. intros s _. apply evolves_refl. Qed.

Lemma triple_bind {A B} (m : M St A) (k : A -> M St B) Q Q' :
  triple m Q -> (forall a, Q a -> triple (k a) Q') -> triple (bind m k) Q'.
Proof.
  intros Hm Hk s HV. unfold bind. specialize (Hm s HV).
  destruct (m s) as [a s'|x s'|]; cbn in Hm |- *; [|assumption..].
  destruct Hm as [HQ Hev].
  assert (HV' : V ⊆ visited (ext s')).
  { etransitivity; [exact HV | apply Hev]. }
  specialize (Hk a HQ s' HV').
  destruct (k a s') as [b s''|x s''|]; cbn in Hk |- *.
  - destruct Hk. split; [assumption | eapply evolves_trans; eassumption].
  - eapply evolves_trans; eassumption.
  - assumption.
Qed.

Lemma triple_weaken {A} (m : M St A) (Q Q' : A -> Prop) :
  triple m Q -> (forall a, Q a -> Q' a) -> triple m Q'.
Proof.
  intros Hm HQ s HV. specialize (Hm s HV).
  destruct (m s); cbn in *; intuition.
Qed.

Lemma triple_gets {A} (f : St -> A) : triple (gets f) any.
Proof. intros s _. split; [exact I | apply evolves_refl]. Qed.

Lemma triple_modify_self (f : Item -> Item) : triple (modify (on_self f)) any.
Proof. intros s _. split; [exact I | apply evolves_refl]. Qed.

Lemma triple_modify_ext (f : ExtractorState -> ExtractorState) :
  (forall e, evolves e (f e)) -> triple (modify (on_ext f)) any.
Proof. intros Hf s _. split; [exact I | apply Hf]. Qed.

Lemma triple_lift {A} (r : exn + A) : triple (lift r) any.
Proof. destruct r; [apply triple_raise | now apply triple_ret]. Qed.

Lemma triple_catch {A} (m : M St A) (h : exn -> M St A) Q :
  triple m Q -> (forall x, triple (h x) Q) -> triple (catch m h) Q.
Proof.
  intros Hm Hh s HV. unfold catch. specialize (Hm s HV).
  destruct (m s) as [a s'|x s'|]; cbn in Hm |- *; [assumption| |assumption].
  assert (HV' : V ⊆ visited (ext s')).
  { etransitivity; [exact HV | apply Hm]. }
  specialize (Hh x s' HV').
  destruct (h x s') as [b s''|y s''|]; cbn in Hh |- *.
  - destruct Hh. split; [assumption | eapply evolves_trans; eassumption].
  - eapply evolves_trans; eassumption.
  - assumption.
Qed.

Lemma triple_emit ev : cascade_sums [ev] = [] -> triple (emit ev) any.
Proof. intros H. apply triple_modify_ext. intros e. now apply evolves_event. Qed.

Lemma triple_call_extract rec child :
  rec_ok rec -> InU (checksum child) ->
  triple (ExtractionItem.call_extract rec child) any.
Proof.
  intros Hrec Hc s HV. unfold ExtractionItem.call_extract.
  specialize (Hrec (mkSt child (ext s)) HV Hc).
  destruct (rec _); exact Hrec.
Qed.

(** Symbolic execution of a method body, one construct at a time. *)
Ltac tri_step :=
  lazymatch goal with
  | |- triple (bind _ _) _ => eapply triple_bind; [ | intros ? ? ]
  | |- triple (ret _) _ => apply triple_ret; exact I
  | |- triple (raise _) _ => apply triple_raise
  | |- triple (gets _) _ => apply triple_gets
  | |- triple (lift _) _ => apply triple_lift
  | |- triple (modify (on_self _)) _ => apply triple_modify_self
  | |- triple (emit _) _ => apply triple_emit; reflexivity
  | |- triple (if ?b then _ else _) _ => destruct b
  | |- triple (match ?x with _ => _ end) _ => destruct x
  end.
Ltac tri := repeat tri_step.

Import ExtractionItem.

Lemma triple_new_item path d tg :
  triple (new_item w path d tg) (fun i => InU (checksum i)).
Proof.
  unfold new_item. eapply triple_bind; [apply triple_gets|]. intros e _.
  unfold init. destruct (w_md5 w path) as [sum|] eqn:E; [|apply triple_raise].
  eapply triple_bind; [apply triple_emit; reflexivity|]. intros _ _.
  apply triple_ret. cbn. eapply md5_in, E.
Qed.

Lemma triple_runBinwalk path ex inc out : triple (runBinwalk w path ex inc out) any.
Proof. unfold runBinwalk. tri. Qed.

Lemma triple_io_dd a o n b : triple (io_dd a o n b) any.
Proof. unfold io_dd. tri. Qed.

Lemma triple_mkdtemp : triple (mkdtemp w) any.
Proof.
  unfold mkdtemp. tri. apply triple_modify_ext, evolves_bump_tmp.
Qed.

Lemma triple_mkstemp : triple (mkstemp w) any.
Proof.
  unfold mkstemp. tri. apply triple_modify_ext, evolves_bump_tmp.
Qed.

Lemma triple_magic path mime : triple (magic w path mime) any.
Proof. unfold magic. tri. Qed.

Lemma triple_find_rootfs dir : triple (find_rootfs w dir) any.
Proof. unfold find_rootfs. tri. Qed.

Lemma triple_shutil_copy a b : triple (shutil_copy a b) any.
Proof. unfold shutil_copy. tri. apply triple_modify_ext, evolves_add_file. Qed.

Lemma triple_make_archive a b : triple (make_archive a b) any.
Proof. unfold make_archive. tri. apply triple_modify_ext, evolves_add_file. Qed.

Lemma triple_emit_rootfs d : triple (emit_rootfs d) any.
Proof.
  unfold emit_rootfs. tri;
    first [apply triple_make_archive
          | apply triple_modify_ext, evolves_set_do_rootfs].
Qed.

Lemma triple_update_status : triple update_status any.
Proof. unfold update_status. tri. Qed.

Lemma triple_check_blacklist : triple (_check_blacklist w) any.
Proof. unfold _check_blacklist. tri; apply triple_magic. Qed.

Lemma triple_check_encryption : triple (_check_encryption w) any.
Proof. unfold _check_encryption. tri. Qed.

Lemma triple_check_kernel : triple (_check_kernel w) any.
Proof.
  unfold _check_kernel. tri;
    first [apply triple_runBinwalk | apply triple_shutil_copy
          | apply triple_modify_ext, evolves_set_do_kernel].
Qed.

Lemma triple_rootfs_entries l : triple (rootfs_entries w l) any.
Proof.
  induction l as [|entry l IH]; cbn [rootfs_entries]; [tri|].
  destruct (Binwalk.extractionDetails entry) as [d|]; [|exact IH].
  destruct (Binwalk.success d); [|exact IH].
  tri; first [apply triple_find_rootfs | apply triple_emit_rootfs].
Qed.

Lemma triple_check_rootfs : triple (_check_rootfs w) any.
Proof.
  unfold _check_rootfs. tri;
    first [apply triple_runBinwalk | apply triple_rootfs_entries].
Qed.

Section WithRec.

Variable rec : M St Result.
Hypothesis rec_good : rec_ok rec.

Lemma triple_carve_child o n : triple (carve_child w rec o n) any.
Proof.
  unfold carve_child. tri;
    first [apply triple_mkstemp | apply triple_io_dd | apply triple_new_item
          | idtac].
  now apply triple_call_extract.
Qed.

Lemma triple_firmware_entries l : triple (firmware_entries w rec l) any.
Proof.
  induction l as [|entry l IH]; cbn [firmware_entries]; [tri|].
  eapply triple_bind; [apply triple_gets|]. intros i _.
  destruct (Py.contains "uImage header" _).
  - destruct (_ && _); [|exact IH].
    eapply triple_bind; [apply triple_lift|]. intros n _.
    destruct (_ && _); [|exact IH].
    eapply triple_bind; [apply triple_carve_child|]. intros; tri.
  - destruct (_ && _); [|exact IH].
    eapply triple_bind; [apply triple_lift|]. intros f _.
    destruct (tplink_sizes _ f) as [[[ko ks] ro] rs].
    destruct (tplink_sane _ _); [|exact IH].
    tri; first [apply triple_carve_child | apply triple_update_status].
Qed.

Lemma triple_check_firmware : triple (_check_firmware w rec) any.
Proof.
  unfold _check_firmware. tri;
    first [apply triple_runBinwalk | apply triple_firmware_entries].
Qed.

Lemma triple_files_loop root files :
  forall count, triple (files_loop w rec root files count) any.
Proof.
  induction files as [|f files IH]; intros count; cbn [files_loop]; [tri|].
  destruct (_ <? _)%nat; [tri|].
  eapply triple_bind; [apply triple_gets|]. intros i _.
  eapply triple_bind; [apply triple_new_item|]. intros child Hc.
  eapply triple_bind; [now apply triple_call_extract|]. intros r _.
  eapply triple_bind.
  { destruct (r_status r); [apply triple_update_status | now apply triple_ret]. }
  intros [|] _; [tri | apply IH].
Qed.

Lemma triple_walk_loop desc dirs :
  forall count, triple (walk_loop w rec desc dirs count) any.
Proof.
  induction dirs as [|[root files] dirs IH]; intros count; cbn [walk_loop];
    [tri|].
  eapply triple_bind; [apply triple_lift|]. intros files' _.
  eapply triple_bind; [apply triple_files_loop|]. intros [b|c] _; [tri|apply IH].
Qed.

Lemma triple_recursive_entries l : triple (recursive_entries w rec l) any.
Proof.
  induction l as [|entry l IH]; cbn [recursive_entries]; [tri|].
  destruct (Binwalk.extractionDetails entry) as [d|]; [|exact IH].
  destruct (Binwalk.success d); [|exact IH].
  eapply triple_bind; [apply triple_find_rootfs|]. intros unix _.
  destruct (fst unix).
  - tri. apply triple_emit_rootfs.
  - eapply triple_bind; [apply triple_walk_loop|].
    intros [b|c] _; [tri|exact IH].
Qed.

Lemma triple_check_recursive fmt : triple (_check_recursive w rec fmt) any.
Proof.
  unfold _check_recursive. tri;
    first [apply triple_runBinwalk | apply triple_recursive_entries].
Qed.

Lemma triple_as_pyval m : triple m any -> triple (as_pyval m) any.
Proof. intros H. unfold as_pyval. tri. exact H. Qed.

Lemma triple_run_analyses l :
  Forall (fun m => triple m any) l -> triple (run_analyses l) any.
Proof.
  induction 1 as [|m l Hm _ IH]; cbn [run_analyses]; [tri|].
  eapply triple_bind; [exact Hm|]. intros v _.
  destruct (truth v); [|exact IH].
  eapply triple_bind; [apply triple_update_status|].
  intros [|] _; [tri|exact IH].
Qed.

Lemma triple_analyses : triple (run_analyses (analyses w rec)) any.
Proof.
  apply triple_run_analyses. unfold analyses.
  repeat constructor;
    first [ apply triple_check_firmware
          | apply triple_as_pyval;
            first [ apply triple_check_recursive | apply triple_check_encryption
                  | apply triple_check_kernel | apply triple_check_rootfs ] ].
Qed.

End WithRec.

End Triples.

(** ** Root filesystem recognition *)

Section FindRootfs.

Import Extractor.

(** Induction along single-child chains. *)
Lemma chain_ind (P : fsnode -> Prop) :
  (forall t, ~ single_dir t -> P t) ->
  (forall name l, P (FsDir l) -> P (FsDir [(name, FsDir l)])) ->
  forall t, P t.
Proof.
  intros Hstop Hstep. fix IH 1. intros t.
  destruct t as [|l].
  - apply Hstop. intros (n & l & H). discriminate.
  - destruct l as [|[name child] rest].
    + apply Hstop. intros (n & l & H). discriminate.
    + destruct rest as [|e rest].
      * pose proof (IH child) as IHc. destruct child as [|l'].
        -- apply Hstop. intros (n & l & H). discriminate.
        -- apply Hstep. exact IHc.
      * apply Hstop. intros (n & l0 & H). discriminate.
Qed.

Lemma collapse_stop path t : ~ single_dir t -> collapse path t = (path, t).
Proof.
  intros Hns. destruct t as [|[|[n [|l']] [|e r]]]; try reflexivity.
  exfalso. apply Hns. now exists n, l'.
Qed.

Lemma collapses_fun path t path' t' :
  collapses path t path' t' -> collapse path t = (path', t').
Proof.
  induction 1 as [path t Hns | path name l path' t' _ IH].
  - now apply collapse_stop.
  - exact IH.
Qed.

Lemma collapse_collapses t :
  forall path, collapses path t (fst (collapse path t)) (snd (collapse path t)).
Proof.
  induction t as [t Hns | name l IH] using chain_ind; intros path.
  - replace (collapse path t) with (path, t).
    + now apply collapses_stop.
    + destruct t as [|[|[n [|l']] [|e r]]]; try reflexivity.
      exfalso. apply Hns. now exists n, l'.
  - change (collapse path (FsDir [(name, FsDir l)]))
      with (collapse (Py.path_join path name) (FsDir l)).
    apply collapses_step. apply IH.
Qed.

Lemma fold_count_filter {A} (f : A -> bool) (l : list A) : forall n,
  fold_left (fun count e => if f e then S count else count) l n
  = (n + List.length (List.filter f l))%nat.
Proof.
  induction l as [|e l IH]; intros n; cbn [fold_left List.filter].
  - cbn. lia.
  - rewrite IH. destruct (f e); cbn [List.length]; lia.
Qed.

Lemma count_unix_length t : count_unix (entries t) = List.length (unix_subdirs t).
Proof.
  unfold count_unix, unix_subdirs.
  exact (fold_count_filter
           (fun e => Py.in_list (fst e) UNIX_DIRS && isdir (snd e)) (entries t) 0%nat).
Qed.

(** The loop over the subdirectories stops at the first hit. *)
Lemma first_hit_find path start l :
  match first_hit io_find_rootfs_norecurse path l with
  | Some (Some res) => Some res
  | Some None => Some (false, start)
  | None => None
  end =
  match List.find (hit_in path) l with
  | Some e => io_find_rootfs (Py.path_join path (fst e)) (snd e) false
  | None => Some (false, start)
  end.
Proof.
  induction l as [|[name sub] l IH]; cbn [first_hit List.find]; [reflexivity|].
  unfold hit_in at 1. cbn [fst snd].
  destruct sub as [|l']; cbn [isdir andb]; [exact IH|].
  change (io_find_rootfs (Py.path_join path name) (FsDir l') false)
    with (io_find_rootfs_norecurse (Py.path_join path name) (FsDir l')).
  destruct (io_find_rootfs_norecurse (Py.path_join path name) (FsDir l'))
    as [[[|] p]|] eqn:E.
  - cbn [fst snd]. symmetry. exact E.
  - exact IH.
  - exfalso. unfold io_find_rootfs_norecurse, find_rootfs_body in E.
    destruct (collapse _ _) as [p d].
    destruct (UNIX_THRESHOLD <=? _)%nat; discriminate.
Qed.

(** What [io_find_rootfs] returns on a directory, by cases. *)
Lemma io_find_rootfs_cases start l recurse :
  let t := FsDir l in
  let path := fst (collapse start t) in
  let d := snd (collapse start t) in
  io_find_rootfs start t recurse =
  if (4 <=? List.length (unix_subdirs d))%nat then Some (true, path)
  else if recurse then
    match List.find (hit_in path) (entries d) with
    | Some e => io_find_rootfs (Py.path_join path (fst e)) (snd e) false
    | None => Some (false, start)
    end
  else Some (false, start).
Proof.
  intros t path d. unfold io_find_rootfs, find_rootfs_body.
  subst t path d. destruct (collapse start (FsDir l)) as [p d] eqn:E.
  cbn [fst snd]. rewrite count_unix_length. unfold UNIX_THRESHOLD.
  destruct (4 <=? _)%nat; [reflexivity|].
  destruct recurse; [|reflexivity].
  apply first_hit_find.
Qed.

Lemma append_length (a b : string) :
  String.length (a +:+ b) = (String.length a + String.length b)%nat.
Proof.
  induction a as [|c a IH]; [reflexivity|].
  change (S (String.length (a +:+ b)) = S (String.length a + String.length b)).
  now rewrite IH.
Qed.

Lemma path_join_longer p n :
  valid_name n = true ->
  (String.length p < String.length (Py.path_join p n))%nat.
Proof.
  intros Hn. destruct n as [|c n]; [discriminate|].
  cbn in Hn. apply negb_true_iff in Hn.
  unfold Py.path_join. cbn [String.prefix].
  destruct (ascii_dec "/" c) as [E|Hc].
  - subst c. discriminate Hn.
  - destruct (_ || _); rewrite !append_length; cbn [String.length]; lia.
Qed.

Lemma collapse_length t : forall path,
  wf_names t ->
  (String.length path <= String.length (fst (collapse path t)))%nat /\
  wf_names (snd (collapse path t)).
Proof.
  induction t as [t Hns | name l IH] using chain_ind; intros path Hwf.
  - replace (collapse path t) with (path, t).
    + cbn. split; [lia|assumption].
    + destruct t as [|[|[n [|l']] [|e r]]]; try reflexivity.
      exfalso. apply Hns. now exists n, l'.
  - change (collapse path (FsDir [(name, FsDir l)]))
      with (collapse (Py.path_join path name) (FsDir l)).
    inversion Hwf as [|? HF]; subst.
    inversion HF as [|? ? [Hv Hw] _]; subst. cbn [fst snd] in Hv, Hw.
    destruct (IH (Py.path_join path name) Hw) as [Hlen Hwf'].
    split; [|assumption].
    pose proof (path_join_longer path name Hv). lia.
Qed.

Lemma norecurse_hit_path q s r :
  wf_names s ->
  io_find_rootfs q s false = Some (true, r) ->
  (String.length q <= String.length r)%nat.
Proof.
  intros Hwf H. unfold io_find_rootfs, find_rootfs_body in H.
  destruct s as [|l]; [discriminate|].
  pose proof (collapse_length (FsDir l) q Hwf) as [Hlen _].
  destruct (collapse q (FsDir l)) as [p d]. cbn [fst] in Hlen.
  destruct (UNIX_THRESHOLD <=? _)%nat; [|discriminate].
  injection H as <-. exact Hlen.
Qed.


End FindRootfs.

(** ** Where a root filesystem is reported *)

Section FindRootfsSound.

Lemma dir_at_trans a t p d q d' :
  dir_at a t p d -> dir_at p d q d' -> dir_at a t q d'.
Proof.
  induction 1 as [root t|root l name sub p d Hin _ IH]; intros H; [exact H|].
  eapply dir_below; [exact Hin|]. now apply IH.
Qed.

Lemma collapses_dir_at path t path' t' :
  collapses path t path' t' -> dir_at path t path' t'.
Proof.
  induction 1 as [path t _|path name l path' t' _ IH]; [constructor|].
  eapply dir_below; [now left | exact IH].
Qed.

Lemma collapse_dir_at path t :
  dir_at path t (fst (Extractor.collapse path t)) (snd (Extractor.collapse path t)).
Proof. apply collapses_dir_at, collapse_collapses. Qed.

(** The call without recursion hits at the end of the chain only. *)
Lemma norecurse_hit_sound path l p :
  Extractor.io_find_rootfs path (FsDir l) false = Some (true, p) ->
  exists d, dir_at path (FsDir l) p d /\ (4 <= List.length (unix_subdirs d))%nat.
Proof.
  rewrite io_find_rootfs_cases. cbv zeta.
  destruct (4 <=? _)%nat eqn:E; [|discriminate].
  intros [= <-]. eexists. split; [apply collapse_dir_at|].
  now apply Nat.leb_le in E.
Qed.

Lemma find_rootfs_sound start l recurse :
  exists b p,
    Extractor.io_find_rootfs start (FsDir l) recurse = Some (b, p) /\
    (b = false -> p = start) /\
    (b = true -> exists d, dir_at start (FsDir l) p d /\
                           (4 <= List.length (unix_subdirs d))%nat).
Proof.
  destruct (Extractor.io_find_rootfs start (FsDir l) false) as [[[|] p]|] eqn:E0.
  - (* the chain from [start] ends in a root filesystem *)
    pose proof E0 as E. rewrite io_find_rootfs_cases in E. cbv zeta in E.
    rewrite io_find_rootfs_cases. cbv zeta.
    destruct (4 <=? _)%nat; [|discriminate].
    exists true, p. split; [exact E|]. split; [discriminate|].
    intros _. now apply norecurse_hit_sound.
  - pose proof E0 as E. rewrite io_find_rootfs_cases in E. cbv zeta in E.
    rewrite io_find_rootfs_cases. cbv zeta.
    destruct (4 <=? _)%nat; [discriminate|].
    injection E as <-.
    destruct recurse.
    2:{ exists false, start. split; [reflexivity|]. split; [reflexivity|discriminate]. }
    set (path := fst (Extractor.collapse start (FsDir l))).
    set (d := snd (Extractor.collapse start (FsDir l))).
    destruct (List.find (hit_in path) (entries d)) as [[n sub]|] eqn:F.
    2:{ exists false, start. split; [reflexivity|]. split; [reflexivity|discriminate]. }
    apply List.find_some in F as [Hin Hhit].
    unfold hit_in in Hhit. cbn [fst snd] in Hhit |- *.
    destruct sub as [|l']; [discriminate|]. cbn [isdir andb] in Hhit.
    destruct (Extractor.io_find_rootfs (Py.path_join path n) (FsDir l') false)
      as [[[|] q]|] eqn:Eq; try discriminate.
    exists true, q. split; [reflexivity|]. split; [discriminate|]. intros _.
    destruct (norecurse_hit_sound _ _ _ Eq) as (d' & Hat & Hn).
    exists d'. split; [|exact Hn].
    apply (dir_at_trans _ _ path d); [apply collapse_dir_at|].
    destruct d as [|ld]; [destruct Hin|]. cbn [entries] in Hin.
    eapply dir_below; eassumption.
  - exfalso. rewrite io_find_rootfs_cases in E0. cbv zeta in E0.
    destruct (4 <=? _)%nat; discriminate.
Qed.

End FindRootfsSound.

(** ** [extract] keeps the state evolving, and returns *)

Section ExtractPost.

Import ExtractionItem.

Variable w : World.

(** The blacklist probe changes nothing, and raises only when the magic
    library does. *)
Lemma check_blacklist_cases s :
  (exists b, _check_blacklist w s = Ok b s) \/
  (_check_blacklist w s = Raise MagicException s /\
   (w_magic w (item (self s)) true = None \/
    w_magic w (item (self s)) false = None)).
Proof.
  unfold _check_blacklist, magic, bind, gets, ret, raise.
  destruct (w_magic w (item (self s)) true) as [t1|]; [|right; auto].
  destruct (any_in _ t1); [left; now eexists|].
  destruct (w_magic w (item (self s)) false) as [t2|]; [|right; auto].
  left. destruct (any_in _ t2); [now eexists|].
  destruct (Py.endswith _ _); now eexists.
Qed.

(** Entering the cascade with a checksum that was not visited before. *)
Lemma evolves_enter e e' path c :
  c ∉ visited e ->
  log e' = EvCascade path c :: log e ->
  {[c]} ∪ visited e ⊆ visited e' ->
  evolves e e'.
Proof.
  intros Hc HL HV. split.
  - now exists [EvCascade path c].
  - set_solver.
  - intros [HN HI]. unfold dedup_inv. rewrite HL. cbn. split.
    + constructor; [|assumption]. intros Hin. apply Hc. now apply HI.
    + intros c' [<-|Hin]; [set_solver|]. apply HV. apply elem_of_union_r.
      now apply HI.
Qed.

Variable Phi : Prop.
Variable InU : string -> Prop.
Hypothesis md5_in : forall p c, w_md5 w p = Some c -> InU c.

Lemma cascade_post rec s e0 :
  let c := checksum (self s) in
  c ∉ visited e0 ->
  log (ext s) = log e0 ->
  {[c]} ∪ visited e0 ⊆ visited (ext s) ->
  rec_ok_in Phi ({[c]} ∪ visited e0) InU rec ->
  match cascade w rec s with
  | Ok _ s' => evolves e0 (ext s') /\
               visited (ext s) ⊆ visited (ext s') /\
               List.In (EvCascade (item (self s)) c) (log (ext s'))
  | Raise _ _ => False
  | OutOfFuel => Phi
  end.
Proof.
  intros c Hc HL HV Hrec.
  unfold cascade, catch, try_body, bind, gets, emit, modify.
  set (s1 := on_ext _ s).
  assert (H01 : evolves e0 (ext s1)).
  { apply (evolves_enter e0 (ext s1) (item (self s)) c Hc).
    - cbn. now rewrite HL.
    - exact HV. }
  assert (Hin : forall e', evolves (ext s1) e' ->
                  List.In (EvCascade (item (self s)) c) (log e')).
  { intros e' [[new ->] _ _]. apply in_or_app. right. now left. }
  pose proof (triple_analyses w Phi _ InU md5_in rec Hrec s1 HV) as H.
  destruct (run_analyses _ s1) as [r s'|x s'|]; cbn in H |- *.
  - destruct H as [_ H]. split; [eapply evolves_trans; eassumption|].
    split; [apply H | auto].
  - unfold ret. split; [|split].
    + eapply evolves_trans; [exact H01|].
      eapply evolves_trans; [exact H|]. now apply evolves_event.
    + apply H.
    + right. auto.
  - exact H.
Qed.

(** [after_visited], started right after the checksum was inserted. *)
Lemma after_visited_post rec s e0 :
  let c := checksum (self s) in
  c ∉ visited e0 ->
  ext s = add_visited c e0 ->
  rec_ok_in Phi ({[c]} ∪ visited e0) InU rec ->
  match after_visited w rec s with
  | Ok _ s' =>
      evolves e0 (ext s') /\ c ∈ visited (ext s') /\
      (_check_blacklist w s = Ok false s ->
       List.In (EvCascade (item (self s)) c) (log (ext s')))
  | Raise x s' =>
      evolves e0 (ext s') /\ c ∈ visited (ext s') /\
      (w_magic w (item (self s)) true = None \/
       w_magic w (item (self s)) false = None)
  | OutOfFuel => Phi
  end.
Proof.
  intros c Hc He Hrec.
  assert (H01 : evolves e0 (ext s)) by (rewrite He; apply evolves_add_visited).
  assert (Hin : c ∈ visited (ext s)) by (rewrite He; cbn; set_solver).
  unfold after_visited, bind.
  destruct (check_blacklist_cases s) as [[b ->]| [-> HB]];
    [|split; [exact H01 | split; [exact Hin | exact HB]]].
  destruct b; [split; [exact H01 | split; [exact Hin | discriminate]]|].
  unfold mkdtemp, bind, gets, modify, ret.
  set (s3 := on_self _ _).
  pose proof (cascade_post rec s3 e0 Hc) as HC.
  cbn in HC. rewrite He in HC. specialize (HC eq_refl (reflexivity _) Hrec).
  rewrite He in Hin. cbn in Hin.
  destruct (cascade w rec s3) as [[r|] s'|x s'|]; cbn.
  - destruct HC as (? & ? & ?). split; [assumption|]. split; [set_solver|auto].
  - destruct HC as (? & ? & ?). split; [assumption|]. split; [set_solver|auto].
  - destruct HC.
  - exact HC.
Qed.

Lemma extract_body_post rec s :
  (checksum (self s) ∉ visited (ext s) ->
   rec_ok_in Phi ({[checksum (self s)]} ∪ visited (ext s)) InU rec) ->
  match extract_body w rec s with
  | Ok _ s' => evolves (ext s) (ext s')
  | Raise x s' =>
      evolves (ext s) (ext s') /\
      (w_magic w (item (self s)) true = None \/
       w_magic w (item (self s)) false = None)
  | OutOfFuel => Phi
  end.
Proof.
  intros Hrec. unfold extract_body, bind, gets, ret.
  destruct (get_status (self s)); [apply evolves_refl|].
  destruct (_ <? _)%nat; [apply evolves_refl|].
  unfold visited_guard, bind, gets, ret, modify.
  destruct (bool_decide _) eqn:Hv; [apply evolves_refl|].
  apply bool_decide_eq_false in Hv. specialize (Hrec Hv).
  pose proof (after_visited_post rec
                (on_ext (add_visited (checksum (self s))) s) (ext s)
                Hv eq_refl Hrec) as H.
  cbn in H.
  destruct (after_visited w rec _) as [r s'|x s'|];
    [apply H | split; apply H | exact H].
Qed.

End ExtractPost.


(** With finitely many checksums in the world, fuel beyond the number of
    those not yet visited is enough: [extract] returns, or raises because
    the magic probe of this very item raised. *)
Lemma extract_total w (U : gset string) :
  (forall p c, w_md5 w p = Some c -> c ∈ U) ->
  forall fuel s,
    (size (U ∖ visited (ext s)) < fuel)%nat ->
    checksum (self s) ∈ U ->
    match ExtractionItem.extract w fuel s with
    | Ok _ s' => evolves (ext s) (ext s')
    | Raise _ s' =>
        evolves (ext s) (ext s') /\
        (w_magic w (item (self s)) true = None \/
         w_magic w (item (self s)) false = None)
    | OutOfFuel => False
    end.
Proof.
  intros HU. induction fuel as [|fuel IH]; intros s Hsz Hc; [lia|].
  cbn [ExtractionItem.extract].
  apply (extract_body_post w False (fun c => c ∈ U) HU).
  intros Hn s' HV Hc'.
  assert (Hlt : (size (U ∖ visited (ext s')) < fuel)%nat).
  { assert (size (U ∖ visited (ext s'))
            < size (U ∖ visited (ext s)))%nat; [|lia].
    apply subset_size. apply strict_spec_alt. split; [set_solver|].
    intros Heq. assert (checksum (self s) ∈ U ∖ visited (ext s')) as Hin.
    { rewrite Heq. set_solver. }
    set_solver. }
  specialize (IH s' Hlt Hc').
  destruct (ExtractionItem.extract w fuel s'); cbn; [now split | apply IH | exact IH].
Qed.

(** ** The serial driver *)

Section DriverFacts.

Variable w : World.
Variable fuel : nat.







End DriverFacts.

(** ** Items that are complete when they are created *)

Lemma init_same_config w e1 e2 path d tg :
  same_config e1 e2 ->
  ExtractionItem.init w e1 path d tg = ExtractionItem.init w e2 path d tg.
Proof.
  intros (Ho & Hk & Hr & Hf). unfold ExtractionItem.init.
  destruct (w_md5 w path) as [sum|]; [|reflexivity].
  rewrite Ho. unfold ExtractionItem.status_flags, ExtractionItem.isfile_opt, isfile.
  now rewrite Hk, Hr, Hf.
Qed.

Lemma complete_inputs_do_nothing w fuel e0 l :
  (forall p, List.In p l ->
     exists i, ExtractionItem.init w e0 p 0 None = Some i /\
               ExtractionItem.get_status i = true) ->
  forall results e, same_config e0 e ->
  exists rs e',
    Driver.extract_list w (S fuel) l results e = Ok (results ++ rs)%list e' /\
    List.length rs = List.length l /\
    List.Forall (fun r => r_status r = true) rs /\
    List.filter is_scan (log e') = List.filter is_scan (log e) /\
    same_config e0 e' /\ visited e' = visited e.
Proof.
  induction l as [|p l IH]; intros Hall results e Hcfg.
  - exists [], e. cbn. rewrite app_nil_r. repeat split; try apply Hcfg.
    constructor.
  - destruct (Hall p (or_introl eq_refl)) as (i & Hi & Hs).
    cbn [Driver.extract_list]. unfold bind, Driver._extract_item.
    rewrite <- (init_same_config w e0 e p 0 None Hcfg), Hi.
    cbn [ExtractionItem.extract].
    unfold ExtractionItem.extract_body, bind, gets, ret. cbn [self ext].
    rewrite Hs.
    set (e1 := add_event _ e).
    assert (Hcfg1 : same_config e0 e1) by exact Hcfg.
    destruct (IH (fun q Hq => Hall q (or_intror Hq))
                 (results ++ [ExtractionItem.mk_result true i])%list e1 Hcfg1)
      as (rs & e' & E & Hlen & Hst & Hlog & Hc' & Hv).
    exists (ExtractionItem.mk_result true i :: rs), e'.
    cbn [ext]. rewrite E, <- app_assoc. cbn [app List.length].
    split; [reflexivity|]. split; [now rewrite Hlen|].
    split; [constructor; [reflexivity|assumption]|].
    split; [exact Hlog|]. split; [exact Hc'|exact Hv].
Qed.

Lemma path_join_truthy o t :
  truthy (Some o) = true -> truthy (Some (Py.path_join o t)) = true.
Proof.
  intros Ho. unfold Py.path_join.
  destruct (String.prefix "/" t) eqn:Ep.
  - destruct t; [discriminate Ep | reflexivity].
  - destruct o as [|c o]; [discriminate Ho|].
    destruct (_ || _); reflexivity.
Qed.

(** ** How many files of a directory are visited *)

Lemma files_loop_count w root (files : list string) :
  (forall p, w_md5 w p <> None) ->
  forall count s, (count <= 6)%nat ->
  exists s',
    self s' = (if (6 - count <? List.length files)%nat
               then set_terminate true (self s) else self s) /\
    ExtractionItem.files_loop w never_complete root files count s
    = Ok (if (6 - count <? List.length files)%nat
          then Return true else Continue (count + List.length files)%nat) s' /\
    children_of (depth (self s)) (log (ext s'))
    = (Nat.min (6 - count) (List.length files)
       + children_of (depth (self s)) (log (ext s)))%nat.
Proof.
  intros Hmd5. induction files as [|f files IH]; intros count s Hc.
  - exists s. cbn [List.length ExtractionItem.files_loop].
    replace (6 - count <? 0)%nat with false
      by (symmetry; apply Nat.ltb_ge; lia).
    rewrite Nat.add_0_r, Nat.min_0_r. repeat split.
  - cbn [ExtractionItem.files_loop List.length].
    unfold ExtractionItem.RECURSION_BREADTH.
    destruct (5 <? count)%nat eqn:E5.
    + apply Nat.ltb_lt in E5. assert (count = 6%nat) as -> by lia.
      exists (on_self (set_terminate true) s). cbn [Nat.sub].
      replace (0 <? S (List.length files))%nat with true
        by (symmetry; apply Nat.ltb_lt; lia).
      repeat split.
    + apply Nat.ltb_ge in E5.
      set (path := Py.path_join root f).
      set (d := (depth (self s) + 1)%nat).
      destruct (ExtractionItem.init w (ext s) path d (Some (tag (self s))))
        as [child|] eqn:Ei.
      2:{ exfalso. unfold ExtractionItem.init in Ei.
          destruct (w_md5 w path) eqn:Em; [discriminate|].
          now apply (Hmd5 path). }
      set (s1 := mkSt (self s) (add_event (EvItem path d (tag child)) (ext s))).
      destruct (IH (S count) s1 ltac:(lia)) as (s' & Hs & E & Hn).
      exists s'. cbn [self s1] in Hs, Hn.
      replace (6 - count <? S (List.length files))%nat
        with (6 - S count <? List.length files)%nat.
      2:{ destruct (6 - S count <? List.length files)%nat eqn:E1;
            symmetry; [apply Nat.ltb_lt in E1; apply Nat.ltb_lt
                      | apply Nat.ltb_ge in E1; apply Nat.ltb_ge]; lia. }
      split; [exact Hs|]. split.
      * unfold ExtractionItem.new_item, ExtractionItem.call_extract,
          emit, modify, bind, gets, ret.
        fold path d. rewrite Ei. unfold never_complete at 1.
        cbn [self ext on_ext r_status ExtractionItem.mk_result].
        fold s1. rewrite E.
        replace (S count + List.length files)%nat
          with (count + S (List.length files))%nat by lia. reflexivity.
      * rewrite Hn. unfold children_of, s1.
        cbn [ext log add_event List.filter is_child_of].
        subst d. rewrite Nat.add_1_r, Nat.eqb_refl. cbn [List.length]. lia.
Qed.

(** ** Reading the image size from a description *)

Section ImageSize.

Import ExtractionItem.

Lemma prefix_app (k b : string) : String.prefix k (k +:+ b) = true.
Proof.
  induction k as [|c k IH].
  - now destruct b.
  - change (String c k +:+ b) with (String c (k +:+ b)). cbn [String.prefix].
    destruct (ascii_dec c c); [exact IH|congruence].
Qed.

Lemma contains_mid (k a b : string) : Py.contains k (a +:+ k +:+ b) = true.
Proof.
  induction a as [|c a IH].
  - change (EmptyString +:+ k +:+ b) with (k +:+ b).
    destruct (k +:+ b) eqn:E; cbn [Py.contains]; rewrite <- E, prefix_app;
      reflexivity.
  - change (String c a +:+ k +:+ b) with (String c (a +:+ k +:+ b)).
    cbn [Py.contains]. rewrite IH. apply orb_true_r.
Qed.

Lemma digits_of_app (a b : string) :
  Py.digits_of (a +:+ b) = Py.digits_of a +:+ Py.digits_of b.
Proof.
  induction a as [|c a IH]; [reflexivity|].
  change (String c a +:+ b) with (String c (a +:+ b)).
  cbn [Py.digits_of]. rewrite IH. now destruct (Py.isdigit c).
Qed.

Lemma digits_of_digits (s : string) :
  forallb Py.isdigit (list_ascii_of_string (Py.digits_of s)) = true.
Proof.
  induction s as [|c s IH]; [reflexivity|].
  cbn [Py.digits_of]. destruct (Py.isdigit c) eqn:E; [|exact IH].
  cbn [list_ascii_of_string forallb]. now rewrite E, IH.
Qed.

Lemma int10_acc_nonneg (s : string) : forall acc,
  forallb Py.isdecimal (list_ascii_of_string s) = true ->
  0 <= acc -> 0 <= Py.int10_acc acc s.
Proof.
  induction s as [|c s IH]; intros acc Hd Hacc; [exact Hacc|].
  cbn [list_ascii_of_string forallb] in Hd. apply andb_true_iff in Hd as [Hc Hs].
  cbn [Py.int10_acc]. apply IH; [exact Hs|].
  unfold Py.isdecimal in Hc. apply andb_true_iff in Hc as [H1 _].
  apply Nat.leb_le in H1. unfold Py.digit_val. lia.
Qed.

(** What [int] returns when it returns. *)
Lemma int10_some (s : string) (n : Z) :
  Py.int10 s = Some n ->
  n = Py.int10_acc 0 s /\ 0 <= n /\
  forallb Py.isdecimal (list_ascii_of_string s) = true /\
  (String.length s <= Py.INT_MAX_STR_DIGITS)%nat.
Proof.
  unfold Py.int10. destruct s as [|c s]; [discriminate|].
  destruct (forallb _ _) eqn:Hd; [|discriminate].
  destruct (_ <=? _)%nat eqn:Hl; [|discriminate].
  cbn [andb]. intros [= <-]. split; [reflexivity|].
  split; [exact (int10_acc_nonneg (String c s) 0 Hd ltac:(lia))|].
  split; [reflexivity|].
  now apply Nat.leb_le.
Qed.

Lemma image_size_skip (pre rest : list string) (k : Z) :
  (forall f, List.In f pre -> Py.contains "image size:" f = false) ->
  image_size (pre ++ rest) k = image_size rest k.
Proof.
  induction pre as [|f pre IH]; intros H; [reflexivity|].
  cbn [app image_size]. rewrite (H f (or_introl eq_refl)).
  apply IH. intros g Hg. apply H. now right.
Qed.

Lemma image_size_error (stmts : list string) : forall k x,
  image_size stmts k = inl x -> x = ValueError.
Proof.
  induction stmts as [|f stmts IH]; intros k x; cbn [image_size]; [discriminate|].
  destruct (Py.contains _ f); [|apply IH].
  destruct (Py.int10 _); [apply IH | now intros [= <-]].
Qed.

Lemma image_size_nonneg (stmts : list string) : forall k n,
  image_size stmts k = inr n -> 0 <= k -> 0 <= n.
Proof.
  induction stmts as [|f stmts IH]; intros k n; cbn [image_size].
  - now intros [= <-].
  - destruct (Py.contains _ f); [|apply IH].
    destruct (Py.int10 _) as [m|] eqn:E; [|discriminate].
    intros H _. apply (IH m n H). apply int10_some in E. tauto.
Qed.

(** The size is read from the last fragment that mentions it: all its
    digit characters, in base 10. *)
Lemma image_size_last (pre post : list string) (f : string) : forall k n,
  Py.contains "image size:" f = true ->
  (forall g, List.In g post -> Py.contains "image size:" g = false) ->
  image_size (pre ++ f :: post) k = inr n ->
  Py.int10 (Py.digits_of f) = Some n.
Proof.
  induction pre as [|g pre IH]; intros k n Hf Hpost; cbn [app image_size].
  - rewrite Hf. destruct (Py.int10 _) as [m|]; [|discriminate].
    rewrite <- (app_nil_r post).
    rewrite image_size_skip by exact Hpost. cbn [image_size].
    now intros [= <-].
  - destruct (Py.contains _ g); [|now apply IH].
    destruct (Py.int10 (Py.digits_of g)); [now apply IH | discriminate].
Qed.

End ImageSize.

(** ** Every call of [extract()] is a sequence of guarded steps *)

Lemma same_id_refl i : same_id i i.
Proof. repeat split. Qed.

Lemma same_id_trans i j k : same_id i j -> same_id j k -> same_id i k.
Proof.
  intros (A1 & A2 & A3 & A4 & A5) (B1 & B2 & B3 & B4 & B5).
  repeat split; congruence.
Qed.

Lemma same_id_sym i j : same_id i j -> same_id j i.
Proof. intros (A1 & A2 & A3 & A4 & A5). repeat split; congruence. Qed.

(** No step assigns the path, depth, checksum, tag or output prefix of
    the running item. *)
Lemma run_same_id w s s' : run w s s' -> same_id (self s) (self s').
Proof.
  induction 1; try (repeat split; reflexivity).
  eapply same_id_trans; eassumption.
Qed.

Lemma same_id_kernel_path i j :
  same_id i j -> ExtractionItem.get_kernel_path i = ExtractionItem.get_kernel_path j.
Proof.
  intros (_ & _ & _ & _ & H). unfold ExtractionItem.get_kernel_path. now rewrite H.
Qed.

Section RunLogic.

Import ExtractionItem.

Variable w : World.
Variable i0 : Item.

Local Notation rt := (runs_in w i0).

Lemma rt_ret {A} (a : A) (Q : A -> Prop) : Q a -> rt (ret a) Q.
Proof. intros HQ s _. split; [assumption | apply run_refl]. Qed.

Lemma rt_raise {A} (x : exn) (Q : A -> Prop) : rt (raise x) Q.
Proof. intros s _. apply run_refl. Qed.

Lemma rt_bind {A B} (m : M St A) (k : A -> M St B) Q Q' :
  rt m Q -> (forall a, Q a -> rt (k a) Q') -> rt (bind m k) Q'.
Proof.
  intros Hm Hk s Hs. unfold bind. specialize (Hm s Hs).
  destruct (m s) as [a s'|x s'|]; [|assumption..].
  destruct Hm as [HQ Hr].
  assert (Hs' : same_id i0 (self s')).
  { eapply same_id_trans; [exact Hs | eapply run_same_id, Hr]. }
  specialize (Hk a HQ s' Hs').
  destruct (k a s') as [b s''|x s''|].
  - destruct Hk. split; [assumption | eapply run_trans; eassumption].
  - eapply run_trans; eassumption.
  - exact I.
Qed.

Lemma rt_assoc {A B C} (m : M St A) (f : A -> M St B) (g : B -> M St C) Q :
  rt (bind (bind m f) g) Q -> rt (bind m (fun a => bind (f a) g)) Q.
Proof.
  intros H s Hs. specialize (H s Hs). unfold bind in *.
  destruct (m s); assumption.
Qed.

Lemma rt_weaken {A} (m : M St A) (Q Q' : A -> Prop) :
  rt m Q -> (forall a, Q a -> Q' a) -> rt m Q'.
Proof.
  intros Hm HQ s Hs. specialize (Hm s Hs).
  destruct (m s); intuition.
Qed.

Lemma rt_gets {A} (f : St -> A) : rt (gets f) any.
Proof. intros s _. split; [exact I | apply run_refl]. Qed.

Lemma rt_gets_self : rt (gets self) (same_id i0).
Proof. intros s Hs. split; [exact Hs | apply run_refl]. Qed.

Lemma rt_lift {A} (r : exn + A) : rt (lift r) any.
Proof. destruct r; [apply rt_raise | now apply rt_ret]. Qed.

Lemma rt_catch {A} (m : M St A) (h : exn -> M St A) Q :
  rt m Q -> (forall x, rt (h x) Q) -> rt (catch m h) Q.
Proof.
  intros Hm Hh s Hs. unfold catch. specialize (Hm s Hs).
  destruct (m s) as [a s'|x s'|]; [assumption| |assumption].
  assert (Hs' : same_id i0 (self s')).
  { eapply same_id_trans; [exact Hs | eapply run_same_id, Hm]. }
  specialize (Hh x s' Hs').
  destruct (h x s') as [b s''|y s''|].
  - destruct Hh. split; [assumption | eapply run_trans; eassumption].
  - eapply run_trans; eassumption.
  - exact I.
Qed.

Lemma rt_emit ev : quiet_event ev = true -> rt (emit ev) any.
Proof. intros H s _. split; [exact I | now apply run_log]. Qed.

Lemma rt_set_terminate : rt (modify (on_self (set_terminate true))) any.
Proof. intros s _. split; [exact I | apply run_terminate]. Qed.

Lemma rt_set_temp t : rt (modify (on_self (set_temp t))) any.
Proof. intros s _. split; [exact I | apply run_temp]. Qed.

Lemma rt_tmp : rt (modify (on_ext bump_tmp)) any.
Proof. intros s _. split; [exact I | apply run_tmp]. Qed.

(** Symbolic execution of a method body, one construct at a time. *)
Ltac rt_step :=
  lazymatch goal with
  | |- rt (bind _ _) _ => eapply rt_bind; [ | intros ? ? ]
  | |- rt (ret _) _ => apply rt_ret; exact I
  | |- rt (raise _) _ => apply rt_raise
  | |- rt (gets self) _ => apply rt_gets_self
  | |- rt (gets _) _ => apply rt_gets
  | |- rt (lift _) _ => apply rt_lift
  | |- rt (modify (on_self (set_terminate true))) _ => apply rt_set_terminate
  | |- rt (modify (on_ext bump_tmp)) _ => apply rt_tmp
  | |- rt (emit _) _ => apply rt_emit; reflexivity
  | |- rt (if ?b then _ else _) _ => destruct b
  | |- rt (match ?x with _ => _ end) _ => destruct x
  end.
Ltac rts := repeat rt_step.

Lemma rt_runBinwalk path ex inc out : rt (runBinwalk w path ex inc out) any.
Proof. unfold runBinwalk. rts. Qed.

(** [io_dd] is called on the item's own file, with a range that the
    caller has checked; a size of zero copies nothing. *)
Lemma rt_io_dd i o n b :
  same_id i0 i -> (n <> 0 -> o + n <= w_getsize w (item i)) ->
  rt (io_dd (item i) o n b) any.
Proof.
  intros Hi Hn s Hs. unfold io_dd.
  destruct (n =? 0) eqn:E; [split; [exact I | apply run_refl]|].
  apply Z.eqb_neq in E.
  destruct (_ || _); [apply run_refl|].
  destruct (o <? 0) eqn:Eo; [apply run_refl|]. apply Z.ltb_ge in Eo.
  destruct (_ || _); [apply run_refl|].
  destruct (n <? -1) eqn:En; [apply run_refl|]. apply Z.ltb_ge in En.
  split; [exact I|].
  assert (Hit : item i = item (self s)).
  { destruct Hi as (<- & _). now destruct Hs as (-> & _). }
  rewrite Hit in *. apply run_dd; auto.
Qed.

Lemma rt_mkdtemp : rt (mkdtemp w) any.
Proof. unfold mkdtemp. rts. Qed.

Lemma rt_mkstemp : rt (mkstemp w) any.
Proof. unfold mkstemp. rts. Qed.

Lemma rt_magic path mime : rt (magic w path mime) any.
Proof. unfold magic. rts. Qed.

Lemma rt_find_rootfs dir : rt (find_rootfs w dir) any.
Proof. unfold find_rootfs. rts. Qed.

Lemma rt_update_status : rt update_status any.
Proof. intros s _. split; [exact I | apply run_status]. Qed.

(** The archive is written under the item's own output prefix; without
    one, the rootfs flag is cleared. *)
Lemma rt_emit_rootfs d : rt (emit_rootfs d) any.
Proof.
  intros s _. unfold emit_rootfs, make_archive, emit, bind, gets, modify.
  destruct (output (self s)) as [o|] eqn:Eo.
  - destruct (truthy (Some o)) eqn:Et.
    + split; [exact I|]. apply (run_archive w s o d); assumption.
    + split; [exact I|]. apply run_no_rootfs. now rewrite Eo.
  - split; [exact I|]. apply run_no_rootfs. now rewrite Eo.
Qed.

Lemma rt_check_blacklist : rt (_check_blacklist w) any.
Proof. unfold _check_blacklist. rts; apply rt_magic. Qed.

Lemma rt_check_encryption : rt (_check_encryption w) any.
Proof. unfold _check_encryption. rts. Qed.

(** The kernel is copied to the item's own kernel path; without one, the
    kernel flag is cleared. *)
Lemma rt_check_kernel : rt (_check_kernel w) any.
Proof.
  unfold _check_kernel.
  eapply rt_bind; [apply rt_gets_self|]. intros i Hi.
  destruct (negb _); [|rts].
  eapply rt_bind; [apply rt_runBinwalk|]. intros [|entry _] _; [rts|].
  destruct (_ || _); [|rts]. destruct (Py.contains "Linux" _); [|rts].
  apply (rt_bind _ _ any); [|intros; rts].
  intros s Hs.
  assert (Hp : get_kernel_path i = get_kernel_path (self s)).
  { apply same_id_kernel_path. eapply same_id_trans; [|exact Hs].
    now apply same_id_sym. }
  destruct (get_kernel_path i) as [p|] eqn:Ep.
  - unfold shutil_copy, emit, bind, modify. split; [exact I|].
    assert (Hit : item i = item (self s)).
    { destruct Hi as (<- & _). now destruct Hs as (-> & _). }
    rewrite Hit. apply run_copy. now symmetry.
  - unfold modify. split; [exact I|]. apply run_no_kernel. now symmetry.
Qed.

Lemma rt_rootfs_entries l : rt (rootfs_entries w l) any.
Proof.
  induction l as [|entry l IH]; cbn [rootfs_entries]; [rts|].
  destruct (Binwalk.extractionDetails entry) as [d|]; [|exact IH].
  destruct (Binwalk.success d); [|exact IH].
  rts; first [apply rt_find_rootfs | apply rt_emit_rootfs].
Qed.

Lemma rt_check_rootfs : rt (_check_rootfs w) any.
Proof.
  unfold _check_rootfs. rts;
    first [apply rt_runBinwalk | apply rt_rootfs_entries].
Qed.

Section WithRec.

Variable rec : M St Result.
Hypothesis rec_good : rec_runs w rec.
Hypothesis depth_ok : (depth i0 <= RECURSION_DEPTH)%nat.

(** Constructing a child with the item's tag and extracting it. *)
Lemma rt_spawn i path d :
  same_id i0 i -> d = depth i \/ d = (depth i + 1)%nat ->
  rt (bind (new_item w path d (Some (tag i))) (call_extract rec)) any.
Proof.
  intros Hi Hd s Hs.
  assert (Hsi : same_id i (self s)).
  { eapply same_id_trans; [apply same_id_sym, Hi | exact Hs]. }
  destruct Hsi as (_ & Hdep & _ & Htag & _).
  destruct Hs as (_ & Hdep0 & _).
  unfold new_item, call_extract, emit, bind, gets, modify, ret, raise.
  destruct (init w (ext s) path d (Some (tag i))) as [child|] eqn:Ei;
    [|apply run_refl].
  cbn [self ext on_ext].
  pose proof (rec_good (mkSt child (add_event (EvItem path d (tag child)) (ext s))))
    as Hr.
  rewrite Htag in Ei.
  assert (Hstep : forall s', run w (mkSt child (add_event (EvItem path d (tag child)) (ext s))) s' ->
                             run w s (mkSt (self s) (ext s'))).
  { intros s' H. eapply run_child; [| |exact Ei|exact H]; lia. }
  destruct (rec _) as [r s'|x s'|]; [split; [exact I|] | | exact I]; auto.
Qed.

Lemma rt_carve_child o n :
  (n <> 0 -> o + n <= w_getsize w (item i0)) ->
  rt (carve_child w rec o n) any.
Proof.
  intros Hn. unfold carve_child.
  eapply rt_bind; [apply rt_gets_self|]. intros i Hi.
  eapply rt_bind; [apply rt_mkstemp|]. intros p _.
  eapply rt_bind.
  { apply (rt_io_dd i); [exact Hi|]. now destruct Hi as (<- & _). }
  intros _ _.
  apply (rt_spawn i p (depth i) Hi). now left.
Qed.

Lemma rt_firmware_entries l : rt (firmware_entries w rec l) any.
Proof.
  induction l as [|entry l IH]; cbn [firmware_entries]; [rts|].
  eapply rt_bind; [apply rt_gets_self|]. intros i (Hit & _).
  rewrite <- Hit.
  destruct (Py.contains "uImage header" _).
  - destruct (_ && _); [|exact IH].
    eapply rt_bind; [apply rt_lift|]. intros n _.
    destruct (_ && _) eqn:E; [|exact IH].
    apply andb_true_iff in E as [_ E]. apply Z.leb_le in E.
    eapply rt_bind; [apply rt_carve_child; auto|]. intros; rts.
  - destruct (_ && _); [|exact IH].
    eapply rt_bind; [apply rt_lift|]. intros f _.
    destruct (tplink_sizes _ f) as [[[ko ks] ro] rs].
    destruct (tplink_sane _ _) eqn:E; [|exact IH].
    unfold tplink_sane in E.
    apply andb_true_iff in E as [E1 E2].
    apply andb_true_iff in E1 as [_ E1]. apply andb_true_iff in E2 as [_ E2].
    apply Z.leb_le in E1, E2.
    rts; first [apply rt_carve_child; auto | apply rt_update_status].
Qed.

Lemma rt_check_firmware : rt (_check_firmware w rec) any.
Proof.
  unfold _check_firmware. rts;
    first [apply rt_runBinwalk | apply rt_firmware_entries].
Qed.

Lemma rt_files_loop root files :
  forall count, rt (files_loop w rec root files count) any.
Proof.
  induction files as [|f files IH]; intros count; cbn [files_loop]; [rts|].
  destruct (_ <? _)%nat; [rts|].
  eapply rt_bind; [apply rt_gets_self|]. intros i Hi.
  apply rt_assoc.
  eapply rt_bind; [apply (rt_spawn i _ _ Hi); now right|]. intros r _.
  eapply rt_bind.
  { destruct (r_status r); [apply rt_update_status | now apply rt_ret]. }
  intros [|] _; [rts | apply IH].
Qed.

Lemma rt_walk_loop desc dirs :
  forall count, rt (walk_loop w rec desc dirs count) any.
Proof.
  induction dirs as [|[root files] dirs IH]; intros count; cbn [walk_loop];
    [rts|].
  eapply rt_bind; [apply rt_lift|]. intros files' _.
  eapply rt_bind; [apply rt_files_loop|]. intros [b|c] _; [rts|apply IH].
Qed.

Lemma rt_recursive_entries l : rt (recursive_entries w rec l) any.
Proof.
  induction l as [|entry l IH]; cbn [recursive_entries]; [rts|].
  destruct (Binwalk.extractionDetails entry) as [d|]; [|exact IH].
  destruct (Binwalk.success d); [|exact IH].
  eapply rt_bind; [apply rt_find_rootfs|]. intros unix _.
  destruct (fst unix).
  - rts. apply rt_emit_rootfs.
  - eapply rt_bind; [apply rt_walk_loop|].
    intros [b|c] _; [rts|exact IH].
Qed.

Lemma rt_check_recursive fmt : rt (_check_recursive w rec fmt) any.
Proof.
  unfold _check_recursive. rts;
    first [apply rt_runBinwalk | apply rt_recursive_entries].
Qed.

Lemma rt_as_pyval m : rt m any -> rt (as_pyval m) any.
Proof. intros H. unfold as_pyval. rts. exact H. Qed.

Lemma rt_run_analyses l :
  Forall (fun m => rt m any) l -> rt (run_analyses l) any.
Proof.
  induction 1 as [|m l Hm _ IH]; cbn [run_analyses]; [rts|].
  eapply rt_bind; [exact Hm|]. intros v _.
  destruct (truth v); [|exact IH].
  eapply rt_bind; [apply rt_update_status|].
  intros [|] _; [rts|exact IH].
Qed.

Lemma rt_analyses : rt (run_analyses (analyses w rec)) any.
Proof.
  apply rt_run_analyses. unfold analyses.
  repeat constructor;
    first [ apply rt_check_firmware
          | apply rt_as_pyval;
            first [ apply rt_check_recursive | apply rt_check_encryption
                  | apply rt_check_kernel | apply rt_check_rootfs ] ].
Qed.

Lemma rt_cascade : rt (cascade w rec) any.
Proof.
  unfold cascade, try_body. apply rt_catch.
  - rts. apply rt_analyses.
  - intros x. rts.
Qed.

Lemma rt_after_visited : rt (after_visited w rec) any.
Proof.
  unfold after_visited.
  eapply rt_bind; [apply rt_check_blacklist|]. intros [|] _; [rts|].
  eapply rt_bind; [apply rt_mkdtemp|]. intros t _.
  eapply rt_bind; [apply rt_set_temp|]. intros _ _.
  eapply rt_bind; [apply rt_cascade|]. intros [r|] _; rts.
Qed.

End WithRec.

End RunLogic.

Lemma extract_body_runs w rec s :
  rec_runs w rec ->
  match ExtractionItem.extract_body w rec s with
  | Ok _ s' => run w s s'
  | Raise _ s' => run w s s'
  | OutOfFuel => True
  end.
Proof.
  intros Hrec.
  unfold ExtractionItem.extract_body, bind, gets, ret.
  destruct (ExtractionItem.get_status (self s)); [apply run_refl|].
  destruct (_ <? _)%nat eqn:Hd; [apply run_refl|].
  apply Nat.ltb_ge in Hd.
  unfold ExtractionItem.visited_guard, bind, gets, ret, modify.
  destruct (bool_decide _); [apply run_refl|].
  set (s1 := on_ext _ s).
  assert (H1 : run w s s1) by apply run_visit.
  pose proof (rt_after_visited w (self s) rec Hrec Hd s1 (same_id_refl _)) as H.
  destruct (ExtractionItem.after_visited w rec s1) as [r s'|x s'|];
    [destruct H as [_ H]| |exact I]; eapply run_trans; eassumption.
Qed.

(** For every fuel and every world, what [extract] does to the state is
    a sequence of such steps. *)
Lemma extract_runs w fuel : rec_runs w (ExtractionItem.extract w fuel).
Proof.
  induction fuel as [|fuel IH]; intros s; [exact I|].
  cbn [ExtractionItem.extract]. now apply extract_body_runs.
Qed.

(** ** Invariants of the steps *)

(** What [__init__] leaves in a child constructed with a tag. *)
Lemma init_child w e path d t c :
  ExtractionItem.init w e path d (Some t) = Some c ->
  truthy (Some t) = true ->
  item c = path /\ depth c = d /\ tag c = t /\ output c = output_of e t /\
  w_md5 w path = Some (checksum c).
Proof.
  unfold ExtractionItem.init. intros H Ht.
  destruct (w_md5 w path) as [sum|]; [|discriminate].
  destruct t as [|a t]; [discriminate Ht|].
  injection H as <-. repeat split.
Qed.

Lemma run_output_dir w s s' : run w s s' -> output_dir (ext s') = output_dir (ext s).
Proof. induction 1; try reflexivity; [congruence | exact IHrun]. Qed.

Lemma output_of_same e e' tg :
  output_dir e' = output_dir e -> output_of e' tg = output_of e tg.
Proof. unfold output_of. now intros ->. Qed.

Lemma run_wf w s s' :
  run w s s' -> wf_item (ext s) (self s) -> wf_item (ext s') (self s').
Proof.
  intros H [Ht Ho].
  destruct (run_same_id w s s' H) as (_ & _ & _ & Etag & Eout).
  pose proof (run_output_dir w s s' H) as Ed.
  split; [now rewrite <- Etag|].
  rewrite <- Etag, <- Eout, Ho. symmetry. now apply output_of_same.
Qed.

Lemma same_id_outputs i j : same_id i j -> outputs_of i = outputs_of j.
Proof. intros (_ & _ & _ & _ & H). unfold outputs_of. now rewrite H. Qed.

(** A child of a well-formed item is well formed and has the same two
    output paths. *)
Lemma child_wf w s path d child ev :
  wf_item (ext s) (self s) ->
  ExtractionItem.init w (ext s) path d (Some (tag (self s))) = Some child ->
  wf_item (add_event ev (ext s)) child /\
  tag child = tag (self s) /\ depth child = d /\
  output child = output (self s).
Proof.
  intros [Ht Ho] Hi.
  destruct (init_child w _ _ _ _ _ Hi Ht) as (_ & Hd & Htag & Hout & _).
  split; [|split; [|split]]; try assumption.
  - split; [now rewrite Htag|]. now rewrite Hout, Htag.
  - now rewrite Hout, Ho.
Qed.

(** Files are only added, and only at the two output paths of the
    item. *)
Lemma run_files w s s' :
  run w s s' -> wf_item (ext s) (self s) ->
  fs_files (ext s') ⊆ fs_files (ext s) ∪ outputs_of (self s).
Proof.
  induction 1; intros Hwf; cbn [ext self on_ext on_self add_event add_visited
    bump_tmp add_file set_do_kernel set_do_rootfs fs_files]; try set_solver.
  - specialize (IHrun1 Hwf).
    specialize (IHrun2 (run_wf _ _ _ H Hwf)).
    rewrite <- (same_id_outputs _ _ (run_same_id _ _ _ H)) in IHrun2.
    set_solver.
  - unfold ExtractionItem.get_kernel_path in H. unfold outputs_of.
    destruct (output (self s)) as [o|]; [|discriminate].
    destruct (truthy (Some o)); [|discriminate].
    injection H as <-. set_solver.
  - unfold outputs_of. rewrite H, H0. set_solver.
  - destruct (child_wf w s path d child (EvItem path d (tag child)) Hwf H1)
      as (Hwc & _ & _ & Hout).
    specialize (IHrun Hwc). cbn [ext self add_event fs_files] in IHrun.
    unfold outputs_of in *. now rewrite Hout in IHrun.
Qed.

Lemma ext_le_refl e : ext_le e e.
Proof. repeat split; auto. Qed.

Lemma ext_le_trans e1 e2 e3 : ext_le e1 e2 -> ext_le e2 e3 -> ext_le e1 e3.
Proof.
  intros (F1 & K1 & R1) (F2 & K2 & R2). split; [set_solver|]. split; auto.
Qed.

(** Files are never removed and a flag that is off is never set. *)
Lemma run_ext_le w s s' : run w s s' -> ext_le (ext s) (ext s').
Proof.
  induction 1; try apply ext_le_refl;
    try (split; [cbn; set_solver | split; cbn; solve [auto | discriminate]]).
  - eapply ext_le_trans; eassumption.
  - exact IHrun.
Qed.

(** With an output prefix, the flags are not touched at all. *)
Lemma run_flags_kept w s s' :
  run w s s' -> wf_item (ext s) (self s) -> truthy (output (self s)) = true ->
  do_kernel (ext s') = do_kernel (ext s) /\
  do_rootfs (ext s') = do_rootfs (ext s).
Proof.
  induction 1; intros Hwf Ho; try (split; reflexivity).
  - destruct (IHrun1 Hwf Ho) as [K1 R1].
    destruct (run_same_id _ _ _ H) as (_ & _ & _ & _ & Eo).
    rewrite Eo in Ho.
    destruct (IHrun2 (run_wf _ _ _ H Hwf) Ho) as [K2 R2].
    split; congruence.
  - exfalso. unfold ExtractionItem.get_kernel_path in H.
    destruct (output (self s)) as [o|]; [|discriminate Ho].
    now rewrite Ho in H.
  - exfalso. congruence.
  - destruct (child_wf w s path d child (EvItem path d (tag child)) Hwf H1)
      as (Hwc & _ & _ & Hout).
    apply IHrun; [exact Hwc | cbn [self]; now rewrite Hout].
Qed.

Lemma status_le_refl a : status_le a a.
Proof. split; auto. Qed.

Lemma status_le_trans a b c : status_le a b -> status_le b c -> status_le a c.
Proof. intros [A1 A2] [B1 B2]. split; auto. Qed.

(** The flags [update_status] computes can only go from false to true
    while files are added and global flags are cleared. *)
Lemma status_flags_mono e e' i :
  ext_le e e' ->
  status_le (ExtractionItem.status_flags e i) (ExtractionItem.status_flags e' i).
Proof.
  intros (HF & HK & HR). unfold ExtractionItem.status_flags, status_le.
  cbn [fst snd]. unfold ExtractionItem.isfile_opt, isfile.
  split.
  - destruct (do_kernel e') eqn:K'.
    + rewrite (HK eq_refl). destruct (truthy (output i)); cbn [andb negb]; auto.
      destruct (ExtractionItem.get_kernel_path i); auto.
      intros H. apply bool_decide_eq_true in H. apply bool_decide_eq_true.
      set_solver.
    + cbn [andb negb]. auto.
  - destruct (do_rootfs e') eqn:R'.
    + rewrite (HR eq_refl). destruct (truthy (output i)); cbn [andb negb]; auto.
      destruct (ExtractionItem.get_rootfs_path i); auto.
      intros H. apply bool_decide_eq_true in H. apply bool_decide_eq_true.
      set_solver.
    + cbn [andb negb]. auto.
Qed.

Lemma status_sound_ext s e' :
  ext_le (ext s) e' -> status_sound s ->
  status_sound (mkSt (self s) e').
Proof.
  intros Hle Hs. unfold status_sound in *. cbn [self ext].
  eapply status_le_trans; [exact Hs | now apply status_flags_mono].
Qed.

(** The two status flags of the running item only go from false to
    true, and stay justified by the extractor's files and flags. *)
Lemma run_status_mono w s s' :
  run w s s' -> status_sound s ->
  status_sound s' /\ status_le (status (self s)) (status (self s')).
Proof.
  induction 1 as [s|s1 s2 s3 H12 IH1 H23 IH2|s ev Hev|s off size dst Hsz Hoff Hm Hle
                 |s|s|s p Hp|s o rd Ho Ht
                 |s Hk|s Hr|s t|s|s|s path d child s' Hd Hdd Hi Hrun IH];
    intros Hs;
    try (split; [exact Hs | apply status_le_refl]).
  - destruct (IH1 Hs) as [S2 L1]. destruct (IH2 S2) as [S3 L2].
    split; [exact S3 | eapply status_le_trans; eassumption].
  - split; [|apply status_le_refl]. apply (status_sound_ext s); [|exact Hs].
    apply (run_ext_le w s _ (run_copy w s p Hp)).
  - split; [|apply status_le_refl]. apply (status_sound_ext s); [|exact Hs].
    apply (run_ext_le w s _ (run_archive w s o rd Ho Ht)).
  - split; [|apply status_le_refl]. apply (status_sound_ext s); [|exact Hs].
    apply (run_ext_le w s _ (run_no_kernel w s Hk)).
  - split; [|apply status_le_refl]. apply (status_sound_ext s); [|exact Hs].
    apply (run_ext_le w s _ (run_no_rootfs w s Hr)).
  - split; [apply status_le_refl | exact Hs].
  - split; [|apply status_le_refl]. apply (status_sound_ext s); [|exact Hs].
    apply (run_ext_le w s _ (run_child w s path d child s' Hd Hdd Hi Hrun)).
Qed.

Lemma child_event_ok_weaken tg d d' ev :
  (d <= d')%nat -> child_event_ok tg d' ev -> child_event_ok tg d ev.
Proof. intros Hd. destruct ev; cbn; auto. intros (? & ? & ?). repeat split; auto; lia. Qed.

(** Every item constructed during a run carries the tag of the running
    item and lies between its depth and depth four. *)
Lemma run_children w s s' :
  run w s s' -> truthy (Some (tag (self s))) = true ->
  exists new, log (ext s') = (new ++ log (ext s))%list /\
              Forall (child_event_ok (tag (self s)) (depth (self s))) new.
Proof.
  induction 1; intros Ht;
    try (exists []; split; [reflexivity | constructor]).
  - destruct (IHrun1 Ht) as (n1 & L1 & F1).
    destruct (run_same_id _ _ _ H) as (_ & Ed & _ & Etag & _).
    rewrite Etag in Ht. destruct (IHrun2 Ht) as (n2 & L2 & F2).
    exists (n2 ++ n1)%list. split; [now rewrite L2, L1, app_assoc|].
    apply Forall_app. split; [|exact F1]. now rewrite Etag, Ed.
  - exists [ev]. split; [reflexivity|]. constructor; [|constructor].
    destruct ev; try exact I; discriminate H.
  - eexists [_]. split; [reflexivity|]. constructor; [exact I|constructor].
  - eexists [_]. split; [reflexivity|]. constructor; [exact I|constructor].
  - eexists [_]. split; [reflexivity|]. constructor; [exact I|constructor].
  - destruct (init_child w _ _ _ _ _ H1 Ht) as (_ & Hd & Htag & _).
    cbn [self] in IHrun. rewrite Htag in IHrun.
    destruct (IHrun Ht) as (n & L & F).
    exists (n ++ [EvItem path d (tag (self s))])%list. cbn [ext].
    split; [rewrite L; cbn [ext log add_event]; now rewrite <- app_assoc|].
    apply Forall_app. split.
    + eapply List.Forall_impl; [|exact F]. intros ev.
      apply child_event_ok_weaken. rewrite Hd. lia.
    + constructor; [|constructor]. cbn. unfold ExtractionItem.RECURSION_DEPTH in *.
      repeat split; lia.
Qed.

Lemma init_item w e path d tg i :
  ExtractionItem.init w e path d tg = Some i -> item i = path.
Proof.
  unfold ExtractionItem.init. destruct (w_md5 w path); [|discriminate].
  now intros [= <-].
Qed.

Lemma created_app l1 l2 : created (l1 ++ l2) = (created l1 ++ created l2)%list.
Proof. unfold created. apply List.flat_map_app. Qed.

Lemma dd_event_ok_incl w items items' ev :
  List.incl items items' -> dd_event_ok w items ev -> dd_event_ok w items' ev.
Proof. intros Hi. destruct ev; cbn; auto. intros (? & ?). split; auto. Qed.

Lemma write_event_ok_incl out items items' ev :
  List.incl items items' -> write_event_ok out items ev ->
  write_event_ok out items' ev.
Proof. intros Hi. destruct ev; cbn; auto. intros (? & ?). split; auto. Qed.

Lemma incl_run_items (a : string) (n1 n2 : list event) :
  List.incl (a :: created n1) (a :: created (n2 ++ n1)) /\
  List.incl (a :: created n2) (a :: created (n2 ++ n1)).
Proof.
  rewrite created_app. split; intros x [->|Hx]; try (now left);
    right; apply List.in_or_app; auto.
Qed.

Lemma incl_child_items (a p : string) (n : list event) d tg :
  List.incl (p :: created n) (a :: created (n ++ [EvItem p d tg])).
Proof.
  rewrite created_app. cbn. intros x [<-|Hx]; right; apply List.in_or_app.
  - right. now left.
  - now left.
Qed.

(** Every range carved during a run is read from the file of the
    running item or of an item created during the run, starts at an
    offset that is not negative and ends within that file. *)
Lemma run_dd_ok w s s' :
  run w s s' ->
  exists new, log (ext s') = (new ++ log (ext s))%list /\
              Forall (dd_event_ok w (item (self s) :: created new)) new.
Proof.
  induction 1; try (exists []; split; [reflexivity | constructor]).
  - destruct IHrun1 as (n1 & L1 & F1). destruct IHrun2 as (n2 & L2 & F2).
    destruct (run_same_id _ _ _ H) as (Ei & _).
    rewrite <- Ei in F2.
    destruct (incl_run_items (item (self s1)) n1 n2) as [I1 I2].
    exists (n2 ++ n1)%list. split; [now rewrite L2, L1, app_assoc|].
    apply Forall_app. split.
    + eapply List.Forall_impl; [|exact F2]. intros ev. now apply dd_event_ok_incl.
    + eapply List.Forall_impl; [|exact F1]. intros ev. now apply dd_event_ok_incl.
  - exists [ev]. split; [reflexivity|]. constructor; [|constructor].
    destruct ev; try exact I; discriminate H.
  - eexists [_]. split; [reflexivity|]. constructor; [|constructor].
    cbn. split; [now left|]. repeat split; auto; lia.
  - eexists [_]. split; [reflexivity|]. constructor; [exact I|constructor].
  - eexists [_]. split; [reflexivity|]. constructor; [exact I|constructor].
  - destruct IHrun as (n & L & F).
    cbn [self] in F. rewrite (init_item _ _ _ _ _ _ H1) in F.
    exists (n ++ [EvItem path d (tag child)])%list. cbn [ext].
    split; [rewrite L; cbn [ext log add_event]; now rewrite <- app_assoc|].
    apply Forall_app. split; [|constructor; [exact I|constructor]].
    eapply List.Forall_impl; [|exact F]. intros ev.
    apply dd_event_ok_incl, incl_child_items.
Qed.

(** Every [shutil.copy] of a run copies the whole file of an item of the
    run to the kernel path of the running item, and every
    [shutil.make_archive] writes under its output prefix. *)
Lemma run_writes_ok w s s' :
  run w s s' -> wf_item (ext s) (self s) ->
  exists new, log (ext s') = (new ++ log (ext s))%list /\
              Forall (write_event_ok (output (self s))
                        (item (self s) :: created new)) new.
Proof.
  induction 1; intros Hwf;
    try (exists []; split; [reflexivity | constructor]).
  - destruct (IHrun1 Hwf) as (n1 & L1 & F1).
    destruct (IHrun2 (run_wf _ _ _ H Hwf)) as (n2 & L2 & F2).
    destruct (run_same_id _ _ _ H) as (Ei & _ & _ & _ & Eo).
    rewrite <- Ei, <- Eo in F2.
    destruct (incl_run_items (item (self s1)) n1 n2) as [I1 I2].
    exists (n2 ++ n1)%list. split; [now rewrite L2, L1, app_assoc|].
    apply Forall_app. split.
    + eapply List.Forall_impl; [|exact F2]. intros ev. now apply write_event_ok_incl.
    + eapply List.Forall_impl; [|exact F1]. intros ev. now apply write_event_ok_incl.
  - exists [ev]. split; [reflexivity|]. constructor; [|constructor].
    destruct ev; try exact I; discriminate H.
  - eexists [_]. split; [reflexivity|]. constructor; [exact I|constructor].
  - eexists [_]. split; [reflexivity|]. constructor; [|constructor].
    cbn. split; [now left|].
    unfold ExtractionItem.get_kernel_path in H.
    destruct (output (self s)) as [o|]; [|discriminate].
    destruct (truthy (Some o)) eqn:Et; [|discriminate].
    injection H as <-. now exists o.
  - eexists [_]. split; [reflexivity|]. constructor; [|constructor].
    cbn. now split.
  - destruct (child_wf w s path d child (EvItem path d (tag child)) Hwf H1)
      as (Hwc & _ & _ & Hout).
    destruct (IHrun Hwc) as (n & L & F).
    cbn [self] in F. rewrite (init_item _ _ _ _ _ _ H1) in F.
    rewrite Hout in F.
    exists (n ++ [EvItem path d (tag child)])%list. cbn [ext].
    split; [rewrite L; cbn [ext log add_event]; now rewrite <- app_assoc|].
    apply Forall_app. split; [|constructor; [exact I|constructor]].
    eapply List.Forall_impl; [|exact F]. intros ev.
    apply write_event_ok_incl, incl_child_items.
Qed.

(** ** From steps to calls of [extract] *)

Lemma extract_final_run w fuel s s' :
  final_state (ExtractionItem.extract w fuel s) = Some s' -> run w s s'.
Proof.
  intros Hf. pose proof (extract_runs w fuel s) as H.
  destruct (ExtractionItem.extract w fuel s); cbn in Hf; try discriminate;
    injection Hf as <-; exact H.
Qed.

Lemma generate_tag_truthy path sum :
  truthy (Some (ExtractionItem.generate_tag path sum)) = true.
Proof.
  unfold ExtractionItem.generate_tag. now destruct (Py.basename path).
Qed.

(** Whatever tag it is given, [__init__] leaves a well-formed item whose
    status is the one [update_status] computes. *)
Lemma init_wf w e path d tg i :
  ExtractionItem.init w e path d tg = Some i ->
  wf_item e i /\ status i = ExtractionItem.status_flags e i /\
  item i = path /\ depth i = d /\ terminate i = false /\
  exists sum, w_md5 w path = Some sum /\ checksum i = sum /\
    tag i = match tg with
            | Some t => if truthy (Some t) then t
                        else ExtractionItem.generate_tag path sum
            | None => ExtractionItem.generate_tag path sum
            end.
Proof.
  unfold ExtractionItem.init. intros H.
  destruct (w_md5 w path) as [sum|]; [|discriminate].
  injection H as <-. cbn [tag output status item depth terminate checksum set_status].
  split; [|split; [reflexivity|]].
  - split; [|reflexivity].
    destruct tg as [[|a t]|]; try apply generate_tag_truthy. reflexivity.
  - repeat split. exists sum. repeat split.
Qed.

(** The driver's wrapper: the files an input may add are the two named
    after the input itself. *)
Lemma extract_item_files w fuel q e e' :
  final_state (Driver._extract_item w fuel q e) = Some e' ->
  output_dir e' = output_dir e /\ fs_files e ⊆ fs_files e' /\
  forall p, p ∈ fs_files e' -> p ∈ fs_files e \/
    exists sum o, w_md5 w q = Some sum /\ output_dir e = Some o /\
      truthy (Some o) = true /\
      (p = Py.path_join o (ExtractionItem.generate_tag q sum) +:+ ".kernel" \/
       p = Py.path_join o (ExtractionItem.generate_tag q sum) +:+ ".tar.gz").
Proof.
  unfold Driver._extract_item.
  destruct (ExtractionItem.init w e q 0 None) as [i|] eqn:Ei.
  2:{ cbn. intros [= <-]. split; [reflexivity|]. split; [reflexivity|]. auto. }
  destruct (init_wf w e q 0 None i Ei) as (Hwf & _ & _ & _ & _ & sum & Hm & _ & Htag).
  set (s := mkSt i _). intros Hf.
  assert (Hrun : exists s', run w s s' /\ e' = ext s').
  { pose proof (extract_runs w fuel s) as H.
    destruct (ExtractionItem.extract w fuel s) as [r s'|x s'|]; cbn in Hf;
      try discriminate; injection Hf as <-; now exists s'. }
  destruct Hrun as (s' & Hrun & ->).
  split; [exact (run_output_dir w s s' Hrun)|].
  split; [apply (run_ext_le w s s' Hrun)|].
  intros p Hp.
  assert (Hwf' : wf_item (ext s) (self s)) by exact Hwf.
  apply (run_files w s s' Hrun Hwf') in Hp.
  apply elem_of_union in Hp as [Hp|Hp]; [now left|right].
  destruct Hwf as [_ Ho]. unfold outputs_of in Hp. cbn [self s] in Hp.
  rewrite Ho in Hp. unfold output_of in Hp.
  destruct (output_dir e) as [o|]; [|set_solver].
  destruct (truthy (Some o)) eqn:Et; [|set_solver].
  rewrite (path_join_truthy o (tag i) Et) in Hp.
  exists sum, o. rewrite <- Htag. repeat split; auto. set_solver.
Qed.

Lemma extract_list_files w fuel l : forall results e e',
  final_state (Driver.extract_list w fuel l results e) = Some e' ->
  output_dir e' = output_dir e /\ fs_files e ⊆ fs_files e' /\
  forall p, p ∈ fs_files e' -> p ∈ fs_files e \/
    exists q sum o, List.In q l /\ w_md5 w q = Some sum /\
      output_dir e = Some o /\ truthy (Some o) = true /\
      (p = Py.path_join o (ExtractionItem.generate_tag q sum) +:+ ".kernel" \/
       p = Py.path_join o (ExtractionItem.generate_tag q sum) +:+ ".tar.gz").
Proof.
  induction l as [|q l IH]; intros results e e'; cbn [Driver.extract_list].
  - cbn. intros [= <-]. split; [reflexivity|]. split; [reflexivity|]. auto.
  - unfold bind.
    pose proof (extract_item_files w fuel q e) as Hq.
    destruct (Driver._extract_item w fuel q e) as [r e1|x e1|]; cbn in Hq |- *.
    + destruct (Hq e1 eq_refl) as (Ho & Hsub & Hfiles). intros Hf.
      destruct (IH _ _ _ Hf) as (Ho' & Hsub' & Hfiles').
      split; [congruence|]. split; [set_solver|].
      intros p Hp. destruct (Hfiles' p Hp) as [H1|(q' & sum & o & Hin & Hm & Hd & Ht & Hc)].
      * destruct (Hfiles p H1) as [H0|(sum & o & Hm & Hd & Ht & Hc)]; [now left|].
        right. exists q, sum, o. split; [now left|]. tauto.
      * right. exists q', sum, o. rewrite Ho in Hd. split; [now right|]. tauto.
    + intros [= <-]. destruct (Hq e1 eq_refl) as (Ho & Hsub & Hfiles).
      split; [exact Ho|]. split; [exact Hsub|].
      intros p Hp. destruct (Hfiles p Hp) as [H0|(sum & o & Hm & Hd & Ht & Hc)];
        [now left|].
      right. exists q, sum, o. split; [now left|]. tauto.
    + discriminate.
Qed.

(** ** The record [extract()] returns *)

Lemma run_analyses_some l : forall s r s',
  ExtractionItem.run_analyses l s = Ok (Some r) s' ->
  r = ExtractionItem.mk_result true (self s') /\
  ExtractionItem.get_status (self s') = true.
Proof.
  induction l as [|m l IH]; intros s r s'; cbn [ExtractionItem.run_analyses].
  - discriminate.
  - unfold bind at 1. destruct (m s) as [v s1|x s1|]; try discriminate.
    destruct (truth v); [|apply IH].
    unfold ExtractionItem.update_status, bind, gets, modify, ret.
    set (s2 := on_self _ s1).
    destruct (ExtractionItem.get_status (self s2)) eqn:E; [|apply IH].
    intros [= <- <-]. now split.
Qed.

Lemma extract_body_result w rec s r s' :
  ExtractionItem.extract_body w rec s = Ok r s' ->
  r = ExtractionItem.mk_result (r_status r) (self s') /\
  (r_status r = true -> ExtractionItem.get_status (self s') = true).
Proof.
  unfold ExtractionItem.extract_body, bind, gets, ret.
  destruct (ExtractionItem.get_status (self s)) eqn:Es.
  { intros [= <- <-]. now split. }
  destruct (_ <? _)%nat.
  { intros [= <- <-]. cbn. rewrite Es. split; [reflexivity|discriminate]. }
  unfold ExtractionItem.visited_guard, bind, gets, ret, modify.
  destruct (bool_decide _).
  { intros [= <- <-]. cbn. rewrite Es. split; [reflexivity|discriminate]. }
  set (s1 := on_ext _ s).
  unfold ExtractionItem.after_visited, bind.
  destruct (check_blacklist_cases w s1) as [[b ->]| [-> _]]; [|discriminate].
  destruct b.
  { unfold gets, ret. intros [= <- <-]. cbn. rewrite Es.
    split; [reflexivity|discriminate]. }
  unfold ExtractionItem.mkdtemp, bind, gets, modify, ret.
  set (s3 := on_self _ _).
  unfold ExtractionItem.cascade, catch.
  destruct (ExtractionItem.try_body w rec s3) as [[res|] s4|x s4|] eqn:Et;
    cbn; try discriminate.
  - intros [= <- <-].
    unfold ExtractionItem.try_body, bind, gets, emit, modify in Et.
    destruct (run_analyses_some _ _ _ _ Et) as [-> Hs]. now split.
  - intros [= <- <-]. cbn. split; [reflexivity|discriminate].
  - unfold emit, modify, bind, ret. intros [= <- <-]. cbn.
    split; [reflexivity|discriminate].
Qed.

(** Without an output prefix nothing is written to the output
    directory. *)
Lemma write_event_ok_none items ev :
  write_event_ok None items ev -> is_write ev = false.
Proof.
  destruct ev; cbn; try reflexivity.
  - intros (_ & o & Ho & _). discriminate.
  - intros (Ho & _). discriminate.
Qed.

(** The driver's wrapper: what an input may write is named after the
    input itself. *)
Lemma extract_item_writes w fuel q e e' :
  final_state (Driver._extract_item w fuel q e) = Some e' ->
  output_dir e' = output_dir e /\
  exists new, log e' = (new ++ log e)%list /\
              Forall (driver_write_ok w (output_dir e) [q]) new.
Proof.
  unfold Driver._extract_item.
  destruct (ExtractionItem.init w e q 0 None) as [i|] eqn:Ei.
  2:{ cbn. intros [= <-]. split; [reflexivity|]. exists []. now split. }
  destruct (init_wf w e q 0 None i Ei) as (Hwf & _ & _ & _ & _ & sum & Hm & _ & Htag).
  set (s := mkSt i _). intros Hf.
  assert (Hrun : exists s', run w s s' /\ e' = ext s').
  { pose proof (extract_runs w fuel s) as H.
    destruct (ExtractionItem.extract w fuel s) as [r s'|x s'|]; cbn in Hf;
      try discriminate; injection Hf as <-; now exists s'. }
  destruct Hrun as (s' & Hrun & ->).
  split; [exact (run_output_dir w s s' Hrun)|].
  assert (Hwf' : wf_item (ext s) (self s)) by exact Hwf.
  destruct (run_writes_ok w s s' Hrun Hwf') as (new & Hlog & Hall).
  exists (new ++ [EvItem q 0 (tag i)])%list.
  split; [rewrite Hlog; cbn [s ext log add_event]; now rewrite <- app_assoc|].
  apply Forall_app. split; [|constructor; [discriminate|constructor]].
  eapply List.Forall_impl; [|exact Hall]. intros ev Hev Hw.
  destruct Hwf as [_ Ho]. cbn [s self] in Hev. rewrite Ho in Hev.
  unfold output_of in Hev.
  destruct (output_dir e) as [o|];
    [|apply write_event_ok_none in Hev; congruence].
  destruct (truthy (Some o)) eqn:Et;
    [|apply write_event_ok_none in Hev; congruence].
  exists q, sum, o. split; [now left|]. split; [exact Hm|].
  split; [reflexivity|]. split; [exact Et|]. rewrite <- Htag.
  destruct ev; try discriminate Hw; cbn in Hev |- *.
  - destruct Hev as (_ & o' & [= <-] & _ & ->). reflexivity.
  - destruct Hev as ([= <-] & _). reflexivity.
Qed.

Lemma driver_write_ok_incl w out l l' ev :
  List.incl l l' -> driver_write_ok w out l ev -> driver_write_ok w out l' ev.
Proof.
  intros Hi H Hw. destruct (H Hw) as (q & sum & o & Hin & Hrest).
  exists q, sum, o. split; [now apply Hi | exact Hrest].
Qed.

Lemma extract_list_writes w fuel l : forall results e e',
  final_state (Driver.extract_list w fuel l results e) = Some e' ->
  output_dir e' = output_dir e /\
  exists new, log e' = (new ++ log e)%list /\
              Forall (driver_write_ok w (output_dir e) l) new.
Proof.
  induction l as [|q l IH]; intros results e e'; cbn [Driver.extract_list].
  - cbn. intros [= <-]. split; [reflexivity|]. exists []. now split.
  - unfold bind.
    pose proof (extract_item_writes w fuel q e) as Hq.
    destruct (Driver._extract_item w fuel q e) as [r e1|x e1|]; cbn in Hq |- *.
    + destruct (Hq e1 eq_refl) as (Ho & n1 & L1 & F1). intros Hf.
      destruct (IH _ _ _ Hf) as (Ho' & n2 & L2 & F2).
      split; [congruence|]. exists (n2 ++ n1)%list.
      split; [now rewrite L2, L1, app_assoc|].
      apply Forall_app. split.
      * rewrite Ho in F2. eapply List.Forall_impl; [|exact F2]. intros ev.
        apply driver_write_ok_incl. intros y Hy. now right.
      * eapply List.Forall_impl; [|exact F1]. intros ev.
        apply driver_write_ok_incl. intros y [<-|[]]. now left.
    + intros [= <-]. destruct (Hq e1 eq_refl) as (Ho & n1 & L1 & F1).
      split; [exact Ho|]. exists n1. split; [exact L1|].
      eapply List.Forall_impl; [|exact F1]. intros ev.
      apply driver_write_ok_incl. intros y [<-|[]]. now left.
    + discriminate.
Qed.

(** Flags that are justified by the extractor are backed by it. *)
Lemma status_backed e i :
  status_le (status i) (ExtractionItem.status_flags e i) ->
  backed_by e (do_kernel e) (fst (status i)) (ExtractionItem.get_kernel_path i) /\
  backed_by e (do_rootfs e) (snd (status i)) (ExtractionItem.get_rootfs_path i).
Proof.
  intros [HK HR]. unfold ExtractionItem.status_flags in HK, HR.
  cbn [fst snd] in HK, HR. unfold backed_by.
  split; intros Hd; [specialize (HK Hd); clear HR | specialize (HR Hd); clear HK].
  - destruct (do_kernel e); [|now left]. right.
    destruct (truthy (output i)); cbn [andb negb] in HK; [|discriminate].
    destruct (ExtractionItem.get_kernel_path i) as [p|]; [|discriminate].
    exists p. split; [reflexivity|]. now apply bool_decide_eq_true in HK.
  - destruct (do_rootfs e); [|now left]. right.
    destruct (truthy (output i)); cbn [andb negb] in HR; [|discriminate].
    destruct (ExtractionItem.get_rootfs_path i) as [p|]; [|discriminate].
    exists p. split; [reflexivity|]. now apply bool_decide_eq_true in HR.
Qed.

Lemma result_of_input_mono w e e' q r :
  ext_le e e' -> result_of_input w e q r -> result_of_input w e' q r.
Proof.
  intros (HF & HK & HR) (sum & Hm & Ht & Bk & Br).
  exists sum. split; [exact Hm|]. split; [exact Ht|].
  unfold backed_by in *. split; intros Hd.
  - destruct (Bk Hd) as [Hoff|(p & Hp & Hin)].
    + left. destruct (do_kernel e'); [|reflexivity].
      rewrite (HK eq_refl) in Hoff. discriminate.
    + right. exists p. split; [exact Hp|]. set_solver.
  - destruct (Br Hd) as [Hoff|(p & Hp & Hin)].
    + left. destruct (do_rootfs e'); [|reflexivity].
      rewrite (HR eq_refl) in Hoff. discriminate.
    + right. exists p. split; [exact Hp|]. set_solver.
Qed.

(** The record [_extract_item] returns for an input. *)
Lemma extract_item_result w fuel q e r e1 :
  Driver._extract_item w fuel q e = Ok r e1 ->
  ext_le e e1 /\ result_of_input w e1 q r.
Proof.
  unfold Driver._extract_item.
  destruct (ExtractionItem.init w e q 0 None) as [i|] eqn:Ei; [|discriminate].
  destruct (init_wf w e q 0 None i Ei) as (_ & Hst & _ & _ & _ & sum & Hm & _ & Htag).
  set (s := mkSt i _).
  destruct (ExtractionItem.extract w fuel s) as [r' s'|x s'|] eqn:Ex;
    try discriminate.
  intros [= -> <-].
  assert (Hrun : run w s s').
  { apply (extract_final_run w fuel). now rewrite Ex. }
  assert (Hs : status_sound s).
  { unfold status_sound, s. cbn [self ext]. rewrite Hst. apply status_le_refl. }
  destruct (run_status_mono w s s' Hrun Hs) as [Hs' _].
  destruct (run_same_id w s s' Hrun) as (_ & _ & _ & Etag & _).
  split; [exact (run_ext_le w s s' Hrun)|].
  destruct fuel as [|fuel]; [discriminate|]. cbn [ExtractionItem.extract] in Ex.
  destruct (extract_body_result w _ s r s' Ex) as [Hr _].
  destruct (status_backed _ _ Hs') as [Bk Br].
  exists sum. rewrite Hr. cbn. split; [exact Hm|].
  split; [rewrite <- Etag; exact Htag|]. split; assumption.
Qed.

(** The loop of the driver appends one record per input, in order. *)
Lemma extract_list_results w fuel l : forall acc e rs e',
  Driver.extract_list w fuel l acc e = Ok rs e' ->
  ext_le e e' /\
  exists new, rs = (acc ++ new)%list /\ Forall2 (result_of_input w e') l new.
Proof.
  induction l as [|q l IH]; intros acc e rs e'; cbn [Driver.extract_list].
  - unfold ret. intros [= <- <-]. split; [apply ext_le_refl|].
    exists []. split; [now rewrite app_nil_r | constructor].
  - unfold bind.
    destruct (Driver._extract_item w fuel q e) as [r e1|x e1|] eqn:Eq;
      try discriminate.
    destruct (extract_item_result w fuel q e r e1 Eq) as [Hle Hr].
    intros Hl. destruct (IH _ _ _ _ Hl) as (Hle' & new & -> & Hall).
    split; [eapply ext_le_trans; eassumption|].
    exists (r :: new). split; [now rewrite <- app_assoc|].
    constructor; [|exact Hall].
    now apply (result_of_input_mono w e1 e').
Qed.

(** ** Sorting the files of an unpacked directory *)

Lemma ascii_compare_trans a b c :
  Ascii.compare a b = Lt -> Ascii.compare b c = Lt -> Ascii.compare a c = Lt.
Proof.
  unfold Ascii.compare. rewrite !N.compare_lt_iff. lia.
Qed.

Lemma string_compare_lt_trans s1 : forall s2 s3,
  String.compare s1 s2 = Lt -> String.compare s2 s3 = Lt ->
  String.compare s1 s3 = Lt.
Proof.
  induction s1 as [|a s1 IH]; intros [|b s2] [|c s3]; cbn; try discriminate; auto.
  destruct (Ascii.compare a b) eqn:Eab; try discriminate.
  - apply Ascii.compare_eq_iff in Eab as ->.
    destruct (Ascii.compare b c); try discriminate; auto. apply IH.
  - intros _. destruct (Ascii.compare b c) eqn:Ebc; try discriminate.
    + apply Ascii.compare_eq_iff in Ebc as <-. now rewrite Eab.
    + now rewrite (ascii_compare_trans a b c Eab Ebc).
Qed.

Lemma string_leb_trans s1 s2 s3 :
  String.leb s1 s2 = true -> String.leb s2 s3 = true -> String.leb s1 s3 = true.
Proof.
  unfold String.leb.
  destruct (String.compare s1 s2) eqn:E12; try discriminate; intros _.
  - apply String.compare_eq_iff in E12 as ->. auto.
  - destruct (String.compare s2 s3) eqn:E23; try discriminate; intros _.
    + apply String.compare_eq_iff in E23 as <-. now rewrite E12.
    + now rewrite (string_compare_lt_trans _ _ _ E12 E23).
Qed.

Lemma insert_sorted_perm le x l : Permutation (insert_sorted le x l) (x :: l).
Proof.
  induction l as [|y l IH]; cbn; [reflexivity|].
  destruct (le y x); [|reflexivity].
  rewrite IH. apply perm_swap.
Qed.

Lemma sort_by_perm le l : Permutation (sort_by le l) l.
Proof.
  unfold sort_by.
  assert (H : forall acc, Permutation (fold_left (fun acc x => insert_sorted le x acc) l acc)
                                      (l ++ acc)%list).
  { induction l as [|x l IH]; intros acc; cbn; [reflexivity|].
    rewrite IH, insert_sorted_perm. symmetry. apply Permutation_middle. }
  rewrite H. now rewrite app_nil_r.
Qed.

Lemma sort_files_perm l : Permutation (sort_files l) l.
Proof. unfold sort_files. now rewrite !sort_by_perm. Qed.

Section Stable.

Variable le : string -> string -> bool.
Variable R : string -> string -> Prop.
Hypothesis le_total : forall a b, le a b = true \/ le b a = true.
Hypothesis le_trans : forall a b c, le a b = true -> le b c = true -> le a c = true.

(** Inserting an element that comes after all those present in the
    order [R] keeps the list sorted, and keeps [R] among ties. *)
Lemma insert_sorted_stable x l :
  StronglySorted (stable_le le R) l ->
  List.Forall (fun a => R a x) l ->
  StronglySorted (stable_le le R) (insert_sorted le x l).
Proof.
  induction 1 as [|y l Hl IH Hy]; intros HR; cbn.
  - repeat constructor.
  - inversion HR as [|? ? Ryx HR']; subst.
    destruct (le y x) eqn:E.
    + constructor; [now apply IH|].
      rewrite insert_sorted_perm.
      constructor; [|exact Hy]. split; auto.
    + assert (Exy : le x y = true) by (destruct (le_total x y); congruence).
      constructor; [now constructor|].
      constructor; [split; [exact Exy | congruence]|].
      eapply List.Forall_impl; [|exact Hy]. intros z [Hyz _]. split.
      * eapply le_trans; eassumption.
      * intros Hzx. rewrite (le_trans _ _ _ Hyz Hzx) in E. discriminate.
Qed.

Lemma sort_by_stable l :
  StronglySorted R l -> StronglySorted (stable_le le R) (sort_by le l).
Proof.
  unfold sort_by.
  assert (H : forall acc,
    StronglySorted (stable_le le R) acc -> StronglySorted R l ->
    List.Forall (fun a => List.Forall (R a) l) acc ->
    StronglySorted (stable_le le R)
      (fold_left (fun acc x => insert_sorted le x acc) l acc)).
  { induction l as [|x l IH]; intros acc Hacc Hl Hrel; cbn; [exact Hacc|].
    inversion Hl as [|? ? Hl' Hx]; subst.
    apply IH; [|exact Hl'|].
    - apply insert_sorted_stable; [exact Hacc|].
      eapply List.Forall_impl; [|exact Hrel]. intros a Ha.
      now inversion Ha.
    - rewrite insert_sorted_perm.
      constructor; [exact Hx|].
      eapply List.Forall_impl; [|exact Hrel]. intros a Ha. now inversion Ha. }
  intros Hl. apply H; [constructor | exact Hl | constructor].
Qed.

End Stable.

Lemma len_le_total a b : len_le a b = true \/ len_le b a = true.
Proof.
  unfold len_le. destruct (Nat.leb_spec (String.length a) (String.length b)); [now left|].
  right. apply Nat.leb_le. lia.
Qed.

Lemma len_le_trans a b c : len_le a b = true -> len_le b c = true -> len_le a c = true.
Proof. unfold len_le. rewrite !Nat.leb_le. lia. Qed.

(** [files.sort(); files.sort(key=len)]: by length, and alphabetically
    among names of one length. *)
Lemma sort_files_sorted l :
  StronglySorted (fun a b => name_le a b = true) (sort_files l).
Proof.
  unfold sort_files.
  assert (H1 : StronglySorted (fun a b => String.leb a b = true)
                 (sort_by String.leb l)).
  { assert (H0 : StronglySorted (fun _ _ : string => True) l).
    { induction l as [|a l' IH]; constructor; [exact IH|].
      apply List.Forall_forall. auto. }
    pose proof (sort_by_stable String.leb (fun _ _ => True)
                  String.leb_total string_leb_trans l H0) as H.
    revert H. generalize (sort_by String.leb l).
    induction 1 as [|a l' Hl IH Ha]; constructor; auto.
    eapply List.Forall_impl; [|exact Ha]. now intros b [Hb _]. }
  pose proof (sort_by_stable len_le _ len_le_total len_le_trans _ H1) as H.
  change (fun a b => (String.length a <=? String.length b)%nat) with len_le.
  revert H. generalize (sort_by len_le (sort_by String.leb l)).
  induction 1 as [|a l' Hl IH Ha]; constructor; auto.
  eapply List.Forall_impl; [|exact Ha]. intros b [H1' H2'].
  unfold name_le, len_le in *. apply Nat.leb_le in H1'.
  destruct (Nat.ltb_spec (String.length a) (String.length b)); [reflexivity|].
  assert (String.length a = String.length b) as E by lia.
  rewrite E, Nat.eqb_refl. cbn. apply H2'. apply Nat.leb_le. lia.
Qed.

Lemma in_list_In x l : Py.in_list x l = true <-> List.In x l.
Proof.
  unfold Py.in_list. rewrite existsb_exists. split.
  - intros (y & Hy & E). apply String.eqb_eq in E. now subst.
  - intros H. exists x. split; [exact H | apply String.eqb_refl].
Qed.

Lemma list_remove_perm x l :
  List.In x l -> Permutation (x :: list_remove x l) l.
Proof.
  induction l as [|y l IH]; [intros []|]. cbn [list_remove].
  destruct (String.eqb x y) eqn:E.
  - apply String.eqb_eq in E as ->. reflexivity.
  - intros [->|Hin]; [rewrite String.eqb_refl in E; discriminate|].
    rewrite perm_swap. now rewrite IH.
Qed.

Lemma original_name_raises stmts : forall orig x,
  ExtractionItem.original_name stmts orig = inl x -> x = IndexError.
Proof.
  induction stmts as [|stmt rest IH]; intros orig x;
    cbn [ExtractionItem.original_name]; [discriminate|].
  destruct (Py.contains _ stmt); [|apply IH].
  destruct (nth_error (Py.split _ stmt) 1); [apply IH | now intros [= <-]].
Qed.

(** A name is as long as it has code points: [é], one character of code
    233, comes before [zz], as in Python. *)
Lemma sort_files_code_points :
  sort_files [Py.chr 233; "zz"] = [Py.chr 233; "zz"] /\
  sort_files ["zz"; Py.chr 233] = [Py.chr 233; "zz"].
Proof. split; reflexivity. Qed.

(** ** The stages, one by one *)

Section StageFacts.

Import ExtractionItem.

Variable w : World.


Lemma sort_files_length l : List.length (sort_files l) = List.length l.
Proof. apply Permutation_length, sort_files_perm. Qed.

Lemma order_files_plain desc files :
  Py.contains "original file name:" desc = false ->
  order_files desc files = inr (sort_files files).
Proof. intros H. unfold order_files. rewrite H. now rewrite andb_false_r. Qed.

(** Putting the original name first loses no file. *)
Lemma order_files_perm desc files l :
  order_files desc files = inr l -> Permutation l files.
Proof.
  unfold order_files.
  destruct (truthy (Some desc) && Py.contains "original file name:" desc).
  2:{ intros [= <-]. apply sort_files_perm. }
  destruct (original_name _ None) as [x|[o|]]; [discriminate| |].
  - destruct (truthy (Some o) && Py.in_list o (sort_files files)) eqn:Ei.
    + apply andb_true_iff in Ei as [_ Ei]. apply in_list_In in Ei.
      intros [= <-]. rewrite (list_remove_perm o _ Ei). apply sort_files_perm.
    + intros [= <-]. apply sort_files_perm.
  - intros [= <-]. apply sort_files_perm.
Qed.

(** Whether the order raises is decided by the description alone. *)
Lemma order_files_raises desc files x :
  order_files desc files = inl x ->
  x = IndexError /\ Py.contains "original file name:" desc = true /\
  forall files', order_files desc files' = inl IndexError.
Proof.
  unfold order_files.
  destruct (truthy (Some desc) && Py.contains "original file name:" desc) eqn:E;
    [|discriminate].
  apply andb_true_iff in E as [_ Ec].
  destruct (original_name _ None) as [y|[o|]] eqn:Eo.
  - intros [= <-]. pose proof (original_name_raises _ _ _ Eo) as ->.
    repeat split; auto.
  - now destruct (truthy (Some o) && Py.in_list o (sort_files files)).
  - discriminate.
Qed.

(** The count of [_check_recursive] runs on over the directories of one
    walk. *)
Lemma walk_loop_count desc dirs :
  (forall p, w_md5 w p <> None) ->
  (forall x, order_files desc [] <> inl x) ->
  forall count s, (count <= 6)%nat ->
  exists s',
    self s' = (if (6 - count <? total_files dirs)%nat
               then set_terminate true (self s) else self s) /\
    walk_loop w never_complete desc dirs count s
    = Ok (if (6 - count <? total_files dirs)%nat
          then Return true else Continue (count + total_files dirs)%nat) s' /\
    children_of (depth (self s)) (log (ext s'))
    = (Nat.min (6 - count) (total_files dirs)
       + children_of (depth (self s)) (log (ext s)))%nat.
Proof.
  intros Hmd5 Hdesc.
  induction dirs as [|[root files] dirs IH]; intros count s Hc.
  - exists s. unfold total_files. cbn.
    replace (6 - count <? 0)%nat with false by (symmetry; apply Nat.ltb_ge; lia).
    rewrite Nat.add_0_r, Nat.min_0_r. repeat split.
  - cbn [walk_loop].
    destruct (order_files desc files) as [x|ordered] eqn:Eord.
    { exfalso. apply order_files_raises in Eord as (_ & _ & Hall).
      exact (Hdesc _ (Hall [])). }
    unfold lift, bind at 1, ret at 1.
    destruct (files_loop_count w root ordered Hmd5 count s Hc)
      as (s1 & Hs1 & E1 & Hn1).
    rewrite (Permutation_length (order_files_perm _ _ _ Eord)) in Hs1, E1, Hn1.
    assert (Hd1 : depth (self s1) = depth (self s)).
    { rewrite Hs1. now destruct (_ <? _)%nat. }
    assert (Ht : total_files ((root, files) :: dirs)
                 = (List.length files + total_files dirs)%nat).
    { unfold total_files. cbn. now rewrite length_app. }
    rewrite Ht. unfold bind. rewrite E1.
    destruct (6 - count <? List.length files)%nat eqn:E.
    + apply Nat.ltb_lt in E. exists s1.
      replace (6 - count <? List.length files + total_files dirs)%nat with true
        by (symmetry; apply Nat.ltb_lt; lia).
      split; [exact Hs1|]. split; [reflexivity|]. rewrite Hn1. lia.
    + apply Nat.ltb_ge in E.
      destruct (IH (count + List.length files)%nat s1 ltac:(lia))
        as (s' & Hd & E' & Hn).
      assert (Hcond : (6 - (count + List.length files) <? total_files dirs)%nat
                      = (6 - count <? List.length files + total_files dirs)%nat).
      { destruct (6 - count <? List.length files + total_files dirs)%nat eqn:E2;
          [apply Nat.ltb_lt in E2; apply Nat.ltb_lt
          | apply Nat.ltb_ge in E2; apply Nat.ltb_ge]; lia. }
      rewrite Hcond in Hd, E'. rewrite Hs1 in Hd.
      exists s'. split; [exact Hd|]. split.
      * rewrite E'. now rewrite Nat.add_assoc.
      * rewrite Hd1 in Hn. rewrite Hn, Hn1. lia.
Qed.

(** A fragment that holds one of the keys holds a colon, so the field
    after the first colon exists: the parser of the TP-Link fields can
    fail on the number only. *)
Lemma prefix_In k : forall s c,
  String.prefix k s = true ->
  List.In c (list_ascii_of_string k) -> List.In c (list_ascii_of_string s).
Proof.
  induction k as [|a k IH]; intros [|b s] c; cbn; try easy.
  destruct (ascii_dec a b) as [->|]; [|discriminate].
  intros Hp [->|Hin]; [now left | right; eauto].
Qed.

Lemma contains_In k s c :
  Py.contains k s = true ->
  List.In c (list_ascii_of_string k) -> List.In c (list_ascii_of_string s).
Proof.
  induction s as [|b s IH]; cbn [Py.contains]; intros H Hin.
  - rewrite orb_false_r in H. now apply (prefix_In k EmptyString c).
  - apply orb_true_iff in H as [H|H]; [now apply (prefix_In k)|].
    cbn. right. now apply IH.
Qed.

Lemma split_nonempty sep s : Py.split sep s <> [].
Proof.
  destruct s as [|c s]; cbn; [discriminate|].
  destruct (Ascii.eqb c sep); [discriminate|].
  destruct (Py.split sep s); discriminate.
Qed.

Lemma split_has_sep sep s :
  List.In sep (list_ascii_of_string s) ->
  exists a b rest, Py.split sep s = a :: b :: rest.
Proof.
  induction s as [|c s IH]; cbn [list_ascii_of_string Py.split]; [intros []|].
  destruct (Ascii.eqb c sep) eqn:E.
  - intros _. pose proof (split_nonempty sep s).
    destruct (Py.split sep s) as [|b rest]; [congruence|]. now eexists _, _, _.
  - intros [->|Hin]; [rewrite Ascii.eqb_refl in E; discriminate|].
    destruct (IH Hin) as (a & b & rest & ->). now eexists _, _, _.
Qed.

Lemma hex_field_raises stmt x :
  List.In ":"%char (list_ascii_of_string stmt) ->
  hex_field stmt = inl x -> x = ValueError.
Proof.
  intros Hin. unfold hex_field.
  destruct (split_has_sep _ _ Hin) as (a & b & rest & ->). cbn [nth_error].
  destruct (Py.int16 b); [discriminate | now intros [= <-]].
Qed.

Lemma tplink_fields_raises stmts : forall acc x,
  tplink_fields stmts acc = inl x -> x = ValueError.
Proof.
  induction stmts as [|stmt rest IH]; intros [[[ko ks] ro] rs] x;
    cbn [tplink_fields]; [discriminate|].
  repeat match goal with
  | |- (if Py.contains ?k stmt then _ else _) = _ -> _ =>
      let E := fresh "E" in
      destruct (Py.contains k stmt) eqn:E;
      [ assert (List.In ":"%char (list_ascii_of_string stmt))
          by (apply (contains_In k); [exact E | cbn; tauto]);
        destruct (hex_field stmt) eqn:?;
        [ intros [= <-]; eapply hex_field_raises; eassumption | apply IH ]
      | ]
  end.
  apply IH.
Qed.

(** Sizes derived from the offsets make the kernel end where the root
    file system starts, and the root file system end with the file. *)
Lemma tplink_derived file_size ko ro :
  ko <> 0 ->
  tplink_sizes file_size (ko, 0, ro, 0) = (ko, ro - ko, ro, file_size - ro) /\
  (tplink_sane file_size (ko, ro - ko, ro, file_size - ro) = true
   <-> ko < ro /\ ro < file_size).
Proof.
  intros Hk. split.
  - unfold tplink_sizes. apply Z.eqb_neq in Hk. now rewrite Hk.
  - unfold tplink_sane.
    rewrite !andb_true_iff, negb_true_iff, Z.ltb_lt, !Z.leb_le, Z.eqb_neq. lia.
Qed.

Lemma tplink_given file_size ko ks ro rs :
  ks <> 0 \/ rs <> 0 ->
  tplink_sizes file_size (ko, ks, ro, rs) = (ko, ks, ro, rs).
Proof.
  intros H. unfold tplink_sizes.
  destruct (ks =? 0) eqn:E1; [|now rewrite andb_false_r].
  destruct (rs =? 0) eqn:E2; [|now rewrite andb_false_r].
  apply Z.eqb_eq in E1, E2. lia.
Qed.

(** What carving a child does: the temp file is made first; a range
    that [io_dd] refuses raises there, with nothing copied and no child;
    a range it accepts is logged as copied, and the temp file is then
    hashed, made a child at the same depth with the same tag, and
    extracted. *)
Lemma carve_child_cases (rec : M St Result) (o n : Z) (s : St) :
  let i := self s in
  let tmp_path := w_mkstemp w (tmp_count (ext s)) (temp i) in
  n <> 0 ->
  (o < 0 \/ OFFSET_BOUND <= o \/ n < -1 \/ OFFSET_BOUND <= n ->
   exists x e1,
     carve_child w rec o n s = Raise x (mkSt i e1) /\
     log e1 = log (ext s) /\ tmp_count e1 = S (tmp_count (ext s)) /\
     same_config e1 (ext s) /\ visited e1 = visited (ext s) /\
     (- OFFSET_BOUND <= o < 0 -> x = OSError)) /\
  (0 <= o < OFFSET_BOUND -> -1 <= n < OFFSET_BOUND ->
   exists e2,
     log e2 = EvDd (item i) o n tmp_path :: log (ext s) /\
     tmp_count e2 = S (tmp_count (ext s)) /\
     same_config e2 (ext s) /\ visited e2 = visited (ext s) /\
     carve_child w rec o n s
     = match init w e2 tmp_path (depth i) (Some (tag i)) with
       | None => Raise OSError (mkSt i e2)
       | Some child =>
           match rec (mkSt child (add_event (EvItem tmp_path (depth i) (tag child)) e2)) with
           | Ok r s' => Ok r (mkSt i (ext s'))
           | Raise x s' => Raise x (mkSt i (ext s'))
           | OutOfFuel => OutOfFuel
           end
       end).
Proof.
  cbv zeta. intros Hn. apply Z.eqb_neq in Hn.
  unfold carve_child, mkstemp, io_dd, new_item, call_extract, emit,
    bind, gets, modify, ret, raise.
  rewrite Hn. cbn [self ext on_ext]. split.
  - intros Hbad.
    assert (Hst : forall x, (- OFFSET_BOUND <= o < 0 -> x = OSError) ->
              exists y e1,
                Raise (A := Result) x (mkSt (self s) (bump_tmp (ext s)))
                = Raise y (mkSt (self s) e1) /\
                log e1 = log (ext s) /\ tmp_count e1 = S (tmp_count (ext s)) /\
                same_config e1 (ext s) /\ visited e1 = visited (ext s) /\
                (- OFFSET_BOUND <= o < 0 -> y = OSError)).
    { intros x Hx. exists x, (bump_tmp (ext s)). repeat split. exact Hx. }
    destruct ((o <? - OFFSET_BOUND) || (OFFSET_BOUND <=? o)) eqn:E1.
    { apply Hst. intros [H1 H2]. exfalso.
      apply orb_true_iff in E1 as [E|E];
        [apply Z.ltb_lt in E|apply Z.leb_le in E]; unfold OFFSET_BOUND in *; lia. }
    apply orb_false_iff in E1 as [E1a E1b].
    apply Z.ltb_ge in E1a. apply Z.leb_gt in E1b.
    destruct (o <? 0) eqn:E2; [apply Hst; reflexivity|].
    apply Z.ltb_ge in E2.
    destruct ((n <? - OFFSET_BOUND) || (OFFSET_BOUND <=? n)) eqn:E3.
    { apply Hst. lia. }
    apply orb_false_iff in E3 as [E3a E3b].
    apply Z.ltb_ge in E3a. apply Z.leb_gt in E3b.
    destruct (n <? -1) eqn:E4; [apply Hst; lia|].
    apply Z.ltb_ge in E4. exfalso. lia.
  - intros [Ho1 Ho2] [Hn1 Hn2].
    assert (E1 : ((o <? - OFFSET_BOUND) || (OFFSET_BOUND <=? o)) = false).
    { apply orb_false_iff. split; [apply Z.ltb_ge|apply Z.leb_gt];
        unfold OFFSET_BOUND in *; lia. }
    assert (E2 : (o <? 0) = false) by (apply Z.ltb_ge; lia).
    assert (E3 : ((n <? - OFFSET_BOUND) || (OFFSET_BOUND <=? n)) = false).
    { apply orb_false_iff. split; [apply Z.ltb_ge|apply Z.leb_gt];
        unfold OFFSET_BOUND in *; lia. }
    assert (E4 : (n <? -1) = false) by (apply Z.ltb_ge; lia).
    rewrite E1, E2, E3, E4. cbn [self ext on_ext].
    exists (add_event
              (EvDd (item (self s)) o n
                 (w_mkstemp w (tmp_count (ext s)) (temp (self s))))
              (bump_tmp (ext s))).
    split; [reflexivity|]. split; [reflexivity|].
    split; [repeat split|]. split; [reflexivity|].
    unfold on_ext. cbn [self ext].
    destruct (init w _ _ _ _) as [child|]; [|reflexivity].
    cbn [self ext]. destruct (rec _); reflexivity.
Qed.

End StageFacts.

(** ** Walking a directory *)

Section WalkFacts.

Variable islink : string -> bool.

Lemma fsnode_nested_ind (P : fsnode -> Prop) :
  P FsFile ->
  (forall l, List.Forall (fun e => P (snd e)) l -> P (FsDir l)) ->
  forall t, P t.
Proof.
  intros Hf Hd. fix IH 1. intros [|l]; [exact Hf|].
  apply Hd. induction l as [|[n sub] l IHl]; constructor; [apply IH | exact IHl].
Qed.

Lemma walk_dir root l :
  walk islink root (FsDir l)
  = (root, file_names l) :: walk_below islink root l.
Proof.
  cbn [walk]. f_equal.
  induction l as [|[n sub] l IH]; [reflexivity|].
  cbn [walk_below flat_map fst snd]. f_equal. exact IH.
Qed.

Lemma in_file_names root l p :
  List.In p (map (Py.path_join root) (file_names l)) <->
  exists name, List.In (name, FsFile) l /\ p = Py.path_join root name.
Proof.
  unfold file_names. rewrite List.in_map_iff. split.
  - intros (name & <- & Hin).
    apply List.in_map_iff in Hin as ([n sub] & Hn & Hf).
    apply List.filter_In in Hf as [Hin Hd]. cbn [fst snd] in *. subst.
    destruct sub; [|discriminate]. eauto.
  - intros (name & Hin & ->). exists name. split; [reflexivity|].
    apply List.in_map_iff. exists (name, FsFile). split; [reflexivity|].
    apply List.filter_In. auto.
Qed.

(** The walk reaches every file below the directory that no symbolic
    link to a directory hides, and nothing else. *)
Lemma walk_files_iff t : forall root p,
  List.In p (joined (walk islink root t)) <-> file_at islink root t p.
Proof.
  induction t as [|l H] using fsnode_nested_ind; intros root p.
  - split; [intros []|inversion 1].
  - rewrite List.Forall_forall in H. rewrite walk_dir.
    unfold joined. cbn [flat_map]. rewrite List.in_app_iff, in_file_names.
    split.
    + intros [(name & Hin & ->)|Hb]; [now apply file_here|].
      apply List.in_flat_map in Hb as ([r fs] & Hw & Hp).
      apply List.in_flat_map in Hw as ([n sub] & Hin & Hw). cbn [fst snd] in Hw.
      destruct (islink (Py.path_join root n)) eqn:El; [destruct Hw|].
      apply (file_below islink root l n sub); [exact Hin|exact El|].
      apply (H (n, sub) Hin). apply List.in_flat_map. exists (r, fs). auto.
    + inversion 1 as [? ? name Hin|? ? name sub ? Hin El Hat]; subst.
      * left. eauto.
      * right. apply (H (name, sub) Hin) in Hat.
        apply List.in_flat_map in Hat as (rf & Hw & Hp).
        apply List.in_flat_map. exists rf. split; [|exact Hp].
        apply List.in_flat_map. exists (name, sub). split; [exact Hin|].
        cbn [fst snd]. now rewrite El.
Qed.

(** Each of them once. *)
Lemma walk_files_count t : forall root,
  (List.length (joined (walk islink root t)) + (if isdir t then 0%nat else 1%nat))%nat
  = count_files islink root t.
Proof.
  induction t as [|l H] using fsnode_nested_ind; intros root; [reflexivity|].
  rewrite walk_dir. unfold joined. cbn [flat_map isdir count_files].
  rewrite List.length_app, List.length_map.
  fold (joined (walk_below islink root l)).
  induction H as [|[n sub] l Hsub Hl IH]; [reflexivity|].
  cbn [snd] in Hsub. specialize (Hsub (Py.path_join root n)).
  unfold walk_below, joined in *. cbn [flat_map fst snd].
  rewrite List.flat_map_app, List.length_app.
  unfold file_names in *. cbn [List.filter snd].
  destruct (islink (Py.path_join root n)), (isdir sub) eqn:Ed;
    cbn [negb andb map List.length flat_map] in *; try lia.
  destruct sub; [|discriminate]. cbn in *. lia.
Qed.

End WalkFacts.

(** ** binwalkInterface.py *)

Section BinwalkFacts.

Import BinwalkInterface.

Lemma drop_chars_app (a b : string) : drop_chars (String.length a) (a +:+ b) = b.
Proof. induction a as [|c a IH]; [now destruct b | exact IH]. Qed.

(** A path under the guest directory is moved under the host
    directory. *)
Lemma replace_first_prefix (old new rest : string) :
  replace_first old new (old +:+ rest) = new +:+ rest.
Proof.
  destruct (old +:+ rest) eqn:E; cbn [replace_first];
    rewrite <- E, prefix_app, drop_chars_app; reflexivity.
Qed.

Lemma contains_prefix k s : String.prefix k s = true -> Py.contains k s = true.
Proof. intros H. destruct s; cbn [Py.contains]; now rewrite H. Qed.

(** A path that does not hold the guest directory is left as it is. *)
Lemma replace_first_absent (old new s : string) :
  Py.contains old s = false -> replace_first old new s = s.
Proof.
  induction s as [|c s IH]; cbn [Py.contains replace_first]; intros H.
  - apply orb_false_iff in H as [-> _]. reflexivity.
  - apply orb_false_iff in H as [-> H]. now rewrite IH.
Qed.

Lemma parse_file_spec xs hostOut guestOut file :
  match parse_file xs hostOut guestOut file with
  | Some d => complete_entry xs file = true /\
              parsed_from xs hostOut guestOut file d
  | None => complete_entry xs file = false
  end.
Proof.
  unfold parse_file, complete_entry, parsed_from.
  destruct (f_offset file) as [offset|]; [|reflexivity].
  destruct (f_id file) as [id|]; [|reflexivity].
  destruct (f_size file) as [size|]; [|reflexivity].
  destruct (f_confidence file); cbn; [|now destruct (f_description file)].
  destruct (f_description file) as [description|]; cbn; [|reflexivity].
  destruct (xs !! id) as [x|] eqn:Ex; cbn.
  - destruct (x_output_directory x) as [o|] eqn:E4; cbn;
      [|now destruct (x_size x), (x_success x), (x_extractor x)].
    destruct (x_size x) as [sz|] eqn:E1; cbn; [|reflexivity].
    destruct (x_success x) as [ok|] eqn:E2; cbn; [|reflexivity].
    destruct (x_extractor x) as [ex|] eqn:E3; cbn; [|reflexivity].
    rewrite Ex. repeat split.
    exists (Binwalk.mkExtractedFile sz ok ex (replace_first guestOut hostOut o)), o.
    repeat split; assumption.
  - rewrite Ex. repeat split.
Qed.

(** The parser keeps the complete elements, in their order. *)
Lemma omap_parse_file xs hostOut guestOut files :
  Forall2 (parsed_from xs hostOut guestOut)
    (List.filter (complete_entry xs) files)
    (omap (parse_file xs hostOut guestOut) files).
Proof.
  induction files as [|file files IH]; cbn; [constructor|].
  pose proof (parse_file_spec xs hostOut guestOut file) as H.
  destruct (parse_file xs hostOut guestOut file) as [d|].
  - destruct H as [-> H]. now constructor.
  - now rewrite H.
Qed.

Lemma last_two {A} (l : list A) (a b d : A) :
  List.last (l ++ [a; b]) d = b.
Proof.
  replace (l ++ [a; b])%list with ((l ++ [a]) ++ [b])%list
    by (now rewrite <- app_assoc).
  apply last_last.
Qed.

End BinwalkFacts.

Lemma generateDockerArgs_logDir h filePath verbose extract recursive searchAll
    excludeSignatures includeSignatures outputDirectory args volumes logDir pair :
  BinwalkInterface.generateDockerArgs h filePath verbose extract recursive
    searchAll excludeSignatures includeSignatures outputDirectory
  = (args, volumes, logDir, pair) ->
  logDir = BinwalkInterface.h_mkdtemp h.
Proof.
  unfold BinwalkInterface.generateDockerArgs. cbv zeta.
  destruct (negb _); now intros [= _ _ <- _].
Qed.

(** What [parseBinwalkLog] raises. *)
Lemma parse_error_cases logFile hostOut guestOut x :
  BinwalkInterface.parseBinwalkLog logFile hostOut guestOut = inl x ->
  (x = OSError /\ logFile = BinwalkInterface.Unreadable) \/
  (x = UnicodeDecodeError /\ logFile = BinwalkInterface.NotText) \/
  x = RuntimeError.
Proof.
  destruct logFile as [| | | |[|[logData|] more]];
    cbn [BinwalkInterface.parseBinwalkLog]; intros [= <-]; auto.
Qed.

(* ===================================================================== *)
(** * The claims                                                          *)
(* ===================================================================== *)

Import ExtractionItem.

(** C1. The loop over the files of an unpacked directory stops on
    [count > RECURSION_BREADTH], with [count] starting at zero.  Hence,
    in every world in which the files can be hashed and no child
    completes the item, a directory of [n] files gives [min 6 n]
    children, and [terminate] is set (the loop returning true) exactly
    when [n] is at least seven: the sixth file, five being visited
    already, is still made a child.  An archive of seven files spawns
    six children and terminates; an archive of six files spawns six
    children and never reaches the cap. *)
Theorem breadth_cap_after_six :
  (forall w root files s,
     (forall p, w_md5 w p <> None) ->
     exists s',
       files_loop w never_complete root files 0 s
       = Ok (if (6 <? List.length files)%nat
             then Return true else Continue (List.length files)) s' /\
       terminate (self s')
       = (if (6 <? List.length files)%nat then true else terminate (self s)) /\
       children_of (depth (self s)) (log (ext s'))
       = (Nat.min 6 (List.length files)
          + children_of (depth (self s)) (log (ext s)))%nat) /\
  (forall w rec root f rest s,
     files_loop w rec root (f :: rest) 6 s
     = Ok (Return true) (on_self (set_terminate true) s)) /\
  Examples.children
    (Examples.run (Examples.archive_of (Examples.flat_dir Examples.seven)) 3)
  = Some 6%nat /\
  Examples.terminated
    (Examples.run (Examples.archive_of (Examples.flat_dir Examples.seven)) 3)
  = Some true /\
  Examples.children
    (Examples.run (Examples.archive_of (Examples.flat_dir Examples.six)) 3)
  = Some 6%nat /\
  Examples.terminated
    (Examples.run (Examples.archive_of (Examples.flat_dir Examples.six)) 3)
  = Some false.
Proof.
  split.
  { intros w root files s Hmd5.
    destruct (files_loop_count w root files Hmd5 0%nat s ltac:(lia))
      as (s' & Hs & E & Hn).
    exists s'. cbn [Nat.sub Nat.add] in Hs, E, Hn. split; [exact E|].
    split; [|exact Hn]. rewrite Hs.
    now destruct (6 <? List.length files)%nat. }
  split; [reflexivity|].
  repeat split; vm_compute; reflexivity.
Qed.

Lemma breadth_cap_after_six_witness :
  exists s',
    files_loop Examples.plain never_complete Examples.unpacked Examples.seven 0
      (mkSt (Examples.top Examples.plain Examples.fresh) Examples.fresh)
    = Ok (Return true) s' /\
    terminate (self s') = true /\
    children_of 0 (log (ext s')) = 6%nat.
Proof.
  apply (proj1 breadth_cap_after_six Examples.plain Examples.unpacked
           Examples.seven
           (mkSt (Examples.top Examples.plain Examples.fresh) Examples.fresh)).
  intros p. discriminate.
Defined.

(** C2.  The check and the insertion are made on the extractor object
    of the process the item runs in.  With the worker pool every task
    unpickles a copy of its own, so two inputs with the same content,
    handled by different tasks, both find their checksum absent and both
    enter their cascade; in the serial loop on the same input the second
    one returns at the check.  Evaluated on a directory with two files
    of equal checksum, with four workers. *)
Theorem pool_tasks_repeat_cascade :
  (exists rs e',
     Driver.extract_pool PoolScenario.world 2 4 "/in" PoolScenario.start
     = Ok rs e' /\
     List.length rs = 2%nat /\
     cascade_sums (log e') = ["d41d8"; "d41d8"] /\
     List.filter is_scan (log e') <> []) /\
  (exists rs e',
     Driver.extract PoolScenario.world 2 "/in" PoolScenario.start
     = Ok rs e' /\
     List.length rs = 2%nat /\
     cascade_sums (log e') = ["d41d8"]).
Proof.
  split; eexists; eexists; (split; [vm_compute; reflexivity|]);
    repeat split; discriminate.
Qed.



(** C4. [io_find_rootfs] on a directory first follows the chain of
    single-child directories from [start] to [(path, d)].  With at least
    four canonical UNIX subdirectories in [d] it returns [(True, path)];
    otherwise, with [recurse=True], it returns the result of the first
    subdirectory of [d] on which the call with [recurse=False] hits, and
    [(False, start)] when there is none or when [recurse=False].  For trees
    whose names are valid directory entries, [(True, path)] is returned
    exactly when [d] has the four subdirectories. *)
Theorem io_find_rootfs_spec (start : string) (l : list (string * fsnode))
    (recurse : bool) (path : string) (d : fsnode) :
  collapses start (FsDir l) path d ->
  let hits := List.length (unix_subdirs d) in
  let res := Extractor.io_find_rootfs start (FsDir l) recurse in
  ((4 <= hits)%nat -> res = Some (true, path)) /\
  ((hits < 4)%nat -> recurse = true ->
     res = match List.find (hit_in path) (entries d) with
           | Some e => Extractor.io_find_rootfs
                         (Py.path_join path (fst e)) (snd e) false
           | None => Some (false, start)
           end) /\
  ((hits < 4)%nat -> recurse = false -> res = Some (false, start)) /\
  (wf_names (FsDir l) -> (res = Some (true, path) <-> (4 <= hits)%nat)).
Proof.
  intros Hcol. pose proof (collapses_fun _ _ _ _ Hcol) as Hc.
  cbv zeta. rewrite io_find_rootfs_cases. cbv zeta. rewrite Hc. cbn [fst snd].
  destruct (4 <=? List.length (unix_subdirs d))%nat eqn:E.
  - apply Nat.leb_le in E. repeat split; intros; try lia; reflexivity.
  - apply Nat.leb_gt in E. split; [lia|]. split; [|split].
    + intros _ ->. reflexivity.
    + intros _ ->. reflexivity.
    + intros Hwf. split; [|lia]. intros H. exfalso.
      destruct recurse; [|discriminate].
      destruct (List.find (hit_in path) (entries d)) as [[n sub]|] eqn:F;
        [|discriminate].
      apply find_some in F as [Hin _]. cbn [fst snd] in H.
      destruct (collapse_length (FsDir l) start Hwf) as [_ Hwd].
      rewrite Hc in Hwd. cbn [snd] in Hwd.
      assert (valid_name n = true /\ wf_names sub) as [Hv Hs].
      { destruct d as [|ld]; [destruct Hin|]. cbn in Hin.
        inversion Hwd as [|? HF]; subst.
        exact (proj1 (List.Forall_forall _ _) HF _ Hin). }
      pose proof (norecurse_hit_path _ _ _ Hs H).
      pose proof (path_join_longer path n Hv). lia.
Qed.

Lemma io_find_rootfs_spec_witness :
  collapses "/o" (FsDir [("fs_1", Examples.rootfs_tree)])
            "/o/fs_1" Examples.rootfs_tree /\
  Extractor.io_find_rootfs "/o" (FsDir [("fs_1", Examples.rootfs_tree)]) true
  = Some (true, "/o/fs_1").
Proof.
  assert (H : collapses "/o" (FsDir [("fs_1", Examples.rootfs_tree)])
                        "/o/fs_1" Examples.rootfs_tree).
  { apply collapses_step. apply collapses_stop.
    intros (n & l & H). discriminate H. }
  split; [exact H|].
  apply (proj1 (io_find_rootfs_spec "/o" _ true "/o/fs_1"
                                     Examples.rootfs_tree H)).
  apply Nat.leb_le. vm_compute. reflexivity.
Defined.

(** C5, as stated, fails: a uImage artifact that fits the file is not
    carved when the kernel flag of the item is already set, here because
    no kernel is asked for. *)
Lemma uimage_skipped_when_kernel_done :
  Binwalk.offset Examples.uimage_entry + 64 + 100
  <= w_getsize Examples.uimage_world Examples.firmware /\
  firmware_entries Examples.uimage_world (extract Examples.uimage_world 1)
    [Examples.uimage_entry]
    (mkSt (Examples.top Examples.plain no_kernel) no_kernel)
  = Ok (VBool false) (mkSt (Examples.top Examples.plain no_kernel) no_kernel).
Proof. split; [vm_compute; discriminate | vm_compute; reflexivity]. Qed.

(** C5, amended.  An artifact whose description holds "uImage header"
    and "OS Kernel Image" is passed over when the kernel flag of the
    item is set.  Met while the kernel flag is unset, the kernel offset is the artifact's offset plus 64 and the kernel
    size is read from the last fragment that holds "image size:": all
    its digit characters, in base 10 (the digits after the key when none
    comes before it).  When [int] refuses them the stage raises
    [ValueError].  With a size of zero or a range that ends beyond the
    file nothing is carved and the loop goes on to the next artifact.
    Otherwise a temp file is made; a negative offset makes the copy
    raise, and nothing is logged as carved; else the range is copied,
    the temp file becomes a child item at the same depth with the
    parent's tag, and the stage returns what the child's [extract()]
    returns. *)
Theorem uimage_stage (w : World) (rec : M St Result)
    (entry : Binwalk.DetectedFile) (rest : list Binwalk.DetectedFile)
    (s : St) :
  let i := self s in
  let desc := Binwalk.description entry in
  let kernel_offset := Binwalk.offset entry + 64 in
  let tmp_path := w_mkstemp w (tmp_count (ext s)) (temp i) in
  Py.contains "uImage header" desc = true ->
  Py.contains "OS Kernel Image" desc = true ->
  (get_kernel_status i = true ->
   firmware_entries w rec (entry :: rest) s = firmware_entries w rec rest s) /\
  (get_kernel_status i = false ->
  (forall x, image_size (Py.split ","%char desc) 0 = inl x ->
     x = ValueError /\
     firmware_entries w rec (entry :: rest) s = Raise ValueError s) /\
  (forall kernel_size,
     image_size (Py.split ","%char desc) 0 = inr kernel_size ->
     0 <= kernel_size /\
     (forall pre f post,
        Py.split ","%char desc = (pre ++ f :: post)%list ->
        Py.contains "image size:" f = true ->
        (forall g, List.In g post -> Py.contains "image size:" g = false) ->
        Py.int10 (Py.digits_of f) = Some kernel_size /\
        kernel_size = Py.int10_acc 0 (Py.digits_of f) /\
        forall a b, f = a +:+ "image size:" +:+ b ->
                    Py.digits_of a = EmptyString ->
                    kernel_size = Py.int10_acc 0 (Py.digits_of b)) /\
     (kernel_size = 0 \/ w_getsize w (item i) < kernel_offset + kernel_size ->
        firmware_entries w rec (entry :: rest) s = firmware_entries w rec rest s) /\
     (kernel_size <> 0 -> kernel_offset + kernel_size <= w_getsize w (item i) ->
        kernel_offset < 0 ->
        exists x e1,
          firmware_entries w rec (entry :: rest) s = Raise x (mkSt i e1) /\
          log e1 = log (ext s) /\ tmp_count e1 = S (tmp_count (ext s)) /\
          same_config e1 (ext s) /\ visited e1 = visited (ext s) /\
          (- OFFSET_BOUND <= kernel_offset -> x = OSError)) /\
     (kernel_size <> 0 -> kernel_offset + kernel_size <= w_getsize w (item i) ->
        0 <= kernel_offset -> w_getsize w (item i) < OFFSET_BOUND ->
        exists e2,
          log e2 = EvDd (item i) kernel_offset kernel_size tmp_path :: log (ext s) /\
          tmp_count e2 = S (tmp_count (ext s)) /\
          same_config e2 (ext s) /\ visited e2 = visited (ext s) /\
          forall child,
            init w e2 tmp_path (depth i) (Some (tag i)) = Some child ->
            item child = tmp_path /\ depth child = depth i /\
            (truthy (Some (tag i)) = true -> tag child = tag i) /\
            firmware_entries w rec (entry :: rest) s =
            match rec (mkSt child (add_event (EvItem tmp_path (depth i) (tag child)) e2)) with
            | Ok r s' => Ok (VDict r) (mkSt i (ext s'))
            | Raise x s' => Raise x (mkSt i (ext s'))
            | OutOfFuel => OutOfFuel
            end))).
Proof.
  cbv zeta. intros Hu Ho. split.
  { intros Hk. cbn [firmware_entries]. unfold bind at 1, gets at 1.
    rewrite Hu, Hk. reflexivity. }
  intros Hk. split.
  { intros x Hx. pose proof (image_size_error _ _ _ Hx) as ->.
    split; [reflexivity|].
    cbn [firmware_entries]. unfold bind at 1, gets at 1.
    rewrite Hu, Hk, Ho. cbn [negb andb]. rewrite Hx. reflexivity. }
  intros kernel_size Hsz.
  assert (Hpos : 0 <= kernel_size).
  { apply (image_size_nonneg _ _ _ Hsz). lia. }
  assert (Hgo : kernel_size <> 0 ->
                Binwalk.offset entry + 64 + kernel_size
                <= w_getsize w (item (self s)) ->
                firmware_entries w rec (entry :: rest) s
                = (r <- carve_child w rec (Binwalk.offset entry + 64) kernel_size ;;
                   ret (VDict r))%py s).
  { intros Hnz Hin.
    cbn [firmware_entries]. unfold bind at 1, gets at 1.
    rewrite Hu, Hk, Ho. cbn [negb andb]. rewrite Hsz.
    unfold lift, bind at 1, ret at 1.
    apply Z.eqb_neq in Hnz. apply Z.leb_le in Hin. rewrite Hnz, Hin.
    reflexivity. }
  split; [exact Hpos|]. split; [|split; [|split]].
  - intros pre f post Hsplit Hf Hpost. rewrite Hsplit in Hsz.
    pose proof (image_size_last pre post f 0 kernel_size Hf Hpost Hsz) as Hi.
    split; [exact Hi|]. destruct (int10_some _ _ Hi) as (Hv & _).
    split; [exact Hv|]. intros a b -> Ha. rewrite Hv, !digits_of_app, Ha.
    reflexivity.
  - intros Hout. cbn [firmware_entries]. unfold bind at 1, gets at 1.
    rewrite Hu, Hk, Ho. cbn [negb andb]. rewrite Hsz.
    unfold lift, bind at 1, ret at 1.
    destruct Hout as [-> | Hlt]; [reflexivity|].
    apply Z.leb_gt in Hlt. rewrite Hlt. now rewrite andb_false_r.
  - intros Hnz Hin Hneg. rewrite (Hgo Hnz Hin).
    unfold carve_child, mkstemp, io_dd, bind, gets, modify, ret, raise.
    apply Z.eqb_neq in Hnz. rewrite Hnz. cbn [self ext on_ext].
    destruct (_ || _) eqn:Eb.
    + exists ValueError, (bump_tmp (ext s)). split; [reflexivity|].
      split; [reflexivity|]. split; [reflexivity|]. split; [repeat split|].
      split; [reflexivity|]. intros Hlow. exfalso.
      apply orb_true_iff in Eb as [Eb|Eb]; [apply Z.ltb_lt in Eb|apply Z.leb_le in Eb];
        unfold OFFSET_BOUND in *; lia.
    + apply Z.ltb_lt in Hneg. rewrite Hneg.
      exists OSError, (bump_tmp (ext s)). repeat split.
  - intros Hnz Hin Hoff Hsize. eexists. split; [|split; [|split; [|split]]].
    5:{ intros child Hchild.
        assert (Hc : item child = w_mkstemp w (tmp_count (ext s)) (temp (self s)) /\
                     depth child = depth (self s) /\
                     (truthy (Some (tag (self s))) = true ->
                      tag child = tag (self s))).
        { unfold init in Hchild. destruct (w_md5 w _); [|discriminate].
          injection Hchild as <-. cbn [item depth tag set_status].
          repeat split. intros Ht.
          destruct (tag (self s)); [discriminate Ht | reflexivity]. }
        destruct Hc as (Hi & Hd & Ht). repeat split; auto.
        rewrite (Hgo Hnz Hin).
        unfold carve_child, mkstemp, io_dd, new_item, call_extract, emit,
          bind, gets, modify, ret, raise.
        apply Z.eqb_neq in Hnz. rewrite Hnz.
        assert (E1 : ((Binwalk.offset entry + 64 <? - OFFSET_BOUND)
                      || (OFFSET_BOUND <=? Binwalk.offset entry + 64)) = false).
        { apply orb_false_iff. split; [apply Z.ltb_ge|apply Z.leb_gt];
            unfold OFFSET_BOUND in *; lia. }
        assert (E2 : (Binwalk.offset entry + 64 <? 0) = false)
          by (apply Z.ltb_ge; lia).
        assert (E3 : ((kernel_size <? - OFFSET_BOUND)
                      || (OFFSET_BOUND <=? kernel_size)) = false).
        { apply orb_false_iff. split; [apply Z.ltb_ge|apply Z.leb_gt];
            unfold OFFSET_BOUND in *; lia. }
        assert (E4 : (kernel_size <? -1) = false) by (apply Z.ltb_ge; lia).
        rewrite E1, E2, E3, E4. cbn [self ext on_ext].
        rewrite Hchild. unfold on_ext. cbn [self ext].
        destruct (rec _); reflexivity. }
    all: try reflexivity.
    repeat split.
Qed.

Lemma uimage_stage_witness :
  exists r s',
    firmware_entries Examples.uimage_world (extract Examples.uimage_world 1)
      [Examples.uimage_entry]
      (mkSt (Examples.top Examples.plain Examples.fresh) Examples.fresh)
    = Ok (VDict r) s' /\
    r_tag r = "fw.bin_md5:/in/fw.bin" /\
    List.In (EvDd "/in/fw.bin" 80 100 "/tmp/tmp0") (log (ext s')).
Proof.
  destruct (uimage_stage Examples.uimage_world (extract Examples.uimage_world 1)
              Examples.uimage_entry []
              (mkSt (Examples.top Examples.plain Examples.fresh) Examples.fresh)
              eq_refl eq_refl) as (_ & H).
  destruct (H eq_refl) as (_ & H0).
  destruct (H0 100 eq_refl) as (_ & _ & _ & _ & H').
  assert (H1 : (100 <> 0)%Z) by discriminate.
  assert (H2 : (Binwalk.offset Examples.uimage_entry + 64 + 100
                <= w_getsize Examples.uimage_world
                     (item (self (mkSt (Examples.top Examples.plain Examples.fresh)
                                       Examples.fresh))))%Z)
    by (vm_compute; discriminate).
  assert (H3 : (0 <= Binwalk.offset Examples.uimage_entry + 64)%Z)
    by (vm_compute; discriminate).
  assert (H4 : (w_getsize Examples.uimage_world
                  (item (self (mkSt (Examples.top Examples.plain Examples.fresh)
                                    Examples.fresh))) < OFFSET_BOUND)%Z)
    by (vm_compute; reflexivity).
  destruct (H' H1 H2 H3 H4) as (e2 & Hlog & Htmp & Hcfg & Hvis & Hch).
  eexists. eexists. split; [vm_compute; reflexivity|].
  split; [reflexivity|]. vm_compute. tauto.
Defined.

(** C6. When the kernel offset parsed from a TP-Link or TRX description
    is zero, the sizes are not derived from the offsets, although both
    offsets are present and both lengths are zero: the test compares the
    kernel offset with the rootfs size.  The entry is then rejected by
    the sanity check and nothing is carved, where the derived sizes would
    have passed it.  With a kernel offset other than zero the sizes are
    derived. *)
Theorem tplink_kernel_offset_zero :
  (forall file_size rootfs_offset,
     tplink_sizes file_size (0, 0, rootfs_offset, 0) = (0, 0, rootfs_offset, 0) /\
     tplink_sane file_size (0, 0, rootfs_offset, 0) = false) /\
  tplink_fields
    (Py.split ","%char (Binwalk.description Examples.tplink_entry)) (0, 0, 0, 0)
  = inr (0, 0, 256, 0) /\
  tplink_sane 512 (0, 256 - 0, 256, 512 - 256) = true /\
  (forall rec,
     firmware_entries Examples.plain rec [Examples.tplink_entry]
       (mkSt (Examples.top Examples.plain Examples.fresh) Examples.fresh)
     = Ok (VBool false)
          (mkSt (Examples.top Examples.plain Examples.fresh) Examples.fresh)) /\
  tplink_sizes 512 (64, 0, 256, 0) = (64, 192, 256, 256).
Proof.
  split; [|split; [|split; [|split]]].
  - intros file_size rootfs_offset. split; reflexivity.
  - vm_compute. reflexivity.
  - reflexivity.
  - intros rec. vm_compute. reflexivity.
  - reflexivity.
Qed.

(** C7. With the kernel flag set the kernel stage does nothing.
    Otherwise it scans for the kernel signatures and looks at the first
    artifact only: whether it returns true is decided by the first
    description alone.  If that description holds "kernel version" or
    "Linux version" and mentions "Linux", the stage returns true, and
    the whole current file has been copied to the kernel path, which is
    a file afterwards; or, without an output path, nothing has been
    copied and [do_kernel] is false afterwards.  In every other case,
    an empty scan included, it returns false and only the scan is
    logged.  Nothing else of the item or the extractor changes.  For an
    item built by [__init__] the kernel path is
    [<output_dir>/<tag>.kernel], and there is none without an output
    directory. *)
Theorem kernel_stage (w : World) (s : St) :
  let i := self s in
  let scan := EvScan (item i) false kernelSignatures in
  (get_kernel_status i = true -> _check_kernel w s = Ok false s) /\
  (get_kernel_status i = false ->
     forall entries,
       w_scan w (item i) false kernelSignatures EmptyString = inr entries ->
       let linux :=
         match entries with
         | [] => false
         | entry :: _ =>
             let desc := Binwalk.description entry in
             (Py.contains "kernel version" desc || Py.contains "Linux version" desc)
             && Py.contains "Linux" desc
         end in
       exists s',
         _check_kernel w s = Ok linux s' /\
         self s' = i /\
         output_dir (ext s') = output_dir (ext s) /\
         do_rootfs (ext s') = do_rootfs (ext s) /\
         visited (ext s') = visited (ext s) /\
         tmp_count (ext s') = tmp_count (ext s) /\
         if linux then
           match get_kernel_path i with
           | Some kernel_path =>
               log (ext s') = EvCopy (item i) kernel_path :: scan :: log (ext s) /\
               fs_files (ext s') = {[kernel_path]} ∪ fs_files (ext s) /\
               isfile (ext s') kernel_path = true /\
               do_kernel (ext s') = do_kernel (ext s)
           | None =>
               log (ext s') = scan :: log (ext s) /\
               fs_files (ext s') = fs_files (ext s) /\
               do_kernel (ext s') = false
           end
         else
           log (ext s') = scan :: log (ext s) /\
           fs_files (ext s') = fs_files (ext s) /\
           do_kernel (ext s') = do_kernel (ext s)) /\
  (forall e path d tg,
     init w e path d tg = Some i ->
     match output_dir e with
     | Some o => truthy (Some o) = true ->
                 get_kernel_path i = Some (Py.path_join o (tag i) +:+ ".kernel")
     | None => get_kernel_path i = None
     end).
Proof.
  cbv zeta. split; [|split].
  - intros Hk. unfold _check_kernel, bind, gets, ret. now rewrite Hk.
  - intros Hk entries Hscan.
    unfold _check_kernel, runBinwalk, shutil_copy, emit, bind, gets, ret, modify.
    rewrite Hk. cbn [negb self on_ext]. rewrite Hscan.
    destruct entries as [|entry rest].
    { eexists. split; [reflexivity|]. repeat split. }
    destruct (Py.contains "kernel version" _ || Py.contains "Linux version" _);
      cbn [andb]; [|eexists; split; [reflexivity|]; repeat split].
    destruct (Py.contains "Linux" _);
      [|eexists; split; [reflexivity|]; repeat split].
    destruct (get_kernel_path (self s)) as [kernel_path|].
    + eexists. split; [reflexivity|]. cbn [self ext on_ext add_file add_event
        output_dir do_rootfs do_kernel visited tmp_count log fs_files].
      repeat split. unfold isfile. cbn [fs_files].
      apply bool_decide_eq_true. set_solver.
    + eexists. split; [reflexivity|]. repeat split.
  - intros e path d tg Hi. unfold init in Hi.
    destruct (w_md5 w path) as [sum|]; [|discriminate].
    injection Hi as Hi. rewrite <- Hi. unfold get_kernel_path.
    cbn [output set_status tag].
    set (tg' := match tg with Some t => _ | None => _ end).
    destruct (output_dir e) as [[|c o]|]; [discriminate| |reflexivity].
    intros _. change (truthy (Some (String c o))) with true. cbv iota.
    now rewrite (path_join_truthy (String c o) tg' eq_refl).
Qed.

Lemma kernel_stage_witness :
  exists s',
    _check_kernel
      (Examples.with_scan kernelSignatures
         [Examples.linux_entry; Examples.vxworks_entry] Examples.plain)
      (mkSt (Examples.top Examples.plain Examples.fresh) Examples.fresh)
    = Ok true s' /\
    isfile (ext s') "/out/fw.bin_md5:/in/fw.bin.kernel" = true /\
    log (ext s')
    = [EvCopy "/in/fw.bin" "/out/fw.bin_md5:/in/fw.bin.kernel";
       EvScan "/in/fw.bin" false kernelSignatures].
Proof.
  destruct (proj1 (proj2
             (kernel_stage
                (Examples.with_scan kernelSignatures
                   [Examples.linux_entry; Examples.vxworks_entry] Examples.plain)
                (mkSt (Examples.top Examples.plain Examples.fresh) Examples.fresh)))
             eq_refl [Examples.linux_entry; Examples.vxworks_entry] eq_refl)
    as (s' & E & _ & _ & _ & _ & _ & Hlog & _ & Hfile & _).
  exists s'. split; [exact E|]. split; [exact Hfile | exact Hlog].
Defined.

(** C8. At construction the kernel flag of an item is true exactly when
    kernel extraction is not requested, or an output directory is set and
    [<output_dir>/<tag>.kernel] exists; likewise the rootfs flag with
    [<output_dir>/<tag>.tar.gz].  An item whose status is complete
    returns success at the first guard and leaves the state as it was.
    So a driver run over inputs that are all complete returns one
    successful result per input without a single scan and without writing
    a file. *)
Theorem complete_items_skip (w : World) (fuel : nat) :
  (forall e path d tg i, init w e path d tg = Some i ->
     get_kernel_status i =
       (if do_kernel e then
          match output_dir e with
          | Some o => truthy (Some o) &&
                      isfile e (Py.path_join o (tag i) +:+ ".kernel")
          | None => false
          end
        else true) /\
     get_rootfs_status i =
       (if do_rootfs e then
          match output_dir e with
          | Some o => truthy (Some o) &&
                      isfile e (Py.path_join o (tag i) +:+ ".tar.gz")
          | None => false
          end
        else true)) /\
  (forall i e, get_status i = true ->
     extract w (S fuel) (mkSt i e) = Ok (mk_result true i) (mkSt i e)) /\
  (forall input e,
     (forall p, List.In p (Driver.input_list w e input) ->
        exists i, init w e p 0 None = Some i /\ get_status i = true) ->
     exists rs e',
       Driver.extract w (S fuel) input e = Ok rs e' /\
       List.length rs = List.length (Driver.input_list w e input) /\
       List.Forall (fun r => r_status r = true) rs /\
       List.filter is_scan (log e') = List.filter is_scan (log e) /\
       fs_files e' = fs_files e).
Proof.
  split; [|split].
  - intros e path d tg i Hi. unfold init in Hi.
    destruct (w_md5 w path) as [sum|]; [|discriminate].
    injection Hi as <-. unfold get_kernel_status, get_rootfs_status.
    cbn [status set_status tag fst snd]. unfold status_flags.
    set (tg' := match tg with Some t => _ | None => _ end).
    unfold get_kernel_path, get_rootfs_path. cbn [output].
    destruct (output_dir e) as [[|c o]|].
    + cbn. rewrite !andb_false_r.
      split; [destruct (do_kernel e) | destruct (do_rootfs e)]; reflexivity.
    + change (truthy (Some (String c o))) with true. cbv iota.
      rewrite (path_join_truthy (String c o) tg' eq_refl).
      rewrite !andb_true_r. cbn [andb isfile_opt].
      split; [destruct (do_kernel e) | destruct (do_rootfs e)]; reflexivity.
    + cbn. rewrite !andb_false_r.
      split; [destruct (do_kernel e) | destruct (do_rootfs e)]; reflexivity.
  - intros i e Hs. cbn [extract]. unfold extract_body, bind, gets, ret.
    cbn [self]. now rewrite Hs.
  - intros input e Hall. unfold Driver.extract.
    assert (Hc : same_config e e) by (repeat split).
    destruct (complete_inputs_do_nothing w fuel e _ Hall [] e Hc)
      as (rs & e' & E & Hlen & Hst & Hlog & Hc' & _).
    exists rs, e'. cbn [app] in E. repeat split; auto. symmetry. apply Hc'.
Qed.

Lemma complete_items_skip_witness :
  exists rs e',
    Driver.extract Examples.plain 1 Examples.firmware Examples.rerun = Ok rs e' /\
    List.length rs = 1%nat /\
    List.Forall (fun r => r_status r = true) rs /\
    List.filter is_scan (log e') = [] /\
    fs_files e' = fs_files Examples.rerun.
Proof.
  apply (proj2 (proj2 (complete_items_skip Examples.plain 0))
           Examples.firmware Examples.rerun).
  intros p Hp. vm_compute in Hp. destruct Hp as [<-|[]].
  eexists. split; vm_compute; reflexivity.
Defined.




(** C10. With [terminate] set, [get_status] is true whatever the two
    flags are, and so is what [update_status] returns.  The breadth cap
    sets [terminate] and makes the stage return true, after which the
    cascade returns a record with status true whose two flags are those
    [update_status] computes; in the archive of seven files below both
    are false. *)
Theorem terminate_gives_success :
  (forall i, terminate i = true -> get_status i = true) /\
  (forall s, terminate (self s) = true ->
     update_status s
     = Ok true (on_self (set_status (status_flags (ext s) (self s))) s)) /\
  (forall w rec root f rest count s, (RECURSION_BREADTH < count)%nat ->
     files_loop w rec root (f :: rest) count s
     = Ok (Return true) (on_self (set_terminate true) s)) /\
  (forall (analysis : M St pyval) rest s v s',
     analysis s = Ok v s' -> truth v = true -> terminate (self s') = true ->
     exists r s'',
       run_analyses (analysis :: rest) s = Ok (Some r) s'' /\
       r_status r = true /\
       (r_kernelDone r, r_rootfsDone r) = status_flags (ext s') (self s')) /\
  Examples.returned
    (Examples.run (Examples.archive_of (Examples.flat_dir Examples.seven)) 3)
  = Some (mkResult true "fw.bin_md5:/in/fw.bin" false false
            (Some "/out/fw.bin_md5:/in/fw.bin.kernel")
            (Some "/out/fw.bin_md5:/in/fw.bin.tar.gz")).
Proof.
  split; [|split; [|split; [|split]]].
  - intros i Ht. unfold get_status. now rewrite Ht.
  - intros s Ht. unfold update_status, bind, gets, modify, get_status.
    cbn [self on_self terminate set_status]. now rewrite Ht.
  - intros w rec root f rest count s Hc. cbn [files_loop].
    apply Nat.ltb_lt in Hc. rewrite Hc. reflexivity.
  - intros analysis rest s v s' Ha Hv Ht. cbn [run_analyses].
    unfold bind at 1. rewrite Ha, Hv.
    unfold update_status, bind, gets, modify, ret, get_status.
    cbn [self on_self terminate set_status]. rewrite Ht. cbn [orb].
    eexists. eexists. split; [reflexivity|]. split; [reflexivity|].
    unfold mk_result, get_kernel_status, get_rootfs_status.
    cbn [r_kernelDone r_rootfsDone self on_self set_status status].
    now destruct (status_flags (ext s') (self s')).
  - vm_compute. reflexivity.
Qed.

Lemma terminate_gives_success_witness :
  get_status Examples.capped_item = true.
Proof.
  apply (proj1 terminate_gives_success Examples.capped_item).
  reflexivity.
Defined.

(* ===================================================================== *)
(** * Further properties of the code                                      *)
(* ===================================================================== *)

(** X1. Every [shutil.copy] and every [shutil.make_archive] made during
    the extraction of an item built by [__init__], at any level of the
    recursion, targets that item's own output: a copy has the whole file
    of an item of the run as source and [<output>.kernel] as
    destination, an archive has [<output>] as base name, children being
    constructed with the parent's tag and so sharing its output prefix.
    Without an output directory neither call is made.  (What is written
    in the directories [tempfile] makes is another matter.) *)
Theorem extract_writes_only_own_outputs (w : World) (fuel : nat) (s s' : St) :
  wf_item (ext s) (self s) ->
  final_state (extract w fuel s) = Some s' ->
  exists new,
    log (ext s') = (new ++ log (ext s))%list /\
    Forall (write_event_ok (output (self s)) (item (self s) :: created new)) new /\
    (truthy (output_dir (ext s)) = false -> List.filter is_write new = []).
Proof.
  intros Hwf Hf. apply extract_final_run in Hf.
  destruct (run_writes_ok w s s' Hf Hwf) as (new & Hlog & Hall).
  exists new. split; [exact Hlog|]. split; [exact Hall|].
  intros Ho. destruct Hwf as [_ Hout].
  assert (E : output (self s) = None).
  { rewrite Hout. unfold output_of.
    destruct (output_dir (ext s)) as [o|]; [|reflexivity]. now rewrite Ho. }
  rewrite E in Hall. clear -Hall.
  induction Hall as [|ev l Hev _ IH]; [reflexivity|].
  cbn [List.filter]. now rewrite (write_event_ok_none _ _ Hev).
Qed.

Lemma extract_writes_only_own_outputs_witness :
  exists s' new,
    final_state (extract Scenarios.kernel_world 2
                   (Scenarios.start Examples.plain Examples.fresh)) = Some s' /\
    log (ext s')
    = (new ++ log (ext (Scenarios.start Examples.plain Examples.fresh)))%list /\
    Forall (write_event_ok
              (output (self (Scenarios.start Examples.plain Examples.fresh)))
              (item (self (Scenarios.start Examples.plain Examples.fresh))
               :: created new)) new.
Proof.
  destruct (final_state (extract Scenarios.kernel_world 2
                           (Scenarios.start Examples.plain Examples.fresh)))
    as [s'|] eqn:E; [|vm_compute in E; discriminate].
  destruct (extract_writes_only_own_outputs Scenarios.kernel_world 2
              (Scenarios.start Examples.plain Examples.fresh) s')
    as (new & Hlog & Hall & _).
  - split; reflexivity.
  - exact E.
  - exists s', new. split; [reflexivity|]. split; [exact Hlog | exact Hall].
Defined.

(** X2. In a run of the serial driver every [shutil.copy] and every
    [shutil.make_archive] targets [<output_dir>/<tag>.kernel] or the
    base name [<output_dir>/<tag>] for the tag [<basename>_<md5>] of
    one of the inputs: what is found inside an input never gets an
    output name of its own.  The output directory setting itself is
    never changed. *)
Theorem driver_outputs_named_after_inputs (w : World) (fuel : nat)
    (input : string) (e e' : ExtractorState) :
  final_state (Driver.extract w fuel input e) = Some e' ->
  output_dir e' = output_dir e /\
  exists new,
    log e' = (new ++ log e)%list /\
    Forall (driver_write_ok w (output_dir e) (Driver.input_list w e input)) new.
Proof. unfold Driver.extract. apply extract_list_writes. Qed.

Lemma driver_outputs_named_after_inputs_witness :
  exists e',
    final_state (Driver.extract Scenarios.rootfs_world 2 Examples.firmware
                   Examples.fresh) = Some e' /\
    output_dir e' = Some "/out" /\
    List.In (EvArchive "/out/fw.bin_md5:/in/fw.bin" "/tmp/tmp0/fs") (log e').
Proof.
  eexists. split; [vm_compute; reflexivity|].
  split; [|vm_compute; tauto].
  apply (proj1 (driver_outputs_named_after_inputs Scenarios.rootfs_world 2
                  Examples.firmware Examples.fresh _ ltac:(vm_compute; reflexivity))).
Defined.

(** X3. The two global flags [do_kernel] and [do_rootfs] are never
    switched on by an extraction, and the output directory never changes.
    A flag is switched off only by an item that has no output prefix: for
    an item built by [__init__] with an output directory, both flags are
    after the call what they were before. *)
Theorem global_flags_only_cleared (w : World) (fuel : nat) (s s' : St) :
  final_state (extract w fuel s) = Some s' ->
  output_dir (ext s') = output_dir (ext s) /\
  (do_kernel (ext s') = true -> do_kernel (ext s) = true) /\
  (do_rootfs (ext s') = true -> do_rootfs (ext s) = true) /\
  (wf_item (ext s) (self s) -> truthy (output (self s)) = true ->
     do_kernel (ext s') = do_kernel (ext s) /\
     do_rootfs (ext s') = do_rootfs (ext s)).
Proof.
  intros Hf. apply extract_final_run in Hf.
  split; [now apply (run_output_dir w)|].
  destruct (run_ext_le w s s' Hf) as (_ & HK & HR).
  split; [exact HK|]. split; [exact HR|].
  now apply (run_flags_kept w).
Qed.

Lemma global_flags_only_cleared_witness :
  exists s',
    final_state (extract Scenarios.kernel_world 2
                   (Scenarios.start Examples.plain Scenarios.no_output)) = Some s' /\
    do_kernel (ext s') = false /\ do_rootfs (ext s') = true /\
    output_dir (ext s') = None.
Proof.
  eexists. split; [vm_compute; reflexivity|].
  split; [reflexivity|]. split; [reflexivity|].
  apply (proj1 (global_flags_only_cleared Scenarios.kernel_world 2
                  (Scenarios.start Examples.plain Scenarios.no_output) _
                  ltac:(vm_compute; reflexivity))).
Defined.

(** X4. The kernel and rootfs flags of an item only go from false to
    true during its [extract()]: an item built by [__init__] holds flags
    that are justified by the files on disk and the global flags, and
    each [update_status] recomputes them from a disk that has only gained
    files and from global flags that were only cleared. *)
Theorem item_status_monotone (w : World) :
  (forall e path d tg i,
     init w e path d tg = Some i -> status_sound (mkSt i e)) /\
  (forall fuel s s',
     status_sound s ->
     final_state (extract w fuel s) = Some s' ->
     status_sound s' /\
     (get_kernel_status (self s) = true -> get_kernel_status (self s') = true) /\
     (get_rootfs_status (self s) = true -> get_rootfs_status (self s') = true)).
Proof.
  split.
  - intros e path d tg i Hi.
    destruct (init_wf w e path d tg i Hi) as (_ & Hs & _).
    unfold status_sound. cbn [self ext]. rewrite Hs at 1. apply status_le_refl.
  - intros fuel s s' Hs Hf. apply extract_final_run in Hf.
    destruct (run_status_mono w s s' Hf Hs) as [H1 [H2 H3]].
    split; [exact H1|]. split; assumption.
Qed.

Lemma item_status_monotone_witness :
  exists s',
    final_state (extract Scenarios.kernel_world 2
                   (Scenarios.start Examples.plain Scenarios.no_output)) = Some s' /\
    status_sound s'.
Proof.
  eexists. split; [vm_compute; reflexivity|].
  apply (proj2 (item_status_monotone Scenarios.kernel_world) 2%nat
           (Scenarios.start Examples.plain Scenarios.no_output)).
  - apply (proj1 (item_status_monotone Examples.plain)
             Scenarios.no_output Examples.firmware 0%nat None).
    reflexivity.
  - vm_compute. reflexivity.
Defined.

(** X5. Every item constructed while an item with a non-empty tag is
    extracted, at any level of the recursion, carries that item's tag,
    is at least as deep as it, and is at depth four at most: items beyond
    [RECURSION_DEPTH] return before they can create children. *)
Theorem descendants_share_tag_within_depth (w : World) (fuel : nat) (s s' : St) :
  truthy (Some (tag (self s))) = true ->
  final_state (extract w fuel s) = Some s' ->
  exists new,
    log (ext s') = (new ++ log (ext s))%list /\
    Forall (child_event_ok (tag (self s)) (depth (self s))) new.
Proof.
  intros Ht Hf. apply extract_final_run in Hf. now apply (run_children w).
Qed.

Lemma descendants_share_tag_within_depth_witness :
  exists s',
    final_state (Examples.run (Examples.archive_of (Examples.flat_dir Examples.six)) 3)
    = Some s' /\
    exists new,
      log (ext s') = (new ++ [])%list /\
      Forall (child_event_ok "fw.bin_md5:/in/fw.bin" 0) new.
Proof.
  eexists. split; [vm_compute; reflexivity|].
  apply (descendants_share_tag_within_depth
           (Examples.archive_of (Examples.flat_dir Examples.six)) 3
           (mkSt (Examples.top (Examples.archive_of (Examples.flat_dir Examples.six))
                               Examples.fresh) Examples.fresh)).
  - reflexivity.
  - vm_compute. reflexivity.
Defined.

(** X6. Every range that is carved out of a file during an extraction,
    at any level of the recursion, is read from the file of an item of
    the run (the item extracted, or one created during its extraction),
    from an offset that is not negative, and passed the check against
    the size of that same file: it has a positive size and ends at or
    before the end of the file, or it has size -1 and is read up to the
    end of the file.  A carve that raises (a negative offset, a size
    below -1) is not among them. *)
Theorem carved_ranges_end_within_file (w : World) (fuel : nat) (s s' : St) :
  final_state (extract w fuel s) = Some s' ->
  exists new,
    log (ext s') = (new ++ log (ext s))%list /\
    Forall (dd_event_ok w (item (self s) :: created new)) new.
Proof. intros Hf. apply extract_final_run in Hf. now apply run_dd_ok. Qed.

Lemma carved_ranges_end_within_file_witness :
  exists s' new,
    final_state (extract Scenarios.tplink_world 3
                   (Scenarios.start Examples.plain Examples.fresh)) = Some s' /\
    log (ext s')
    = (new ++ log (ext (Scenarios.start Examples.plain Examples.fresh)))%list /\
    Forall (dd_event_ok Scenarios.tplink_world
              (item (self (Scenarios.start Examples.plain Examples.fresh))
               :: created new)) new.
Proof.
  destruct (final_state (extract Scenarios.tplink_world 3
                           (Scenarios.start Examples.plain Examples.fresh)))
    as [s'|] eqn:E; [|vm_compute in E; discriminate].
  destruct (carved_ranges_end_within_file Scenarios.tplink_world 3
              (Scenarios.start Examples.plain Examples.fresh) s' E)
    as (new & Hlog & Hall).
  exists s', new. split; [reflexivity|]. split; [exact Hlog | exact Hall].
Defined.

(** X7. The record [extract()] returns is read off the item as it is at
    the return: tag, the two flags and the two paths; the tag and the
    paths are those the item had at the call.  A record with status true
    is returned only by an item that is complete or terminated. *)
Theorem result_reflects_item (w : World) (fuel : nat) (s : St) (r : Result)
    (s' : St) :
  extract w fuel s = Ok r s' ->
  r = mk_result (r_status r) (self s') /\
  r_tag r = tag (self s) /\
  r_kernelPath r = get_kernel_path (self s) /\
  r_rootfsPath r = get_rootfs_path (self s) /\
  (r_status r = true -> get_status (self s') = true).
Proof.
  intros H.
  assert (Hrun : run w s s').
  { apply (extract_final_run w fuel). now rewrite H. }
  destruct (run_same_id w s s' Hrun) as (_ & _ & _ & Etag & Eout).
  destruct fuel as [|fuel]; [discriminate|]. cbn [extract] in H.
  destruct (extract_body_result w _ s r s' H) as [Hr Hs].
  split; [exact Hr|]. rewrite Hr. cbn.
  unfold get_kernel_path, get_rootfs_path. rewrite Etag, Eout.
  repeat split. exact Hs.
Qed.

Lemma result_reflects_item_witness :
  exists r s',
    extract Scenarios.kernel_world 2
      (Scenarios.start Examples.plain Examples.fresh) = Ok r s' /\
    r_tag r = "fw.bin_md5:/in/fw.bin" /\
    r_kernelPath r = Some "/out/fw.bin_md5:/in/fw.bin.kernel".
Proof.
  eexists. eexists. split; [vm_compute; reflexivity|].
  split.
  - apply (proj1 (proj2 (result_reflects_item Scenarios.kernel_world 2
                           (Scenarios.start Examples.plain Examples.fresh) _ _
                           ltac:(vm_compute; reflexivity)))).
  - apply (proj1 (proj2 (proj2 (result_reflects_item Scenarios.kernel_world 2
                           (Scenarios.start Examples.plain Examples.fresh) _ _
                           ltac:(vm_compute; reflexivity))))).
Defined.

(** X8. [extract()] always comes back: every cascade that is entered
    adds a checksum to the visited set that was not in it, so with
    finitely many checksums in the world the recursion ends, also through
    children carved at the parent's own depth.  Fuel beyond the number of
    checksums not yet visited is enough, and the call then returns or
    raises the exception of this item's blacklist probe. *)
Theorem extract_terminates (w : World) (U : gset string) (fuel : nat) (s : St) :
  (forall p c, w_md5 w p = Some c -> c ∈ U) ->
  checksum (self s) ∈ U ->
  (size (U ∖ visited (ext s)) < fuel)%nat ->
  (exists r s', extract w fuel s = Ok r s') \/
  (exists s', extract w fuel s = Raise MagicException s' /\
     (w_magic w (item (self s)) true = None \/
      w_magic w (item (self s)) false = None)).
Proof.
  intros HU Hc Hsz.
  pose proof (extract_total w U HU fuel s Hsz Hc) as H.
  destruct fuel as [|fuel]; [lia|].
  destruct (extract w (S fuel) s) as [r s'|x s'|] eqn:E.
  - left. now exists r, s'.
  - right. exists s'. destruct H as [_ H]. split; [|exact H].
    cbn [extract] in E. revert E.
    unfold extract_body, bind, gets, ret.
    destruct (get_status (self s)); [discriminate|].
    destruct (_ <? _)%nat; [discriminate|].
    unfold visited_guard, bind, gets, ret, modify.
    destruct (bool_decide _); [discriminate|].
    set (s1 := on_ext _ s). unfold after_visited, bind.
    destruct (check_blacklist_cases w s1) as [[b ->]| [-> _]].
    + destruct b; [discriminate|].
      unfold mkdtemp, bind, gets, modify, ret, cascade, catch.
      destruct (try_body w _ _) as [[?|] ?|? ?|]; discriminate.
    + now intros [= <- <-].
  - destruct H.
Qed.

Lemma extract_terminates_witness :
  exists r s',
    extract Examples.scanner_fails 3
      (Scenarios.start Examples.scanner_fails Examples.fresh) = Ok r s'.
Proof.
  destruct (extract_terminates Examples.scanner_fails
              ({["md5:fw"]} ∪ {["md5:other"]}) 3
              (Scenarios.start Examples.scanner_fails Examples.fresh))
    as [H|(s' & H & _)].
  - intros p c H. cbn in H. injection H as <-.
    destruct (String.eqb p Examples.firmware); set_solver.
  - vm_compute. set_solver.
  - apply Nat.ltb_lt. vm_compute. reflexivity.
  - exact H.
  - vm_compute in H. discriminate H.
Defined.

(** X9. [files.sort(); files.sort(key=len)] visits the files of an
    unpacked directory shortest name first, and names of one length in
    ascending order of [str] (the second sort is stable); no name is
    lost or repeated.  Length and order are those of Python on the names
    of the model, whose characters are code points below 256: [é] is one
    character, and sorts before [zz]. *)
Theorem files_sorted_by_length_then_name (files : list string) :
  Permutation (sort_files files) files /\
  StronglySorted (fun a b => name_le a b = true) (sort_files files).
Proof. split; [apply sort_files_perm | apply sort_files_sorted]. Qed.

(** X10. The order in which [_check_recursive] visits the files of one
    directory holds every file exactly once.  It is the sorted order
    (of names whose characters are code points below 256),
    unless the description names an original file that is in the
    directory: that file then comes first and the others keep their
    sorted order.  The only exception is the [IndexError] of a fragment
    that holds "original file name:" without a double quote. *)
Theorem order_files_keeps_every_file (desc : string) (files : list string) :
  match order_files desc files with
  | inr l =>
      Permutation l files /\
      (l = sort_files files \/
       exists o,
         Py.contains "original file name:" desc = true /\
         original_name (Py.split ","%char desc) None = inr (Some o) /\
         List.In o files /\ l = o :: list_remove o (sort_files files))
  | inl x =>
      x = IndexError /\ Py.contains "original file name:" desc = true
  end.
Proof.
  unfold order_files.
  destruct (truthy (Some desc) && Py.contains "original file name:" desc) eqn:E.
  2:{ split; [apply sort_files_perm | now left]. }
  apply andb_true_iff in E as [_ Ec].
  destruct (original_name _ None) as [x|[o|]] eqn:Eo.
  - split; [eapply original_name_raises, Eo | exact Ec].
  - destruct (truthy (Some o) && Py.in_list o (sort_files files)) eqn:Ei.
    + apply andb_true_iff in Ei as [_ Ei]. apply in_list_In in Ei.
      split.
      * rewrite (list_remove_perm o _ Ei). apply sort_files_perm.
      * right. exists o. repeat split; auto.
        eapply Permutation_in; [apply sort_files_perm | exact Ei].
    + split; [apply sort_files_perm | now left].
  - split; [apply sort_files_perm | now left].
Qed.



(** X12. The count that caps the children of an unpacked artifact runs
    on over all the directories of the walk: in a world where every file
    can be hashed and no child completes the item, a tree with [n] files
    in all gives [min 6 n] children, and [terminate] is set exactly when
    [n] is at least seven, however the files are spread over the
    directories and whether or not the description names an original
    file.  The one exception is a description with a fragment that holds
    "original file name:" and no double quote: the first directory of
    the walk then raises [IndexError] and no child is created. *)
Theorem breadth_cap_spans_directories (w : World) (desc : string)
    (dirs : list (string * list string)) (s : St) :
  (forall p, w_md5 w p <> None) ->
  ((forall x, order_files desc [] <> inl x) ->
   exists s',
     walk_loop w never_complete desc dirs 0 s
     = Ok (if (6 <? total_files dirs)%nat
           then Return true else Continue (total_files dirs)) s' /\
     terminate (self s')
     = (if (6 <? total_files dirs)%nat then true else terminate (self s)) /\
     children_of (depth (self s)) (log (ext s'))
     = (Nat.min 6 (total_files dirs)
        + children_of (depth (self s)) (log (ext s)))%nat) /\
  (forall x, order_files desc [] = inl x ->
     x = IndexError /\ Py.contains "original file name:" desc = true /\
     forall root files rest,
       walk_loop w never_complete desc ((root, files) :: rest) 0 s
       = Raise IndexError s).
Proof.
  intros Hmd5. split.
  - intros Hdesc.
    destruct (walk_loop_count w desc dirs Hmd5 Hdesc 0%nat s ltac:(lia))
      as (s' & Ht & E & Hn).
    exists s'. cbn [Nat.sub Nat.add] in E, Hn, Ht. split; [exact E|].
    split; [|exact Hn]. rewrite Ht. now destruct (_ <? _)%nat.
  - intros x Hx. destruct (order_files_raises _ _ _ Hx) as (-> & Hc & Hall).
    split; [reflexivity|]. split; [exact Hc|].
    intros root files rest. cbn [walk_loop]. now rewrite Hall.
Qed.

Lemma breadth_cap_spans_directories_witness :
  exists s',
    walk_loop Examples.plain never_complete Scenarios.gzip_desc
      [("/x", ["a"; "b"; "c"; "d"]); ("/x/y", ["e"; "f"; "g"; "h"])] 0
      (Scenarios.start Examples.plain Examples.fresh)
    = Ok (Return true) s' /\
    terminate (self s') = true /\
    children_of 0 (log (ext s')) = 6%nat.
Proof.
  apply (proj1 (breadth_cap_spans_directories Examples.plain Scenarios.gzip_desc
           [("/x", ["a"; "b"; "c"; "d"]); ("/x/y", ["e"; "f"; "g"; "h"])]
           (Scenarios.start Examples.plain Examples.fresh)
           ltac:(intros p; discriminate))).
  intros x. vm_compute. discriminate.
Defined.



(** X14. The TP-Link/TRX path of the firmware stage.  Reading the four
    fields can fail with [ValueError] only (each key ends in a colon, so
    the field after the colon exists), and the exception leaves the
    stage.  Lengths that are given are used as they are; when only
    offsets are given, with a kernel offset other than zero, the kernel
    is taken to end where the root file system starts and the root file
    system to end with the file, and these derived ranges pass the check
    exactly when [kernel offset < rootfs offset < file size].  Ranges
    that fail the check are skipped.  Ranges that pass it have a
    positive kernel length and end within the file; the stage then
    carves a child for the kernel range and one for the rootfs range and
    returns what [update_status] reports.  Carving a child makes the
    temp file first; a range that passed the check with an offset below
    zero (or a rootfs length below -1) makes the copy raise there
    ([OSError] for the offset), with nothing copied and no child made,
    and the exception leaves the stage; an accepted range is logged as
    copied, and the temp file becomes a child at the same depth with the
    same tag, which is extracted. *)
Theorem tplink_stage (w : World) (rec : M St Result)
    (entry : Binwalk.DetectedFile) (rest : list Binwalk.DetectedFile) (s : St) :
  let i := self s in
  let desc := Binwalk.description entry in
  let file_size := w_getsize w (item i) in
  Py.contains "uImage header" desc = false ->
  get_kernel_status i = false -> get_rootfs_status i = false ->
  Py.contains "rootfs offset: " desc = true ->
  Py.contains "kernel offset: " desc = true ->
  (forall x,
     tplink_fields (Py.split ","%char desc) (0, 0, 0, 0) = inl x ->
     x = ValueError /\
     firmware_entries w rec (entry :: rest) s = Raise ValueError s) /\
  (forall f ko ks ro rs,
     tplink_fields (Py.split ","%char desc) (0, 0, 0, 0) = inr f ->
     tplink_sizes file_size f = (ko, ks, ro, rs) ->
     (tplink_sane file_size (ko, ks, ro, rs) = false ->
      firmware_entries w rec (entry :: rest) s = firmware_entries w rec rest s) /\
     (tplink_sane file_size (ko, ks, ro, rs) = true ->
      0 < ks /\ ko + ks <= file_size /\ rs <> 0 /\ ro + rs <= file_size /\
      firmware_entries w rec (entry :: rest) s
      = (carve_child w rec ko ks ;;
         carve_child w rec ro rs ;;
         b <- update_status ;;
         ret (VBool b))%py s)) /\
  (forall ko ro, ko <> 0 ->
     tplink_sizes file_size (ko, 0, ro, 0) = (ko, ro - ko, ro, file_size - ro) /\
     (tplink_sane file_size (ko, ro - ko, ro, file_size - ro) = true
      <-> ko < ro /\ ro < file_size)) /\
  (forall ko ks ro rs, ks <> 0 \/ rs <> 0 ->
     tplink_sizes file_size (ko, ks, ro, rs) = (ko, ks, ro, rs)) /\
  (forall o n s0, n <> 0 ->
     let i0 := self s0 in
     let tmp_path := w_mkstemp w (tmp_count (ext s0)) (temp i0) in
     (o < 0 \/ OFFSET_BOUND <= o \/ n < -1 \/ OFFSET_BOUND <= n ->
      exists x e1,
        carve_child w rec o n s0 = Raise x (mkSt i0 e1) /\
        log e1 = log (ext s0) /\ tmp_count e1 = S (tmp_count (ext s0)) /\
        same_config e1 (ext s0) /\ visited e1 = visited (ext s0) /\
        (- OFFSET_BOUND <= o < 0 -> x = OSError)) /\
     (0 <= o < OFFSET_BOUND -> -1 <= n < OFFSET_BOUND ->
      exists e2,
        log e2 = EvDd (item i0) o n tmp_path :: log (ext s0) /\
        tmp_count e2 = S (tmp_count (ext s0)) /\
        same_config e2 (ext s0) /\ visited e2 = visited (ext s0) /\
        carve_child w rec o n s0
        = match init w e2 tmp_path (depth i0) (Some (tag i0)) with
          | None => Raise OSError (mkSt i0 e2)
          | Some child =>
              match rec (mkSt child
                           (add_event (EvItem tmp_path (depth i0) (tag child)) e2)) with
              | Ok r s' => Ok r (mkSt i0 (ext s'))
              | Raise x s' => Raise x (mkSt i0 (ext s'))
              | OutOfFuel => OutOfFuel
              end
          end)).
Proof.
  cbv zeta. intros Hu Hk Hr Hro Hko.
  assert (E : firmware_entries w rec (entry :: rest) s
              = match tplink_fields (Py.split ","%char (Binwalk.description entry))
                        (0, 0, 0, 0) with
                | inl x => Raise x s
                | inr f =>
                    let f' := tplink_sizes (w_getsize w (item (self s))) f in
                    let '(ko, ks, ro, rs) := f' in
                    if tplink_sane (w_getsize w (item (self s))) f'
                    then (carve_child w rec ko ks ;;
                          carve_child w rec ro rs ;;
                          b <- update_status ;;
                          ret (VBool b))%py s
                    else firmware_entries w rec rest s
                end).
  { cbn [firmware_entries]. unfold bind at 1, gets at 1.
    rewrite Hu, Hk, Hr, Hro, Hko. cbn [negb andb].
    destruct (tplink_fields _ _) as [x|f]; [reflexivity|].
    unfold lift, bind at 1, ret at 1. cbv zeta.
    destruct (tplink_sizes _ f) as [[[ko ks] ro] rs].
    now destruct (tplink_sane _ _). }
  split; [|split; [|split; [|split]]].
  - intros x Hx. pose proof (tplink_fields_raises _ _ _ Hx) as ->.
    split; [reflexivity|]. now rewrite E, Hx.
  - intros f ko ks ro rs Hf Hsz. rewrite E, Hf. cbv zeta. rewrite Hsz. split.
    + now intros ->.
    + intros Hs. rewrite Hs. unfold tplink_sane in Hs.
      rewrite !andb_true_iff, negb_true_iff, Z.ltb_lt, !Z.leb_le, Z.eqb_neq in Hs.
      repeat split; tauto.
  - intros ko ro. apply tplink_derived.
  - intros ko ks ro rs. apply tplink_given.
  - intros o n s0 Hn. exact (carve_child_cases w rec o n s0 Hn).
Qed.

Lemma tplink_stage_witness :
  firmware_entries Scenarios.tplink_world (extract Scenarios.tplink_world 1)
    [Scenarios.tplink_full_entry]
    (on_self (set_temp (Some "/tmp/tmp0"))
       (Scenarios.start Examples.plain Examples.fresh))
  = (carve_child Scenarios.tplink_world (extract Scenarios.tplink_world 1) 64 128 ;;
     carve_child Scenarios.tplink_world (extract Scenarios.tplink_world 1) 256 256 ;;
     b <- update_status ;;
     ret (VBool b))%py
      (on_self (set_temp (Some "/tmp/tmp0"))
         (Scenarios.start Examples.plain Examples.fresh)).
Proof.
  apply (proj2 (proj1 (proj2
           (tplink_stage Scenarios.tplink_world (extract Scenarios.tplink_world 1)
              Scenarios.tplink_full_entry []
              (on_self (set_temp (Some "/tmp/tmp0"))
                 (Scenarios.start Examples.plain Examples.fresh))
              eq_refl eq_refl eq_refl eq_refl eq_refl))
           (64, 128, 256, 256) 64 128 256 256
           ltac:(vm_compute; reflexivity) eq_refl)).
  reflexivity.
Defined.

(** X15. [parseBinwalkLog] raises [RuntimeError] when the log is not a
    regular file, is a text that is not JSON, is an empty array, or has
    a first element without an ["Analysis"] key.  Two exceptions are not
    converted and leave the function as they are: the [OSError] of
    [open] on a file the user may not read, and the [UnicodeDecodeError]
    of [json.load] on a file that is not text in the encoding it is
    opened with.  It raises in no other case.  Otherwise it
    returns, whatever follows the first element, one object per element
    of ["file_map"] that has the five keys read and, if its id is a key
    of ["extractions"], an extraction record with its four keys: the
    other elements are skipped, the order is kept, and extraction
    details are attached exactly to the ids that ["extractions"]
    holds. *)
Theorem parseBinwalkLog_keeps_complete_entries (logFile : BinwalkInterface.LogFile)
    (hostOut guestOut : string) :
  match BinwalkInterface.parseBinwalkLog logFile hostOut guestOut with
  | inl x =>
      (x = OSError /\ logFile = BinwalkInterface.Unreadable) \/
      (x = UnicodeDecodeError /\ logFile = BinwalkInterface.NotText) \/
      (x = RuntimeError /\
       (logFile = BinwalkInterface.NoFile \/ logFile = BinwalkInterface.NotJson \/
        logFile = BinwalkInterface.Json [] \/
        exists more, logFile = BinwalkInterface.Json (None :: more)))
  | inr detected =>
      exists logData more,
        logFile = BinwalkInterface.Json (Some logData :: more) /\
        let extractedFiles := default ∅ (BinwalkInterface.extractions logData) in
        Forall2 (parsed_from extractedFiles hostOut guestOut)
          (List.filter (complete_entry extractedFiles)
             (default [] (BinwalkInterface.file_map logData)))
          detected
  end.
Proof.
  destruct logFile as [| | | |[|[logData|] more]]; cbn [BinwalkInterface.parseBinwalkLog].
  - right. right. split; auto.
  - left. split; reflexivity.
  - right. left. split; reflexivity.
  - right. right. split; auto.
  - right. right. split; auto.
  - exists logData, more. split; [reflexivity|]. apply omap_parse_file.
  - right. right. split; [reflexivity|]. right. right. right. now exists more.
Qed.

(** X16. The pair of directories [generateDockerArgs] returns is the
    host side and the guest side of one mount: with an output directory,
    its absolute path and [/output], which [volumes] binds to each
    other; without one, [extractions] under the directory of the input
    file and [/input/extractions], that directory being bound to
    [/input].  The guest side is the last argument passed to the
    scanner.  With this pair, [parseBinwalkLog] moves an output directory
    that lies under the guest side to the same place under the host
    side, and leaves a path that does not hold the guest side as it
    is. *)
Theorem output_directories_translated_to_host (h : BinwalkInterface.Host)
    (filePath : string) (verbose extract recursive searchAll : bool)
    (excludeSignatures includeSignatures : list string)
    (outputDirectory : string) :
  let '(args, volumes, logDir, (hostOut, guestOut)) :=
    BinwalkInterface.generateDockerArgs h filePath verbose extract recursive
      searchAll excludeSignatures includeSignatures outputDirectory in
  let inputDir := BinwalkInterface.dirname (BinwalkInterface.h_abspath h filePath) in
  (if String.eqb outputDirectory EmptyString
   then hostOut = Py.path_join inputDir "extractions" /\
        guestOut = Py.path_join "/input" "extractions" /\
        volumes !! inputDir = Some ("/input", "rw")
   else hostOut = BinwalkInterface.h_abspath h outputDirectory /\
        guestOut = "/output" /\
        volumes !! hostOut = Some ("/output", "rw")) /\
  List.last args EmptyString = guestOut /\
  (forall rest,
     BinwalkInterface.replace_first guestOut hostOut (guestOut +:+ rest)
     = hostOut +:+ rest) /\
  (forall p, Py.contains guestOut p = false ->
     BinwalkInterface.replace_first guestOut hostOut p = p).
Proof.
  unfold BinwalkInterface.generateDockerArgs. cbv zeta.
  destruct (String.eqb outputDirectory EmptyString); cbn [negb].
  - split; [|split; [|split]].
    + split; [reflexivity|]. split; [reflexivity|]. apply lookup_insert_eq.
    + apply last_two.
    + intros rest. apply replace_first_prefix.
    + intros p. apply replace_first_absent.
  - split; [|split; [|split]].
    + split; [reflexivity|]. split; [reflexivity|]. apply lookup_insert_eq.
    + apply last_two.
    + intros rest. apply replace_first_prefix.
    + intros p. apply replace_first_absent.
Qed.

(** X17. The mounts [generateDockerArgs] sets up.  The scanner is always
    pointed at [/input/<file name>].  When the log directory, the
    directory of the input file and the output directory are three
    different directories, they are bound to [/analysis], [/input] and
    [/output].  But [volumes] is keyed by host directory: when the
    output directory is the directory of the input file, its binding
    to [/output] replaces the one to [/input], and no directory is bound
    to [/input] at all. *)
Theorem output_mount_replaces_input_mount (h : BinwalkInterface.Host)
    (filePath : string) (verbose extract recursive searchAll : bool)
    (excludeSignatures includeSignatures : list string)
    (outputDirectory : string) :
  let inputDir := BinwalkInterface.dirname (BinwalkInterface.h_abspath h filePath) in
  let logDir := BinwalkInterface.h_mkdtemp h in
  let outputDir := BinwalkInterface.h_abspath h outputDirectory in
  outputDirectory <> EmptyString ->
  logDir <> inputDir ->
  let '(args, volumes, _, _) :=
    BinwalkInterface.generateDockerArgs h filePath verbose extract recursive
      searchAll excludeSignatures includeSignatures outputDirectory in
  nth_error args 0
  = Some (Py.path_join "/input"
            (Py.basename (BinwalkInterface.h_abspath h filePath))) /\
  (outputDir <> inputDir -> outputDir <> logDir ->
     volumes !! logDir = Some ("/analysis", "rw") /\
     volumes !! inputDir = Some ("/input", "rw") /\
     volumes !! outputDir = Some ("/output", "rw") /\
     size volumes = 3%nat) /\
  (outputDir = inputDir ->
     forall dir, volumes !! dir <> Some ("/input", "rw")).
Proof.
  cbv zeta. intros Hout Hlog.
  unfold BinwalkInterface.generateDockerArgs. cbv zeta.
  apply String.eqb_neq in Hout. rewrite Hout. cbn [negb]. cbv beta iota zeta.
  unfold BinwalkInterface.Volumes.
  split; [reflexivity|]. split.
  - intros H1 H2. split; [|split; [|split]].
    + rewrite lookup_insert_ne by congruence.
      rewrite lookup_insert_ne by congruence. apply lookup_insert_eq.
    + rewrite lookup_insert_ne by congruence. apply lookup_insert_eq.
    + apply lookup_insert_eq.
    + rewrite map_size_insert_None.
      2:{ rewrite lookup_insert_ne by congruence.
          rewrite lookup_insert_ne by congruence. apply lookup_empty. }
      rewrite map_size_insert_None.
      2:{ rewrite lookup_insert_ne by congruence. apply lookup_empty. }
      rewrite map_size_insert_None by apply lookup_empty.
      now rewrite map_size_empty.
  - intros -> dir.
    destruct (decide (BinwalkInterface.dirname
                        (BinwalkInterface.h_abspath h filePath) = dir)) as [<-|Hd].
    + rewrite lookup_insert_eq. discriminate.
    + rewrite lookup_insert_ne by exact Hd.
      rewrite lookup_insert_ne by exact Hd.
      destruct (decide (BinwalkInterface.h_mkdtemp h = dir)) as [<-|Hl].
      * rewrite lookup_insert_eq. discriminate.
      * rewrite lookup_insert_ne by exact Hl. now rewrite lookup_empty.
Qed.

Lemma output_mount_replaces_input_mount_witness :
  bool_decide
    (snd (fst (fst (BinwalkInterface.generateDockerArgs HostScenario.host
                      "/in/fw.bin" false true false true [] ["squashfs"] "/in")))
     !! "/in" = Some ("/input", "rw"))
  = false.
Proof.
  pose proof (output_mount_replaces_input_mount HostScenario.host
                "/in/fw.bin" false true false true [] ["squashfs"] "/in"
                ltac:(discriminate) ltac:(discriminate)) as H.
  destruct (BinwalkInterface.generateDockerArgs HostScenario.host
              "/in/fw.bin" false true false true [] ["squashfs"] "/in")
    as [[[args volumes] logDir] pair].
  apply bool_decide_eq_false. exact (proj2 (proj2 H) eq_refl "/in").
Defined.

(** X18. [runBinwalk] returns an empty list, without creating anything
    or starting a container, when the input is not a regular file in a
    directory the user can read and write, or when an output directory
    is given that is not such a directory.  Otherwise it first makes the
    temporary log directory.  It lets through the exception of
    [docker.from_env()] and the two exceptions [parseBinwalkLog] does
    not convert (the [OSError] of a log the user may not read, the
    [UnicodeDecodeError] of a log that is not text); every failure of
    the container and every other unusable log becomes [RuntimeError];
    the container is started at most once.  The log directory is removed on the successful path
    only: whenever [runBinwalk] raises, the directory it made is left
    behind.  What it returns on success is the parse of
    [<log directory>/log.json] with the directory pair of
    [generateDockerArgs]. *)
Theorem runBinwalk_removes_log_dir_only_on_success (h : BinwalkInterface.Host)
    (filePath : string) (verbose extract recursive searchAll : bool)
    (logFile : string) (excludeSignatures includeSignatures : list string)
    (outputDirectory : string) :
  let '(result, actions) :=
    BinwalkInterface.runBinwalk h filePath verbose extract recursive searchAll
      logFile excludeSignatures includeSignatures outputDirectory in
  let usable :=
    BinwalkInterface.checkFile h filePath &&
    (String.eqb outputDirectory EmptyString ||
     BinwalkInterface.checkOutputDirectory h outputDirectory) in
  (usable = false -> result = BinwalkInterface.Returned [] /\ actions = []) /\
  (usable = true ->
     nth_error actions 0
     = Some (BinwalkInterface.Mkdtemp (BinwalkInterface.h_mkdtemp h)) /\
     (result = BinwalkInterface.Raised DockerException
      <-> BinwalkInterface.h_from_env h = false) /\
     (forall x, result = BinwalkInterface.Raised x ->
        x = DockerException \/ x = RuntimeError \/
        exists args volumes,
          BinwalkInterface.h_from_env h = true /\
          BinwalkInterface.h_run h args volumes = true /\
          (x = OSError /\
           BinwalkInterface.h_log h args volumes
             (Py.path_join (BinwalkInterface.h_mkdtemp h) "log.json")
           = BinwalkInterface.Unreadable \/
           x = UnicodeDecodeError /\
           BinwalkInterface.h_log h args volumes
             (Py.path_join (BinwalkInterface.h_mkdtemp h) "log.json")
           = BinwalkInterface.NotText)) /\
     List.length (List.filter is_docker_run actions)
     = (if BinwalkInterface.h_from_env h then 1 else 0)%nat /\
     existsb is_rmtree actions
     = match result with BinwalkInterface.Returned _ => true | _ => false end /\
     (forall detected, result = BinwalkInterface.Returned detected ->
        exists args volumes hostOut guestOut,
          BinwalkInterface.generateDockerArgs h filePath verbose extract
            recursive searchAll excludeSignatures includeSignatures
            outputDirectory
          = (args, volumes, BinwalkInterface.h_mkdtemp h, (hostOut, guestOut)) /\
          BinwalkInterface.parseBinwalkLog
            (BinwalkInterface.h_log h args volumes
               (Py.path_join (BinwalkInterface.h_mkdtemp h) "log.json"))
            hostOut guestOut
          = inr detected)).
Proof.
  unfold BinwalkInterface.runBinwalk.
  destruct (BinwalkInterface.checkFile h filePath); cbn [negb andb];
    [|split; [now split | discriminate]].
  assert (Hgo :
    let '(result, actions) :=
      let '(args, volumes, logDir, (hostOut, guestOut)) :=
        BinwalkInterface.generateDockerArgs h filePath verbose extract
          recursive searchAll excludeSignatures includeSignatures
          outputDirectory in
      if negb (BinwalkInterface.h_from_env h)
      then (BinwalkInterface.Raised DockerException,
            [BinwalkInterface.Mkdtemp logDir])
      else if negb (BinwalkInterface.h_run h args volumes)
      then (BinwalkInterface.Raised RuntimeError,
            [BinwalkInterface.Mkdtemp logDir;
             BinwalkInterface.DockerRun args volumes])
      else
        match BinwalkInterface.parseBinwalkLog
                (BinwalkInterface.h_log h args volumes
                   (Py.path_join logDir "log.json")) hostOut guestOut with
        | inl x => (BinwalkInterface.Raised x,
                    [BinwalkInterface.Mkdtemp logDir;
                     BinwalkInterface.DockerRun args volumes])
        | inr logData =>
            (BinwalkInterface.Returned logData,
             [BinwalkInterface.Mkdtemp logDir;
              BinwalkInterface.DockerRun args volumes] ++
             (if truthy (Some logFile)
              then [BinwalkInterface.CopyLog (Py.path_join logDir "log.json") logFile]
              else []) ++
             [BinwalkInterface.Rmtree logDir])%list
        end in
    nth_error actions 0
    = Some (BinwalkInterface.Mkdtemp (BinwalkInterface.h_mkdtemp h)) /\
    (result = BinwalkInterface.Raised DockerException
     <-> BinwalkInterface.h_from_env h = false) /\
    (forall x, result = BinwalkInterface.Raised x ->
       x = DockerException \/ x = RuntimeError \/
       exists args volumes,
         BinwalkInterface.h_from_env h = true /\
         BinwalkInterface.h_run h args volumes = true /\
         (x = OSError /\
          BinwalkInterface.h_log h args volumes
            (Py.path_join (BinwalkInterface.h_mkdtemp h) "log.json")
          = BinwalkInterface.Unreadable \/
          x = UnicodeDecodeError /\
          BinwalkInterface.h_log h args volumes
            (Py.path_join (BinwalkInterface.h_mkdtemp h) "log.json")
          = BinwalkInterface.NotText)) /\
    List.length (List.filter is_docker_run actions)
    = (if BinwalkInterface.h_from_env h then 1 else 0)%nat /\
    existsb is_rmtree actions
    = match result with BinwalkInterface.Returned _ => true | _ => false end /\
    (forall detected, result = BinwalkInterface.Returned detected ->
       exists args volumes hostOut guestOut,
         BinwalkInterface.generateDockerArgs h filePath verbose extract
           recursive searchAll excludeSignatures includeSignatures
           outputDirectory
         = (args, volumes, BinwalkInterface.h_mkdtemp h, (hostOut, guestOut)) /\
         BinwalkInterface.parseBinwalkLog
           (BinwalkInterface.h_log h args volumes
              (Py.path_join (BinwalkInterface.h_mkdtemp h) "log.json"))
           hostOut guestOut
         = inr detected)).
  { destruct (BinwalkInterface.generateDockerArgs _ _ _ _ _ _ _ _ _)
      as [[[args volumes] logDir] [hostOut guestOut]] eqn:Eg.
    pose proof (generateDockerArgs_logDir _ _ _ _ _ _ _ _ _ _ _ _ _ Eg) as ->.
    destruct (BinwalkInterface.h_from_env h); cbn [negb].
    2:{ repeat split; try reflexivity; auto; try discriminate.
        intros x [= <-]. now left. }
    destruct (BinwalkInterface.h_run h args volumes) eqn:Er; cbn [negb].
    2:{ repeat split; try reflexivity; auto; try discriminate.
        intros x [= <-]. right. now left. }
    destruct (BinwalkInterface.parseBinwalkLog _ hostOut guestOut) as [x|l] eqn:Ep.
    { assert (Hx : x <> DockerException).
      { pose proof (parse_error_cases _ _ _ _ Ep) as [[-> _]|[[-> _]| ->]];
          discriminate. }
      repeat split; try reflexivity; auto; try discriminate.
      - intros [= ->]. now contradiction Hx.
      - intros y [= <-]. right.
        pose proof (parse_error_cases _ _ _ _ Ep) as [[-> Hl]|[[-> Hl]| ->]];
          [right|right|now left]; exists args, volumes; auto. }
    repeat split; try reflexivity; try discriminate.
    + now destruct (truthy (Some logFile)).
    + destruct (truthy (Some logFile)); cbn; reflexivity.
    + intros detected [= <-]. now exists args, volumes, hostOut, guestOut. }
  destruct (String.eqb outputDirectory EmptyString) eqn:Eo; cbn [negb andb orb].
  - revert Hgo.
    destruct (let '(args, volumes, logDir, (hostOut, guestOut)) :=
                BinwalkInterface.generateDockerArgs _ _ _ _ _ _ _ _ _ in _)
      as [result actions].
    intros Hgo. split; [discriminate | now intros _].
  - destruct (BinwalkInterface.checkOutputDirectory h outputDirectory);
      cbn [negb]; [|split; [now split | discriminate]].
    revert Hgo.
    destruct (let '(args, volumes, logDir, (hostOut, guestOut)) :=
                BinwalkInterface.generateDockerArgs _ _ _ _ _ _ _ _ _ in _)
      as [result actions].
    intros Hgo. split; [discriminate | now intros _].
Qed.

Lemma runBinwalk_removes_log_dir_only_on_success_witness :
  fst (BinwalkInterface.runBinwalk HostScenario.no_image "/in/fw.bin"
         false true false true EmptyString [] ["squashfs"] "/tmp/tmp0")
  = BinwalkInterface.Raised RuntimeError /\
  existsb is_rmtree
    (snd (BinwalkInterface.runBinwalk HostScenario.no_image "/in/fw.bin"
            false true false true EmptyString [] ["squashfs"] "/tmp/tmp0"))
  = false.
Proof.
  pose proof (runBinwalk_removes_log_dir_only_on_success HostScenario.no_image
                "/in/fw.bin" false true false true EmptyString []
                ["squashfs"] "/tmp/tmp0") as H.
  destruct (BinwalkInterface.runBinwalk HostScenario.no_image "/in/fw.bin"
              false true false true EmptyString [] ["squashfs"] "/tmp/tmp0")
    as [result actions] eqn:E.
  destruct H as [_ H]. specialize (H eq_refl).
  destruct H as (_ & _ & _ & _ & Hrm & _).
  assert (Hr : result = BinwalkInterface.Raised RuntimeError).
  { vm_compute in E. now injection E as <- _. }
  split; [exact Hr|]. cbn [fst snd]. rewrite Hrm, Hr. reflexivity.
Defined.

(** X19. The serial driver returns one record per input, in the order of
    the inputs; the record of an input carries the tag
    [<basename>_<md5>] of that input, and a kernel or rootfs flag that is
    set in it is backed at the end of the whole run: the file named in
    the record is on disk then, unless the corresponding global flag is
    off. *)
Theorem driver_results_follow_inputs (w : World) (fuel : nat)
    (input : string) (e : ExtractorState) (rs : list Result)
    (e' : ExtractorState) :
  Driver.extract w fuel input e = Ok rs e' ->
  Forall2 (result_of_input w e') (Driver.input_list w e input) rs.
Proof.
  unfold Driver.extract. intros H.
  destruct (extract_list_results w fuel _ _ _ _ _ H) as (_ & new & -> & Hall).
  exact Hall.
Qed.

Lemma driver_results_follow_inputs_witness :
  exists rs e',
    Driver.extract Scenarios.rootfs_world 2 Examples.firmware Examples.fresh
    = Ok rs e' /\
    Forall2 (result_of_input Scenarios.rootfs_world e')
      (Driver.input_list Scenarios.rootfs_world Examples.fresh Examples.firmware)
      rs.
Proof.
  eexists. eexists. split; [vm_compute; reflexivity|].
  apply (driver_results_follow_inputs Scenarios.rootfs_world 2).
  vm_compute. reflexivity.
Defined.

(** X20. When the input is a directory, the driver's list of inputs holds
    the joined path of every entry that is not a directory, at any depth
    below the input that is reached through subdirectories which are not
    symbolic links, and nothing else; each such entry is listed once, so
    the list is as long as the number of such entries.  What lies behind
    a symbolic link to a directory is not listed, and neither is the
    link. *)
Theorem input_directory_lists_every_file (w : World) (e : ExtractorState)
    (input : string) :
  isdir (w_tree w input) = true ->
  (forall p, List.In p (Driver.input_list w e input) <->
             file_at (w_islink w) input (w_tree w input) p) /\
  List.length (Driver.input_list w e input)
  = count_files (w_islink w) input (w_tree w input).
Proof.
  intros Hd. unfold Driver.input_list. rewrite Hd.
  fold (joined (walk (w_islink w) input (w_tree w input))). split.
  - intros p. apply walk_files_iff.
  - rewrite <- (walk_files_count (w_islink w) (w_tree w input) input), Hd. lia.
Qed.

Lemma input_directory_lists_every_file_witness :
  file_at (w_islink InputScenario.world) "/in" InputScenario.tree "/in/sub/b.bin" /\
  ~ file_at (w_islink InputScenario.world) "/in" InputScenario.tree "/in/link/b.bin" /\
  List.length (Driver.input_list InputScenario.world Examples.fresh "/in") = 2%nat.
Proof.
  pose proof (input_directory_lists_every_file InputScenario.world
                Examples.fresh "/in" eq_refl) as [H1 H2].
  split; [|split].
  - apply (H1 "/in/sub/b.bin"). vm_compute. auto.
  - intros H. apply (H1 "/in/link/b.bin") in H. vm_compute in H.
    destruct H as [H|[H|[]]]; discriminate H.
  - rewrite H2. reflexivity.
Defined.

(** X21. On a directory [io_find_rootfs] always returns.  A hit is never
    false: the path it returns leads, below the starting directory, to a
    directory with at least four canonical UNIX subdirectories, also
    when the hit comes from the search in a subdirectory.  A miss returns
    the starting path itself, not the end of the single-child chain. *)
Theorem rootfs_hit_is_sound (start : string) (l : list (string * fsnode))
    (recurse : bool) :
  exists b p,
    Extractor.io_find_rootfs start (FsDir l) recurse = Some (b, p) /\
    (b = false -> p = start) /\
    (b = true -> exists d, dir_at start (FsDir l) p d /\
                           (4 <= List.length (unix_subdirs d))%nat).
Proof. apply find_rootfs_sound. Qed.


